(** * A shallow embedding of [shell.py]

    The shell reads a line, lexes it with one regular expression
    ([tokenize]), splits the tokens into pipeline stages with their
    redirections ([parse_pipeline]), resolves program names
    ([find_executable]) and forks one child per stage ([run_pipeline]);
    [main] is the read-eval loop around them.

    Python strings are sequences of Unicode code points: a character is
    its code point ([N]) and a string is a list of them.  The operating
    system is a record of the facts the parent process can observe; a
    string that cannot be handed to it, because the file system encoding
    lacks a character or because it holds a NUL character, makes the
    functions of [os] raise [ValueError].  The standard streams are taken
    to accept what is written to them. *)

From Stdlib Require Import ZArith NArith Lia Bool Ascii String DecimalString.
From stdpp Require Import base option list gmap.

(** ** Strings *)

Abbreviation pystr := (list N).

(** A literal of the source, written as a Rocq string. *)
Definition py (s : string) : pystr :=
  N_of_ascii <$> list_ascii_of_string s.

Definition pystr_eqb (a b : pystr) : bool := bool_decide (a = b).

Module Chr.
Definition newline : N := 10.
Definition space : N := 32.
Definition dquote : N := 34.
Definition squote : N := 39.
Definition amp : N := 38.
Definition slash : N := 47.
Definition colon : N := 58.
Definition lt : N := 60.
Definition gt : N := 62.
Definition backslash : N := 92.
Definition bar : N := 124.
End Chr.

(** [\s] of a [str] pattern, and the characters [str.strip()] removes:
    the code points for which [str.isspace()] holds. *)
Definition is_space (c : N) : bool :=
  (((9 <=? c) && (c <=? 13)) || ((28 <=? c) && (c <=? 32))
   || (c =? 133) || (c =? 160) || (c =? 5760)
   || ((8192 <=? c) && (c <=? 8202))
   || (c =? 8232) || (c =? 8233) || (c =? 8239) || (c =? 8287)
   || (c =? 12288))%N.

(** ** The lexer: [tokenize] *)

(** The four capturing groups of [token_re]. *)
Inductive group := GAppend | GBare | GDouble | GSingle.

(** A successful [token_re.match(s, pos)]: the group that took part, its
    text, and the input left after [m.end()]. *)
Record rmatch := RMatch { m_group : group; m_text : pystr; m_rest : pystr }.

(** The second alternative, a greedy run of characters that are neither
    white space nor a quote of either kind: the longest such run, which may
    be empty here. *)
Fixpoint bare_run (s : pystr) : pystr * pystr :=
  match s with
  | c :: s' =>
      if is_space c || (c =? Chr.dquote)%N || (c =? Chr.squote)%N then ([], s)
      else let '(w, r) := bare_run s' in (c :: w, r)
  | [] => ([], [])
  end.

(** [(?:\\.|[^q])+] followed by the closing quote [q], with the
    engine's backtracking: at every position a further iteration is tried
    first, its first alternative [\\.] before its second [[^q]], and the
    closing quote only when both fail; [.] matches anything but a
    newline.  [started] says that one iteration has been made. *)
Fixpoint quoted_body (q : N) (started : bool) (s : pystr)
  : option (pystr * pystr) :=
  let close :=
    match s with
    | c :: r => if started && (c =? q)%N then Some ([], r) else None
    | [] => None
    end in
  let plain :=
    match s with
    | c :: s' =>
        if (c =? q)%N then close
        else match quoted_body q true s' with
             | Some (b, r) => Some (c :: b, r)
             | None => close
             end
    | [] => close
    end in
  match s with
  | c :: s' =>
      match s' with
      | d :: s'' =>
          if (c =? Chr.backslash)%N && negb (d =? Chr.newline)%N then
            match quoted_body q true s'' with
            | Some (b, r) => Some (c :: d :: b, r)
            | None => plain
            end
          else plain
      | [] => plain
      end
  | [] => plain
  end.

(** The alternation of [token_re], in its order, at a position where the
    leading [\s*] has stopped. *)
Definition token_alternatives (s : pystr) : option rmatch :=
  match s with
  | c :: s' =>
      let quoted :=
        if (c =? Chr.dquote)%N then
          match quoted_body Chr.dquote false s' with
          | Some (b, r) => Some (RMatch GDouble b r)
          | None => None
          end
        else if (c =? Chr.squote)%N then
          match quoted_body Chr.squote false s' with
          | Some (b, r) => Some (RMatch GSingle b r)
          | None => None
          end
        else None in
      let bare :=
        match bare_run s with
        | ((_ :: _) as w, r) => Some (RMatch GBare w r)
        | ([], _) => quoted
        end in
      match s' with
      | d :: r =>
          if (c =? Chr.gt)%N && (d =? Chr.gt)%N
          then Some (RMatch GAppend [Chr.gt; Chr.gt] r)
          else bare
      | [] => bare
      end
  | [] => None
  end.

(** [token_re.match]: the greedy [\s*] takes a space when it can and gives
    it back when nothing matches further on. *)
Fixpoint token_re_match (s : pystr) : option rmatch :=
  match s with
  | c :: s' =>
      if is_space c then
        match token_re_match s' with
        | Some m => Some m
        | None => token_alternatives s
        end
      else token_alternatives s
  | [] => token_alternatives []
  end.

(** [body.replace('\\' + q, q)]: occurrences are replaced from the left
    and do not overlap. *)
Fixpoint replace_escaped (q : N) (s : pystr) : pystr :=
  match s with
  | [] => []
  | c :: t =>
      match t with
      | d :: s' =>
          if (c =? Chr.backslash)%N && (d =? q)%N then q :: replace_escaped q s'
          else c :: replace_escaped q t
      | [] => [c]
      end
  end.

(** The token appended for a match: the [if m.group(1) ... elif] chain. *)
Definition token_of (m : rmatch) : pystr :=
  match m_group m with
  | GAppend | GBare => m_text m
  | GDouble => replace_escaped Chr.dquote (m_text m)
  | GSingle => replace_escaped Chr.squote (m_text m)
  end.

(** The [while pos < len(s)] loop; the string from [pos] on is [s].  Every
    match consumes a character, so [length s] rounds are enough
    ([tokenize_loop_fuel]). *)
Fixpoint tokenize_loop (fuel : nat) (s : pystr) (tokens : list pystr)
  : list pystr :=
  match fuel with
  | O => tokens
  | S fuel' =>
      match s with
      | [] => tokens
      | _ :: _ =>
          match token_re_match s with
          | None => tokens
          | Some m => tokenize_loop fuel' (m_rest m) (tokens ++ [token_of m])
          end
      end
  end.

Definition tokenize (s : pystr) : list pystr :=
  tokenize_loop (length s) s [].


(** ** The parser: [parse_pipeline] *)

(** A command dictionary, with the keys ['args'], ['in'], ['out'] and
    ['append']. *)
Record command := Command {
  args : list pystr;
  infile : option pystr;
  outfile : option pystr;
  append : bool
}.

(** The first loop: [segments] and [cur] while the tokens are split at
    every bar. *)
Fixpoint split_segments (tokens : list pystr) (segments : list (list pystr))
    (cur : list pystr) : list (list pystr) :=
  match tokens with
  | t :: tokens' =>
      if pystr_eqb t (py "|") then split_segments tokens' (segments ++ [cur]) []
      else split_segments tokens' segments (cur ++ [t])
  | [] => segments ++ [cur]
  end.

(** The local variables of the scan of one segment. *)
Record scan := Scan {
  s_i : nat;
  s_infile : option pystr;
  s_outfile : option pystr;
  s_append : bool;
  s_args : list pystr
}.

Definition scan_init : scan := Scan 0 None None false [].

(** One round of [while i < len(seg)], entered with [i < len(seg)].  After
    [i += 1], [seg[i] if i < len(seg) else None] is the lookup
    [seg !! S i]. *)
Definition scan_step (seg : list pystr) (st : scan) : scan :=
  let i := s_i st in
  match seg !! i with
  | None => st
  | Some tok =>
      if pystr_eqb tok (py ">") then
        Scan (S (S i)) (s_infile st) (seg !! S i) (s_append st) (s_args st)
      else if pystr_eqb tok (py ">>") then
        match seg !! S i with
        | Some t => Scan (S (S i)) (s_infile st) (Some t) true (s_args st)
        | None => Scan (S (S i)) (s_infile st) None (s_append st) (s_args st)
        end
      else if pystr_eqb tok (py "<") then
        Scan (S (S i)) (seg !! S i) (s_outfile st) (s_append st) (s_args st)
      else
        Scan (S i) (s_infile st) (s_outfile st) (s_append st)
          (s_args st ++ [tok])
  end.

(** The [while] loop; [i] grows in every round, so [length seg] rounds are
    enough ([scan_loop_done]). *)
Fixpoint scan_loop (fuel : nat) (seg : list pystr) (st : scan) : scan :=
  match fuel with
  | O => st
  | S fuel' =>
      if s_i st <? length seg then scan_loop fuel' seg (scan_step seg st)
      else st
  end.

Definition scan_segment (seg : list pystr) : scan :=
  scan_loop (length seg) seg scan_init.

(** The command a segment contributes: none when [args] is empty. *)
Definition segment_command (seg : list pystr) : option command :=
  let st := scan_segment seg in
  match s_args st with
  | [] => None
  | _ :: _ =>
      Some (Command (s_args st) (s_infile st) (s_outfile st) (s_append st))
  end.

(** The second loop, over the segments. *)
Fixpoint parse_segments (segments : list (list pystr)) (cmds : list command)
  : list command :=
  match segments with
  | seg :: segments' =>
      match segment_command seg with
      | Some c => parse_segments segments' (cmds ++ [c])
      | None => parse_segments segments' cmds
      end
  | [] => cmds
  end.

(** The parser on a token list. *)
Definition parse_tokens (tokens : list pystr) : list command :=
  match tokens with
  | [] => []
  | _ :: _ => parse_segments (split_segments tokens [] []) []
  end.

Definition parse_pipeline (line : pystr) : list command :=
  parse_tokens (tokenize line).

(** ** The operating system *)

(** Python exceptions the program can meet, each with the text [str]
    gives for it where the program prints one.  [ValueError] stands for
    its subclasses too.  [SystemExit] and [KeyboardInterrupt] are not
    instances of [Exception]. *)
Inductive exn :=
| OSError (msg : pystr)
| ValueError (msg : pystr)
| IndexError
| EOFError
| KeyboardInterrupt
| SystemExit (code : Z).

Definition is_Exception (e : exn) : bool :=
  match e with
  | OSError _ | ValueError _ | IndexError | EOFError => true
  | KeyboardInterrupt | SystemExit _ => false
  end.

(** How a piece of code ends: with a value, with an exception on its way
    up, by [os._exit], or by a successful [os.execve], after which the
    process runs another program. *)
Inductive result (A : Type) :=
| Ret (a : A)
| Raise (e : exn)
| Exited (code : Z)
| Execed (path : pystr) (argv : list pystr).
Arguments Ret {A} a.
Arguments Raise {A} e.
Arguments Exited {A} code.
Arguments Execed {A} path argv.

(** What a file descriptor refers to. *)
Inductive fdesc :=
| Inherited (n : Z)
| PipeRead (k : nat)
| PipeWrite (k : nat)
| File (path : pystr) (flags : Z).

(** The file system as the calls of the program see it.  The first
    argument is the current directory, since paths may be relative:
    [fs_access_x d p] is [os.access(p, os.X_OK)], [fs_isfile d p] is
    [os.path.isfile(p)], [fs_open d p flags] and [fs_execve d p] say
    whether [os.open] and [os.execve] succeed, and [fs_chdir d p] is the
    new current directory after [os.chdir(p)] or, on the right, the text of
    the [OSError] it raises; all of them for a path the system call is
    made with.  [fs_encode_error p] is the text of the
    [UnicodeEncodeError], a [ValueError], that encoding [p] for the file
    system raises, [None] when the encoding has every character of
    [p]. *)
Record filesystem := FileSystem {
  fs_access_x : pystr -> pystr -> bool;
  fs_isfile : pystr -> pystr -> bool;
  fs_open : pystr -> pystr -> Z -> bool;
  fs_execve : pystr -> pystr -> bool;
  fs_chdir : pystr -> pystr -> pystr + pystr;
  fs_encode_error : pystr -> option pystr
}.

(** A child after [os.fork]: how the code it runs ended, the descriptors
    it held and what it had printed on standard error by then.  An
    exception that leaves the code of the child goes up through
    [run_pipeline] and [main] in the child; their handlers catch none of
    those that arise there, so the child dies of it, with a traceback that
    is no part of [ch_stderr]. *)
Record child := Child {
  ch_pid : Z;
  ch_end : result unit;
  ch_fds : gmap Z fdesc;
  ch_stderr : list pystr
}.

(** What a call of [sys.stdin.readline()] meets: the next line of the
    input, or an exception raised in the call, as [KeyboardInterrupt] is
    when the user interrupts the shell while it waits for a line. *)
Inductive input :=
| Line (s : pystr)
| Raises (e : exn).

(** The state of the process that runs the program, with the part of the
    kernel it meets.  [fs], [isatty], [fd_limit], [proc_limit],
    [wait_status] and [fork_pid] are given from outside and never change:
    the limits are those past which [os.pipe] and [os.fork] fail,
    [wait_status pid] is what [os.waitpid(pid, 0)] will give, [None] when
    it raises, and [fork_pid k] is the pid the kernel gives to the child
    made when the process has had [k] children, whatever it is. *)
Record OS := mkOS {
  fs : filesystem;
  isatty : bool;
  fd_limit : Z;
  proc_limit : nat;
  wait_status : Z -> option Z;
  environ : gmap pystr pystr;
  cwd : pystr;
  fds : gmap Z fdesc;
  next_pipe : nat;
  fork_pid : nat -> positive;
  children : list child;
  reaped : list Z;
  stdin : list input;
  stdout : list pystr;
  stderr : list pystr
}.

Definition set_cwd (d : pystr) (os : OS) : OS :=
  mkOS (fs os) (isatty os) (fd_limit os) (proc_limit os) (wait_status os)
    (environ os) d (fds os) (next_pipe os) (fork_pid os) (children os)
    (reaped os) (stdin os) (stdout os) (stderr os).

Definition set_fds (t : gmap Z fdesc) (os : OS) : OS :=
  mkOS (fs os) (isatty os) (fd_limit os) (proc_limit os) (wait_status os)
    (environ os) (cwd os) t (next_pipe os) (fork_pid os) (children os)
    (reaped os) (stdin os) (stdout os) (stderr os).

Definition set_next_pipe (k : nat) (os : OS) : OS :=
  mkOS (fs os) (isatty os) (fd_limit os) (proc_limit os) (wait_status os)
    (environ os) (cwd os) (fds os) k (fork_pid os) (children os)
    (reaped os) (stdin os) (stdout os) (stderr os).

Definition add_child (c : child) (os : OS) : OS :=
  mkOS (fs os) (isatty os) (fd_limit os) (proc_limit os) (wait_status os)
    (environ os) (cwd os) (fds os) (next_pipe os) (fork_pid os)
    (children os ++ [c]) (reaped os) (stdin os) (stdout os) (stderr os).

Definition add_reaped (pid : Z) (os : OS) : OS :=
  mkOS (fs os) (isatty os) (fd_limit os) (proc_limit os) (wait_status os)
    (environ os) (cwd os) (fds os) (next_pipe os) (fork_pid os)
    (children os) (reaped os ++ [pid]) (stdin os) (stdout os) (stderr os).

Definition set_stdin (l : list input) (os : OS) : OS :=
  mkOS (fs os) (isatty os) (fd_limit os) (proc_limit os) (wait_status os)
    (environ os) (cwd os) (fds os) (next_pipe os) (fork_pid os)
    (children os) (reaped os) l (stdout os) (stderr os).

Definition add_stdout (s : pystr) (os : OS) : OS :=
  mkOS (fs os) (isatty os) (fd_limit os) (proc_limit os) (wait_status os)
    (environ os) (cwd os) (fds os) (next_pipe os) (fork_pid os)
    (children os) (reaped os) (stdin os) (stdout os ++ [s]) (stderr os).

Definition add_stderr (s : pystr) (os : OS) : OS :=
  mkOS (fs os) (isatty os) (fd_limit os) (proc_limit os) (wait_status os)
    (environ os) (cwd os) (fds os) (next_pipe os) (fork_pid os)
    (children os) (reaped os) (stdin os) (stdout os) (stderr os ++ [s]).

(** The pid [os.fork] gives next. *)
Definition next_pid (os : OS) : Z :=
  Z.pos (fork_pid os (length (children os))).

(** The state of a fresh child: the parent's, with no children of its
    own. *)
Definition forked (os : OS) : OS :=
  mkOS (fs os) (isatty os) (fd_limit os) (proc_limit os) (wait_status os)
    (environ os) (cwd os) (fds os) (next_pipe os) (fork_pid os) []
    [] (stdin os) [] [].

(** *** The monad of the program's code *)

Definition M (A : Type) : Type := OS -> result A * OS.

Definition ret {A} (a : A) : M A := fun os => (Ret a, os).

Definition bind {A B} (m : M A) (k : A -> M B) : M B :=
  fun os =>
    match m os with
    | (Ret a, os') => k a os'
    | (Raise e, os') => (Raise e, os')
    | (Exited c, os') => (Exited c, os')
    | (Execed p v, os') => (Execed p v, os')
    end.

Definition raise {A} (e : exn) : M A := fun os => (Raise e, os).

(** [try: m  except <those of catches> as e: h e]. *)
Definition try_catch {A} (catches : exn -> bool) (m : M A) (h : exn -> M A)
  : M A :=
  fun os =>
    match m os with
    | (Raise e, os') => if catches e then h e os' else (Raise e, os')
    | r => r
    end.

(** [try: m  except Exception: h]. *)
Definition try_except {A} (m : M A) (h : M A) : M A :=
  try_catch is_Exception m (fun _ => h).

Declare Scope M_scope.
Delimit Scope M_scope with M.
Notation "'let*' x ':=' m 'in' k" := (bind m (fun x => k))
  (at level 10, x name, m at level 100, k at level 200) : M_scope.
Notation "m ;; k" := (bind m (fun _ => k))
  (at level 100, k at level 200, right associativity) : M_scope.
Local Open Scope M_scope.

(** [for x in l: body x]. *)
Fixpoint for_each {A} (l : list A) (body : A -> M unit) : M unit :=
  match l with
  | [] => ret tt
  | x :: l' => body x ;; for_each l' body
  end.

(** [for x in l: acc = body(x, acc)], for a loop that updates local
    variables. *)
Fixpoint for_acc {A S} (l : list A) (acc : S) (body : A -> S -> M S) : M S :=
  match l with
  | [] => ret acc
  | x :: l' => let* acc' := body x acc in for_acc l' acc' body
  end.

(** *** System calls *)

Module Errno.
Definition EBADF : pystr := py "[Errno 9] Bad file descriptor".
Definition EAGAIN : pystr := py "[Errno 11] Resource temporarily unavailable".
Definition EMFILE : pystr := py "[Errno 24] Too many open files".
Definition ENOENT : pystr := py "[Errno 2] No such file or directory".
Definition ECHILD : pystr := py "[Errno 10] No child processes".
End Errno.

(** Linux values of the [os] constants. *)
Definition O_RDONLY : Z := 0.
Definition O_WRONLY : Z := 1.
Definition O_CREAT : Z := 64.
Definition O_TRUNC : Z := 512.
Definition O_APPEND : Z := 1024.

(** [os.WIFEXITED] and [os.WEXITSTATUS] on a wait status. *)
Definition WIFEXITED (status : Z) : bool := (Z.land status 127 =? 0)%Z.
Definition WEXITSTATUS (status : Z) : Z := Z.land (Z.shiftr status 8) 255.
(** Termination by a signal: the low seven bits hold its number. *)
Definition WIFSIGNALED (status : Z) : bool :=
  (0 <? Z.land status 127)%Z && negb (Z.land status 127 =? 127)%Z.

(** A string with a NUL character in it. *)
Definition embedded_null (p : pystr) : bool := bool_decide (0%N ∈ p).

Definition null_error : exn := ValueError (py "embedded null byte").

(** What [os.access], [os.open], [os.chdir] and [os.execve] raise for
    the string [p] as a path or an argument, before any system call is
    made: the string is encoded first, and the result may hold no NUL
    character. *)
Definition path_error (os : OS) (p : pystr) : option exn :=
  match fs_encode_error (fs os) p with
  | Some msg => Some (ValueError msg)
  | None => if embedded_null p then Some null_error else None
  end.

Definition path_ok (os : OS) (p : pystr) : bool :=
  match path_error os p with
  | Some _ => false
  | None => true
  end.

(** The same for the arguments of [os.execve], which are turned into
    byte strings one after the other. *)
Fixpoint args_error (os : OS) (argv : list pystr) : option exn :=
  match argv with
  | [] => None
  | a :: argv' =>
      match path_error os a with
      | Some e => Some e
      | None => args_error os argv'
      end
  end.

(** The lowest descriptor that is not open. *)
Definition fresh_fd (t : gmap Z fdesc) : Z :=
  default (Z.of_nat (size t))
    (List.find (fun n => bool_decide (t !! n = None))
       (seqZ 0 (Z.of_nat (S (size t))))).

Definition os_pipe : M (Z * Z) := fun os =>
  let r := fresh_fd (fds os) in
  let t := <[r := PipeRead (next_pipe os)]> (fds os) in
  let w := fresh_fd t in
  if (r <? fd_limit os)%Z && (w <? fd_limit os)%Z then
    (Ret (r, w),
     set_next_pipe (S (next_pipe os))
       (set_fds (<[w := PipeWrite (next_pipe os)]> t) os))
  else (Raise (OSError Errno.EMFILE), os).

Definition os_open (path : pystr) (flags mode : Z) : M Z := fun os =>
  let fd := fresh_fd (fds os) in
  match path_error os path with
  | Some e => (Raise e, os)
  | None =>
      if negb (fs_open (fs os) (cwd os) path flags) then
        (Raise (OSError Errno.ENOENT), os)
      else if (fd <? fd_limit os)%Z then
        (Ret fd, set_fds (<[fd := File path flags]> (fds os)) os)
      else (Raise (OSError Errno.EMFILE), os)
  end.

Definition os_dup2 (fd fd2 : Z) : M unit := fun os =>
  match fds os !! fd with
  | Some d => (Ret tt, set_fds (<[fd2 := d]> (fds os)) os)
  | None => (Raise (OSError Errno.EBADF), os)
  end.

Definition os_close (fd : Z) : M unit := fun os =>
  match fds os !! fd with
  | Some _ => (Ret tt, set_fds (delete fd (fds os)) os)
  | None => (Raise (OSError Errno.EBADF), os)
  end.

(** [os.fork()], seen from the parent: the child runs [body] (the branch
    [pid == 0]) on a copy of the state, and the parent goes on with the
    child's pid, which is positive and otherwise for the kernel to choose.
    What the child does after a successful [os.execve] is the program's
    business and not modelled. *)
Definition os_fork (body : M unit) : M Z := fun os =>
  if length (children os) <? proc_limit os then
    let '(r, os_c) := body (forked os) in
    (Ret (next_pid os),
     add_child (Child (next_pid os) r (fds os_c) (stderr os_c)) os)
  else (Raise (OSError Errno.EAGAIN), os).

Definition os_waitpid (pid : Z) : M Z := fun os =>
  match wait_status os pid with
  | Some status => (Ret status, add_reaped pid os)
  | None => (Raise (OSError Errno.ECHILD), os)
  end.

Definition os_exit {A} (code : Z) : M A := fun os => (Exited code, os).

(** [os.execve(path, argv, os.environ)]: the path and the arguments are
    checked, in this order, before the system call is made. *)
Definition os_execve (path : pystr) (argv : list pystr) : M unit := fun os =>
  match path_error os path with
  | Some e => (Raise e, os)
  | None =>
      match argv with
      | [] => (Raise (ValueError (py "execve: argv must not be empty")), os)
      | a0 :: _ =>
          match args_error os argv with
          | Some e => (Raise e, os)
          | None =>
              if bool_decide (a0 = []) then
                (Raise (ValueError
                          (py "execve: argv first element cannot be empty")),
                 os)
              else if fs_execve (fs os) (cwd os) path then
                (Execed path argv, os)
              else (Raise (OSError Errno.ENOENT), os)
          end
      end
  end.

Definition os_chdir (target : pystr) : M unit := fun os =>
  match path_error os target with
  | Some e => (Raise e, os)
  | None =>
      match fs_chdir (fs os) (cwd os) target with
      | inl d => (Ret tt, set_cwd d os)
      | inr msg => (Raise (OSError msg), os)
      end
  end.

(** [os.access(p, os.X_OK)]. *)
Definition os_access_x (p : pystr) : M bool := fun os =>
  match path_error os p with
  | Some e => (Raise e, os)
  | None => (Ret (fs_access_x (fs os) (cwd os) p), os)
  end.

(** [os.path.isfile(p)], which answers [False] where [os.stat] raises. *)
Definition os_path_isfile (p : pystr) : M bool := fun os =>
  (Ret (path_ok os p && fs_isfile (fs os) (cwd os) p), os).

(** [print(s, file=sys.stderr)]. *)
Definition print_err (s : pystr) : M unit := fun os =>
  (Ret tt, add_stderr (s ++ [Chr.newline]) os).

(** [sys.stdout.write(s)]. *)
Definition write_out (s : pystr) : M unit := fun os =>
  (Ret tt, add_stdout s os).

(** [sys.stdin.readline()]: the next line with its newline, the empty
    string at the end of the input, or the exception the call meets. *)
Definition readline : M pystr := fun os =>
  match stdin os with
  | Line l :: rest => (Ret l, set_stdin rest os)
  | Raises e :: rest => (Raise e, set_stdin rest os)
  | [] => (Ret [], os)
  end.

Definition sys_exit {A} (code : Z) : M A := raise (SystemExit code).

(** [os.environ.get(name, dflt)]. *)
Definition environ_get (os : OS) (name dflt : pystr) : pystr :=
  default dflt (environ os !! name).

(** ** Library functions on strings and paths *)

(** [s.split(sep)] for a one-character separator: every separator ends
    a field, so the empty string gives one empty field. *)
Fixpoint str_split (sep : N) (s cur : pystr) : list pystr :=
  match s with
  | c :: s' =>
      if (c =? sep)%N then cur :: str_split sep s' []
      else str_split sep s' (cur ++ [c])
  | [] => [cur]
  end.

(** [s.endswith(c)] for a one-character [c]. *)
Definition endswith (s : pystr) (c : N) : bool :=
  match last s with
  | Some d => (d =? c)%N
  | None => false
  end.

(** [s.startswith(c)] for a one-character [c]. *)
Definition startswith (s : pystr) (c : N) : bool :=
  match s with
  | d :: _ => (d =? c)%N
  | [] => false
  end.

(** [os.path.join(a, b)] of [posixpath]. *)
Definition path_join (a b : pystr) : pystr :=
  if startswith b Chr.slash then b
  else if bool_decide (a = []) || endswith a Chr.slash then a ++ b
  else a ++ Chr.slash :: b.

(** [s.strip()]. *)
Fixpoint lstrip (s : pystr) : pystr :=
  match s with
  | c :: s' => if is_space c then lstrip s' else s
  | [] => []
  end.
Definition rstrip (s : pystr) : pystr := reverse (lstrip (reverse s)).
Definition strip (s : pystr) : pystr := rstrip (lstrip s).

(** [str(n)] for an [int]. *)
Definition str_of_int (n : Z) : pystr :=
  py (DecimalString.NilZero.string_of_int (Z.to_int n)).

(** ** Small functions of the shell *)

Definition get_prompt (os : OS) : pystr :=
  match environ os !! py "PS1" with
  | None => py "$ "
  | Some ps1 => ps1
  end.

(** [os.access(p, os.X_OK) and os.path.isfile(p)]: the second call is
    made only when the first gives [True]. *)
Definition executable_file (p : pystr) : M bool :=
  let* x := os_access_x p in
  if x then os_path_isfile p else ret false.

(** The [for d in path.split(os.pathsep)] loop of [find_executable]. *)
Fixpoint search_path (dirs : list pystr) (cmd : pystr) : M (option pystr) :=
  match dirs with
  | d :: dirs' =>
      let full := path_join d cmd in
      let* found := executable_file full in
      if found then ret (Some full) else search_path dirs' cmd
  | [] => ret None
  end.

Definition find_executable (cmd : pystr) : M (option pystr) := fun os =>
  if bool_decide (Chr.slash ∈ cmd) then
    (let* found := executable_file cmd in
     if found then ret (Some cmd) else ret None) os
  else
    let path := environ_get os (py "PATH") [] in
    search_path (str_split Chr.colon path []) cmd os.

(** ** The executor: [run_pipeline] *)

(** Truth value of [cmd['in']] and [cmd['out']]: [None] and the empty
    string are false. *)
Definition truthy (p : option pystr) : option pystr :=
  match p with
  | Some ((_ :: _) as s) => Some s
  | _ => None
  end.

(** The two [try: os.close(fd) except Exception: pass] of a pipe. *)
Definition close_pipe (p : Z * Z) : M unit :=
  try_except (os_close (fst p)) (ret tt) ;;
  try_except (os_close (snd p)) (ret tt).

Definition not_found (name : pystr) : pystr :=
  name ++ py ": command not found".

(** The branch [pid == 0]: what the child of stage [i] of [n] runs. *)
Definition child_body (i n : nat) (cmd : command) (pipes : list (Z * Z))
  : M unit :=
  (* stdin *)
  match (if i =? 0 then truthy (infile cmd) else None) with
  | Some path =>
      try_except
        (let* fdin := os_open path O_RDONLY 511 in
         os_dup2 fdin 0 ;;
         os_close fdin)
        (print_err (not_found path) ;; os_exit 1)
  | None => ret tt
  end ;;
  (if 0 <? i then
     match pipes !! (i - 1) with
     | Some (r, _) => os_dup2 r 0
     | None => raise IndexError
     end
   else ret tt) ;;
  (* stdout *)
  match (if i =? n - 1 then truthy (outfile cmd) else None) with
  | Some path =>
      try_except
        (let flags := Z.lor O_WRONLY O_CREAT in
         let flags :=
           if append cmd then Z.lor flags O_APPEND else Z.lor flags O_TRUNC in
         let* fdout := os_open path flags 438 in
         os_dup2 fdout 1 ;;
         os_close fdout)
        (print_err (not_found path) ;; os_exit 1)
  | None => ret tt
  end ;;
  (if i <? n - 1 then
     match pipes !! i with
     | Some (_, w) => os_dup2 w 1
     | None => raise IndexError
     end
   else ret tt) ;;
  (* close all pipe fds in child *)
  for_each pipes close_pipe ;;
  (* execute *)
  match args cmd with
  | [] => raise IndexError
  | prog :: _ =>
      let* full := find_executable prog in
      match full with
      | None => print_err (not_found prog) ;; os_exit 1
      | Some full =>
          try_except (os_execve full (args cmd))
            (print_err (not_found prog) ;; os_exit 1)
      end
  end.

(** The three loops of the parent. *)
Definition make_pipes (count : nat) : M (list (Z * Z)) :=
  for_acc (seq 0 count) [] (fun _ pipes =>
    let* p := os_pipe in ret (pipes ++ [p])).

Definition spawn_all (cmds : list command) (pipes : list (Z * Z))
  : M (list Z) :=
  for_acc (imap (fun i cmd => (i, cmd)) cmds) [] (fun ic pids =>
    let* pid := os_fork (child_body (fst ic) (length cmds) (snd ic) pipes) in
    ret (pids ++ [pid])).

Definition wait_all_from (pids : list Z) (exit_codes : list Z) : M (list Z) :=
  for_acc pids exit_codes (fun pid exit_codes =>
    try_except
      (let* status := os_waitpid pid in
       if WIFEXITED status then ret (exit_codes ++ [WEXITSTATUS status])
       else ret (exit_codes ++ [1%Z]))
      (ret (exit_codes ++ [1%Z]))).

Definition wait_all (pids : list Z) : M (list Z) := wait_all_from pids [].

Definition run_pipeline (cmds : list command) (background : bool) : M Z :=
  let n := length cmds in
  if n =? 0 then ret 0%Z
  else
    let* pipes := make_pipes (n - 1) in
    let* pids := spawn_all cmds pipes in
    (* parent: close pipe fds *)
    for_each pipes close_pipe ;;
    if background then ret 0%Z
    else
      let* exit_codes := wait_all pids in
      (* return last exit code *)
      ret (List.last exit_codes 0%Z).

(** ** The driver: [main] *)

(** What a round of [while True] asks for. *)
Inductive ctl := Continue | Break.

(** [str(e)] for an exception. *)
Definition exn_str (e : exn) : pystr :=
  match e with
  | OSError msg | ValueError msg => msg
  | IndexError => py "list index out of range"
  | EOFError | KeyboardInterrupt => []
  | SystemExit code => str_of_int code
  end.

(** [args[1] if len(args) > 1 else os.environ.get('HOME', '/')]. *)
Definition cd_target (os : OS) (cmd_args : list pystr) : pystr :=
  match cmd_args with
  | _ :: a1 :: _ => a1
  | _ => environ_get os (py "HOME") (py "/")
  end.

(** The [cd] builtin: [os.chdir] in its [try]. *)
Definition builtin_cd (cmd_args : list pystr) : M unit := fun os =>
  try_catch is_Exception (os_chdir (cd_target os cmd_args))
    (fun e => print_err (exn_str e)) os.

(** The round from [cmds = parse_pipeline(line)] on. *)
Definition dispatch (cmds : list command) (background : bool) : M ctl :=
  let execute :=
    let* status := run_pipeline cmds background in
    (if negb (status =? 0)%Z then
       print_err (py "Program terminated with exit code "
                  ++ str_of_int status ++ py ".")
     else ret tt) ;;
    ret Continue in
  match cmds with
  | [] => ret Continue
  | [c] =>
      match args c with
      | [] => raise IndexError
      | a0 :: _ =>
          if pystr_eqb a0 (py "exit") then sys_exit 0
          else if pystr_eqb a0 (py "cd") then
            builtin_cd (args c) ;; ret Continue
          else execute
      end
  | _ => execute
  end.

(** The round from [line = line.strip()] on, for a line that was read. *)
Definition handle_line (line : pystr) : M ctl :=
  let line := strip line in
  match line with
  | [] => ret Continue
  | _ :: _ =>
      (* background if ends with & *)
      let background := endswith line Chr.amp in
      let line := if background then strip (removelast line) else line in
      dispatch (parse_pipeline line) background
  end.

(** The two handlers of the [try] of a round. *)
Definition round_handlers (m : M ctl) : M ctl :=
  try_catch
    (fun e => match e with KeyboardInterrupt | EOFError => true | _ => false end)
    m
    (fun e =>
       match e with
       | KeyboardInterrupt => write_out [Chr.newline] ;; ret Continue
       | _ => ret Break
       end).

(** One round of [while True]. *)
Definition main_round (prompt : pystr) (interactive : bool) : M ctl :=
  round_handlers
    ((if interactive && negb (bool_decide (prompt = [])) then write_out prompt
      else ret tt) ;;
     let* line := readline in
     match line with
     | [] => ret Break
     | _ :: _ => handle_line line
     end).

(** The loop: every round but the last takes a line or an exception off
    the input, so one round more than the input is long is enough
    ([main_loop_fuel]). *)
Fixpoint main_loop (fuel : nat) (prompt : pystr) (interactive : bool)
  : M unit :=
  match fuel with
  | O => ret tt
  | S fuel' =>
      let* c := main_round prompt interactive in
      match c with
      | Continue => main_loop fuel' prompt interactive
      | Break => ret tt
      end
  end.

Definition main : M unit := fun os =>
  main_loop (S (length (stdin os))) (get_prompt os) (isatty os) os.

(** ** Vocabulary of the statements *)

(** A text between double quotes, and between single quotes. *)
Definition dq (s : pystr) : pystr := Chr.dquote :: s ++ [Chr.dquote].
Definition sq (s : pystr) : pystr := Chr.squote :: s ++ [Chr.squote].

(** The lexer has gone from [s] to [r] by successive matches, which gave
    the tokens [toks]. *)
Inductive lex_run : pystr -> list pystr -> pystr -> Prop :=
| lex_run_here s : lex_run s [] s
| lex_run_match s m toks r :
    token_re_match s = Some m ->
    lex_run (m_rest m) toks r ->
    lex_run s (token_of m :: toks) r.

Definition is_quote (q : N) : Prop := q = Chr.dquote \/ q = Chr.squote.

(** The redirection operators and the field of the scan each one sets. *)
Definition is_redir (tok : pystr) : bool :=
  pystr_eqb tok (py ">") || pystr_eqb tok (py ">>") || pystr_eqb tok (py "<").

Definition scan_target (op : pystr) (st : scan) : option pystr :=
  if pystr_eqb op (py "<") then s_infile st else s_outfile st.

Definition command_target (op : pystr) (c : command) : option pystr :=
  if pystr_eqb op (py "<") then infile c else outfile c.

(** The code recorded for a stage whose [os.waitpid] gave [w]. *)
Definition stage_code (w : option Z) : Z :=
  match w with
  | Some status => if WIFEXITED status then WEXITSTATUS status else 1%Z
  | None => 1%Z
  end.

(** The background flag and the text handed to the parser, for a line as
    it was read. *)
Definition background_of (line : pystr) : bool :=
  endswith (strip line) Chr.amp.

Definition command_text (line : pystr) : pystr :=
  if background_of line then strip (removelast (strip line)) else strip line.

(** A round from the point where [line] has been read. *)
Definition main_round_from (line : pystr) : M ctl :=
  round_handlers (handle_line line).

(** The state after [cd]: in the new directory, or with the text of the
    error on standard error. *)
Definition cd_outcome (os : OS) (cmd_args : list pystr) : OS :=
  match path_error os (cd_target os cmd_args) with
  | Some e => add_stderr (exn_str e ++ [Chr.newline]) os
  | None =>
      match fs_chdir (fs os) (cwd os) (cd_target os cmd_args) with
      | inl d => set_cwd d os
      | inr msg => add_stderr (msg ++ [Chr.newline]) os
      end
  end.

(** The file system has an executable regular file at [p], which
    [os.access] and [os.path.isfile] can be asked about. *)
Definition runnable (os : OS) (p : pystr) : bool :=
  path_ok os p
  && fs_access_x (fs os) (cwd os) p && fs_isfile (fs os) (cwd os) p.

(** The paths [find_executable] tries for a name without a slash: every
    entry of [PATH] joined with the name. *)
Definition candidates (os : OS) (cmd : pystr) : list pystr :=
  (fun d => path_join d cmd)
    <$> str_split Chr.colon (environ_get os (py "PATH") []) [].

(** How a search through the paths [ps] ends: at the first of them that
    [os.access] cannot be asked about, with its [ValueError], or that is an
    executable regular file, with that path; with [None] when there is no
    such path. *)
Definition search_outcome (os : OS) (ps : list pystr)
  : result (option pystr) :=
  match List.find (fun p => negb (path_ok os p) || runnable os p) ps with
  | Some p =>
      match path_error os p with
      | Some e => Raise e
      | None => Ret (Some p)
      end
  | None => Ret None
  end.

(** How the search for the name [cmd] ends: the name alone is tried when
    it has a slash. *)
Definition resolve (os : OS) (cmd : pystr) : result (option pystr) :=
  search_outcome os
    (if bool_decide (Chr.slash ∈ cmd) then [cmd] else candidates os cmd).

(** [os.execve] takes the path and the arguments as far as the system
    call: each of them can be handed over, and the first argument is not
    empty. *)
Definition execve_accepts (os : OS) (path : pystr) (argv : list pystr)
  : bool :=
  path_ok os path
  && match argv with
     | [] => false
     | a0 :: _ => forallb (path_ok os) argv && negb (bool_decide (a0 = []))
     end.

(** [os.open(p, flags)] can open the file. *)
Definition opens (os : OS) (p : pystr) (flags : Z) : bool :=
  path_ok os p && fs_open (fs os) (cwd os) p flags.

(** The pids [os.fork] gives to the next [n] children. *)
Definition stage_pids (os : OS) (n : nat) : list Z :=
  (fun k => Z.pos (fork_pid os (length (children os) + k))) <$> seq 0 n.

(** What the loops of the parent leave alone while they handle
    descriptors. *)
Definition fds_only (os os' : OS) : Prop :=
  fd_limit os' = fd_limit os /\ proc_limit os' = proc_limit os
  /\ wait_status os' = wait_status os /\ children os' = children os
  /\ fork_pid os' = fork_pid os.

(** Code that reads nothing from standard input. *)
Definition keeps_stdin {A} (m : M A) : Prop :=
  forall (os os' : OS) (r : result A), m os = (r, os') -> stdin os' = stdin os.

(** ** Sample worlds *)

(** A file system whose only executable regular files are [ls], in the
    current directory, and [/bin/sleep], and whose encoding has every
    character. *)
Definition sample_fs : filesystem :=
  FileSystem
    (fun _ p => pystr_eqb p (py "ls") || pystr_eqb p (py "/bin/sleep"))
    (fun _ p => pystr_eqb p (py "ls") || pystr_eqb p (py "/bin/sleep"))
    (fun _ _ _ => true)
    (fun _ _ => true)
    (fun _ p => inl p)
    (fun _ => None).

Definition std_fds : gmap Z fdesc :=
  <[0%Z := Inherited 0]> (<[1%Z := Inherited 1]> (<[2%Z := Inherited 2]> ∅)).

(** A shell with the three standard descriptors and no child yet, whose
    children will get the pids 100, 107, 114 and so on. *)
Definition sample_os (env : gmap pystr pystr) (ws : Z -> option Z) : OS :=
  mkOS sample_fs false 1024 64 ws env (py "/home") std_fds 0
    (fun k => Pos.of_nat (100 + 7 * k)) [] [] [] [] [].

Definition sample_env : gmap pystr pystr := <[py "PATH" := py "/usr/bin:/bin"]> ∅.

(** The one-stage pipeline of the line [sleep 5]. *)
Definition sample_pipeline : list command :=
  [Command [py "sleep"; py "5"] None None false].

(** A world in which every child is killed by signal 9, and one in which
    every wait fails. *)
Definition killed_os : OS := sample_os sample_env (fun _ => Some 9%Z).
Definition unwaited_os : OS := sample_os sample_env (fun _ => None).

(** ** Vocabulary of the further properties *)

(** A character the second alternative of [token_re] takes. *)
Definition is_bare_char (c : N) : bool :=
  negb (is_space c || (c =? Chr.dquote)%N || (c =? Chr.squote)%N).

(** What may follow a bare word: the end of the input, white space or a
    quote. *)
Definition ends_word (rest : pystr) : Prop :=
  match rest with
  | [] => True
  | c :: _ => is_bare_char c = false
  end.

(** The text to write between quotes [q] for the word [s]: a backslash
    before every [q]. *)
Fixpoint escape_quote (q : N) (s : pystr) : pystr :=
  match s with
  | [] => []
  | c :: s' =>
      if (c =? q)%N then Chr.backslash :: q :: escape_quote q s'
      else c :: escape_quote q s'
  end.

(** The segments of a pipeline written out again, with a bar between
    them. *)
Fixpoint join_segments (segments : list (list pystr)) : list pystr :=
  match segments with
  | [] => []
  | seg :: rest =>
      match rest with
      | [] => seg
      | _ :: _ => seg ++ py "|" :: join_segments rest
      end
  end.

(** A token that is none of the four operators. *)
Definition is_word (tok : pystr) : Prop :=
  is_redir tok = false /\ tok <> py "|".

(** What the scan keeps true of its variables. *)
Definition scan_inv (seg : list pystr) (st : scan) : Prop :=
  s_args st `sublist_of` take (s_i st) seg
  /\ Forall (fun a => is_redir a = false) (s_args st)
  /\ (forall t, s_infile st = Some t -> t ∈ seg)
  /\ (forall t, s_outfile st = Some t -> t ∈ seg).

(** [sep.join(fields)] for a one-character separator. *)
Fixpoint str_join (sep : N) (fields : list pystr) : pystr :=
  match fields with
  | [] => []
  | f :: rest =>
      match rest with
      | [] => f
      | _ :: _ => f ++ sep :: str_join sep rest
      end
  end.

(** The entries of [PATH] as [find_executable] goes through them. *)
Definition path_entries (os : OS) : list pystr :=
  str_split Chr.colon (environ_get os (py "PATH") []) [].

(** What [run_pipeline] leaves alone in the shell itself: its streams,
    its directory and its environment, and the world around it. *)
Definition shell_frame (os os' : OS) : Prop :=
  stdin os' = stdin os /\ stdout os' = stdout os /\ stderr os' = stderr os
  /\ cwd os' = cwd os /\ environ os' = environ os /\ fs os' = fs os
  /\ isatty os' = isatty os /\ wait_status os' = wait_status os
  /\ fd_limit os' = fd_limit os /\ proc_limit os' = proc_limit os.

(** Code all of whose runs keep a relation between the state before and
    the state after. *)
Definition preserves {A} (R : OS -> OS -> Prop) (m : M A) : Prop :=
  forall (os os' : OS) (r : result A), m os = (r, os') -> R os os'.

(** Code every value returned by which has a property. *)
Definition returns {A} (P : A -> Prop) (m : M A) : Prop :=
  forall (os os' : OS) (v : A), m os = (Ret v, os') -> P v.

(** The descriptors of a list of pipes, in the order they were made. *)
Fixpoint pipe_fds (pipes : list (Z * Z)) : list Z :=
  match pipes with
  | [] => []
  | p :: pipes' => fst p :: snd p :: pipe_fds pipes'
  end.

(** The descriptor table [t] is [base] with the pipes open: their
    descriptors are new and distinct, pipe [j] of the list is the pipe
    numbered [k0 + j], and the rest of the table is that of [base]. *)
Definition pipes_at (base : gmap Z fdesc) (k0 : nat) (pipes : list (Z * Z))
    (t : gmap Z fdesc) : Prop :=
  (forall fd, fd ∈ pipe_fds pipes -> base !! fd = None)
  /\ (forall x, x ∉ pipe_fds pipes -> t !! x = base !! x)
  /\ (forall j p, pipes !! j = Some p ->
        t !! fst p = Some (PipeRead (k0 + j))
        /\ t !! snd p = Some (PipeWrite (k0 + j)))
  /\ NoDup (pipe_fds pipes).

(** The children, the reaped pids and the pids to come are the same. *)
Definition process_frame (os os' : OS) : Prop :=
  children os' = children os /\ reaped os' = reaped os
  /\ fork_pid os' = fork_pid os.

(** The record [os.fork] makes of the child that runs [body] from the
    parent's state [os]. *)
Definition child_of (body : M unit) (os : OS) : child :=
  Child (next_pid os) (fst (body (forked os))) (fds (snd (body (forked os))))
    (stderr (snd (body (forked os)))).

(** The descriptor table of stage [i] of [n] once its pipes are in place:
    descriptor 0 reads the pipe before the stage and descriptor 1 writes
    the pipe after it, where there is one. *)
Definition wired (base : gmap Z fdesc) (k0 i n : nat) : gmap Z fdesc :=
  let t := if 0 <? i then <[0%Z := PipeRead (k0 + (i - 1))]> base else base in
  if i <? n - 1 then <[1%Z := PipeWrite (k0 + i)]> t else t.

(** How the last step of a child ends, and what it prints on standard
    error: the program found for [args[0]] is run with the arguments; or
    the name is reported as not found and the child exits with 1, when the
    search finds nothing and when [os.execve] raises, as it does for an
    argument with a NUL character; or the child ends with the [ValueError]
    of the search, as for a name with a NUL character, which nothing
    catches. *)
Definition exec_outcome (os : OS) (cmd : command)
  : result unit * list pystr :=
  match args cmd with
  | [] => (Raise IndexError, [])
  | prog :: _ =>
      match resolve os prog with
      | Ret (Some full) =>
          if execve_accepts os full (args cmd)
             && fs_execve (fs os) (cwd os) full
          then (Execed full (args cmd), [])
          else (Exited 1, [not_found prog ++ [Chr.newline]])
      | Ret None => (Exited 1, [not_found prog ++ [Chr.newline]])
      | Raise e => (Raise e, [])
      | Exited code => (Exited code, [])
      | Execed path argv => (Execed path argv, [])
      end
  end.



(** The flags the output file is opened with. *)
Definition out_flags (cmd : command) : Z :=
  if append cmd then Z.lor (Z.lor O_WRONLY O_CREAT) O_APPEND
  else Z.lor (Z.lor O_WRONLY O_CREAT) O_TRUNC.

(** What the child of a single command comes to: how it ends, its
    descriptor table then, and what it has printed on standard error.  The
    input file is opened first, then the output file; the first that
    cannot be opened, a path that [os.open] does not take included, ends
    the child. *)
Definition single_stage_outcome (os : OS) (cmd : command)
  : result unit * gmap Z fdesc * list pystr :=
  let after_stdin (t : gmap Z fdesc) :=
    match truthy (outfile cmd) with
    | Some p =>
        if opens os p (out_flags cmd) then
          (fst (exec_outcome os cmd),
           <[1%Z := File p (out_flags cmd)]> t,
           snd (exec_outcome os cmd))
        else (Exited 1, t, [not_found p ++ [Chr.newline]])
    | None => (fst (exec_outcome os cmd), t, snd (exec_outcome os cmd))
    end in
  match truthy (infile cmd) with
  | Some p =>
      if opens os p O_RDONLY then
        after_stdin (<[0%Z := File p O_RDONLY]> (fds os))
      else (Exited 1, fds os, [not_found p ++ [Chr.newline]])
  | None => after_stdin (fds os)
  end.

(** A parsed line that the driver hands to [run_pipeline]: several
    commands, or one whose first word is not a builtin. *)
Definition goes_to_executor (cmds : list command) : Prop :=
  match cmds with
  | [] => False
  | [c] =>
      exists a0 rest, args c = a0 :: rest /\ a0 <> py "exit" /\ a0 <> py "cd"
  | _ :: _ :: _ => True
  end.

(** The line the driver prints after a pipeline that returned [status]. *)
Definition status_report (status : Z) : list pystr :=
  if (status =? 0)%Z then []
  else [py "Program terminated with exit code " ++ str_of_int status
        ++ py "." ++ [Chr.newline]].

(** A line of the input that holds white space only. *)
Definition blank_line (l : pystr) : Prop :=
  l <> [] /\ Forall (fun c => is_space c = true) l.

(** A line that parses to the single command [exit]. *)
Definition exit_line (l : pystr) : Prop :=
  exists c rest,
    parse_pipeline (command_text l) = [c] /\ args c = py "exit" :: rest.

(** The state after the prompt of a round. *)
Definition prompt_state (prompt : pystr) (interactive : bool) (os : OS) : OS :=
  if interactive && negb (bool_decide (prompt = [])) then add_stdout prompt os
  else os.

(** The prompts of [k] rounds. *)
Definition prompts (prompt : pystr) (interactive : bool) (k : nat)
  : list pystr :=
  if interactive && negb (bool_decide (prompt = [])) then replicate k prompt
  else [].

(** The state after a round in which [sys.stdin.readline()] was
    interrupted: the prompt and a newline are on standard output, and the
    input goes on with [rest]. *)
Definition interrupted (prompt : pystr) (interactive : bool)
    (rest : list input) (os : OS) : OS :=
  add_stdout [Chr.newline] (set_stdin rest (prompt_state prompt interactive os)).

(** What reading lines and prompting leave alone. *)
Definition driver_frame (os os' : OS) : Prop :=
  stderr os' = stderr os /\ cwd os' = cwd os /\ environ os' = environ os
  /\ fs os' = fs os /\ isatty os' = isatty os /\ fds os' = fds os
  /\ children os' = children os /\ reaped os' = reaped os
  /\ fork_pid os' = fork_pid os /\ next_pipe os' = next_pipe os.

(** * Properties *)

(** ** The lexer *)

Lemma is_space_spec (c : N) :
  is_space c = true <->
  ((9 <= c <= 13) \/ (28 <= c <= 32) \/ c = 133 \/ c = 160 \/ c = 5760
   \/ (8192 <= c <= 8202) \/ c = 8232 \/ c = 8233 \/ c = 8239 \/ c = 8287
   \/ c = 12288)%N.
Proof.
  unfold is_space.
  rewrite !orb_true_iff, !andb_true_iff, !N.leb_le, !N.eqb_eq. tauto.
Qed.

Lemma is_space_not_special (c : N) :
  is_space c = true ->
  (c =? Chr.gt)%N = false /\ (c =? Chr.dquote)%N = false
  /\ (c =? Chr.squote)%N = false.
Proof.
  rewrite is_space_spec, !N.eqb_neq. unfold Chr.gt, Chr.dquote, Chr.squote. lia.
Qed.

Lemma bare_run_app (s : pystr) :
  fst (bare_run s) ++ snd (bare_run s) = s.
Proof.
  induction s as [|c s IH]; simpl; [done|].
  destruct (is_space c || (c =? Chr.dquote)%N || (c =? Chr.squote)%N); [done|].
  destruct (bare_run s) as [w r]; simpl in *. by rewrite IH.
Qed.

Lemma bare_run_space (c : N) (s : pystr) :
  is_space c = true -> bare_run (c :: s) = ([], c :: s).
Proof. intros H. simpl. by rewrite H. Qed.

(** A match of the quoted body leaves less than it was given, the closing
    quote being among what it takes. *)
Lemma quoted_body_length (q : N) (n : nat) :
  forall (s : pystr) (started : bool) (b r : pystr),
    length s <= n ->
    quoted_body q started s = Some (b, r) -> length r < length s.
Proof.
  induction n as [|n IH]; intros s started b r Hn H.
  - destruct s; simpl in *; [done | lia].
  - destruct s as [|c s']; [done|].
    assert (Hclose : (if started && (c =? q)%N then Some ([], s') else None)
                     = Some (b, r) -> length r < length (c :: s')).
    { destruct (started && (c =? q)%N); [|done]. intros [= <- <-]. simpl. lia. }
    assert (Hplain :
      (if (c =? q)%N then
         (if started && (c =? q)%N then Some ([], s') else None)
       else match quoted_body q true s' with
            | Some (b0, r0) => Some (c :: b0, r0)
            | None => if started && (c =? q)%N then Some ([], s') else None
            end) = Some (b, r) -> length r < length (c :: s')).
    { destruct (c =? q)%N eqn:Hq; [exact Hclose|].
      destruct (quoted_body q true s') as [[b0 r0]|] eqn:Hb.
      - intros [= <- <-]. apply IH in Hb; simpl in *; lia.
      - exact Hclose. }
    simpl in Hn. simpl in H. destruct s' as [|d s'']; [by apply Hplain|].
    destruct ((c =? Chr.backslash)%N && negb (d =? Chr.newline)%N);
      [|by apply Hplain].
    destruct (quoted_body q true s'') as [[b0 r0]|] eqn:Hb; [|by apply Hplain].
    injection H as <- <-. apply IH in Hb; simpl in *; lia.
Qed.

Lemma token_alternatives_length (s : pystr) (m : rmatch) :
  token_alternatives s = Some m -> length (m_rest m) < length s.
Proof.
  destruct s as [|c s']; [done|]. unfold token_alternatives.
  assert (Hq : forall q g,
    match quoted_body q false s' with
    | Some (b, r) => Some (RMatch g b r)
    | None => None
    end = Some m -> length (m_rest m) < length (c :: s')).
  { intros q g. destruct (quoted_body q false s') as [[b r]|] eqn:Hb; [|done].
    intros [= <-]. simpl. eapply quoted_body_length in Hb; [lia | done]. }
  assert (Hbare :
    match bare_run (c :: s') with
    | ((_ :: _) as w, r) => Some (RMatch GBare w r)
    | ([], _) =>
        if (c =? Chr.dquote)%N then
          match quoted_body Chr.dquote false s' with
          | Some (b, r) => Some (RMatch GDouble b r)
          | None => None
          end
        else if (c =? Chr.squote)%N then
          match quoted_body Chr.squote false s' with
          | Some (b, r) => Some (RMatch GSingle b r)
          | None => None
          end
        else None
    end = Some m -> length (m_rest m) < length (c :: s')).
  { pose proof (bare_run_app (c :: s')) as Happ.
    destruct (bare_run (c :: s')) as [[|x w] r]; simpl in Happ.
    - destruct (c =? Chr.dquote)%N; [by apply Hq|].
      destruct (c =? Chr.squote)%N; [by apply Hq | done].
    - intros [= <-]. apply (f_equal length) in Happ.
      simpl in Happ. rewrite length_app in Happ. simpl. lia. }
  destruct s' as [|d r]; [exact Hbare|].
  destruct ((c =? Chr.gt)%N && (d =? Chr.gt)%N); [|exact Hbare].
  intros [= <-]. simpl. lia.
Qed.

#[local] Arguments token_alternatives : simpl never.

Lemma token_re_match_length (s : pystr) (m : rmatch) :
  token_re_match s = Some m -> length (m_rest m) < length s.
Proof.
  induction s as [|c s IH]; simpl; [done|].
  destruct (is_space c).
  - destruct (token_re_match s) as [m'|] eqn:Hm.
    + intros [= <-]. specialize (IH eq_refl). lia.
    + intros H. apply token_alternatives_length in H. simpl in H. lia.
  - intros H. apply token_alternatives_length in H. simpl in H. lia.
Qed.

(** The loop of [tokenize] leaves by its own tests: fuel beyond the length
    of the input changes nothing. *)
Lemma tokenize_loop_fuel (n : nat) :
  forall (k : nat) (s : pystr) (acc : list pystr),
    length s <= n -> length s <= k ->
    tokenize_loop n s acc = tokenize_loop k s acc.
Proof.
  induction n as [|n IH]; intros k s acc Hn Hk.
  - destruct s; simpl in *; [by destruct k | lia].
  - destruct s as [|c s']; [by destruct k|].
    destruct k as [|k]; [simpl in Hk; lia|]. cbn [tokenize_loop].
    destruct (token_re_match (c :: s')) as [m|] eqn:Hm; [|done].
    apply token_re_match_length in Hm. simpl in Hm, Hn, Hk.
    apply IH; lia.
Qed.

Lemma tokenize_loop_acc (n : nat) :
  forall (s : pystr) (acc : list pystr),
    tokenize_loop n s acc = acc ++ tokenize_loop n s [].
Proof.
  induction n as [|n IH]; intros s acc; cbn [tokenize_loop].
  - by rewrite app_nil_r.
  - destruct s as [|c s']; [by rewrite app_nil_r|].
    destruct (token_re_match (c :: s')) as [m|]; [|by rewrite app_nil_r].
    rewrite IH. rewrite (IH _ ([] ++ _)). by rewrite <- app_assoc.
Qed.

Lemma token_re_match_nil : token_re_match [] = None.
Proof. reflexivity. Qed.

(** The loop, one round at a time. *)
Lemma tokenize_unfold (s : pystr) :
  tokenize s =
  match token_re_match s with
  | None => []
  | Some m => token_of m :: tokenize (m_rest m)
  end.
Proof.
  unfold tokenize. destruct s as [|c s']; [done|].
  cbn [tokenize_loop length].
  destruct (token_re_match (c :: s')) as [m|] eqn:Hm; [|done].
  apply token_re_match_length in Hm. simpl in Hm.
  rewrite tokenize_loop_acc. simpl. f_equal. apply tokenize_loop_fuel; lia.
Qed.

Lemma token_alternatives_space (c : N) (s : pystr) :
  is_space c = true -> token_alternatives (c :: s) = None.
Proof.
  intros Hc. destruct (is_space_not_special c Hc) as (Hgt & Hdq & Hsq).
  unfold token_alternatives. rewrite (bare_run_space c s Hc), Hgt, Hdq, Hsq.
  by destruct s.
Qed.

Lemma token_re_match_spaces (s : pystr) :
  Forall (fun c => is_space c = true) s -> token_re_match s = None.
Proof.
  induction 1 as [|c s Hc _ IH]; [done|].
  simpl. rewrite Hc, IH. by apply token_alternatives_space.
Qed.

(** C7: on a string of white space only, the empty string included,
    [tokenize] returns the empty token list. *)
Theorem tokenize_whitespace (s : pystr) :
  Forall (fun c => is_space c = true) s -> tokenize s = [].
Proof.
  intros Hs. rewrite tokenize_unfold. by rewrite token_re_match_spaces.
Qed.

Lemma tokenize_whitespace_witness :
  Forall (fun c => is_space c = true) [Chr.space; 9%N; Chr.newline; 160%N]
  /\ tokenize [Chr.space; 9%N; Chr.newline; 160%N] = [].
Proof.
  assert (H : Forall (fun c => is_space c = true)
                [Chr.space; 9%N; Chr.newline; 160%N]).
  { repeat constructor. }
  split; [exact H | exact (tokenize_whitespace _ H)].
Defined.

(** Without a closing quote the quoted body matches nowhere. *)
Lemma quoted_body_unterminated (q : N) (n : nat) :
  forall (s : pystr) (started : bool),
    length s <= n -> q ∉ s -> quoted_body q started s = None.
Proof.
  induction n as [|n IH]; intros s started Hn Hq.
  - destruct s; simpl in *; [done | lia].
  - destruct s as [|c s']; [done|].
    apply not_elem_of_cons in Hq as [Hc Hs']. simpl in Hn.
    assert (Hcq : (c =? q)%N = false) by (apply N.eqb_neq; congruence).
    assert (Hrec : quoted_body q true s' = None) by (apply IH; [lia | done]).
    simpl. rewrite Hcq, Hrec, andb_false_r.
    destruct s' as [|d s'']; [done|].
    destruct ((c =? Chr.backslash)%N && negb (d =? Chr.newline)%N); [|done].
    apply not_elem_of_cons in Hs' as [_ Hs'']. simpl in Hn.
    rewrite IH; [done | lia | done].
Qed.

Lemma token_alternatives_unterminated (q : N) (rest : pystr) :
  is_quote q -> q ∉ rest -> token_alternatives (q :: rest) = None.
Proof.
  intros Hq Hrest.
  assert (Hbody : quoted_body q false rest = None)
    by (by apply (quoted_body_unterminated q (length rest))).
  assert (Hgt : (q =? Chr.gt)%N = false) by (by destruct Hq as [-> | ->]).
  assert (Hrun : bare_run (q :: rest) = ([], q :: rest)).
  { simpl. by destruct Hq as [-> | ->]. }
  unfold token_alternatives. rewrite Hrun, Hgt.
  destruct Hq as [-> | ->]; simpl; rewrite Hbody; by destruct rest.
Qed.

Lemma token_re_match_unterminated (ws : pystr) (q : N) (rest : pystr) :
  Forall (fun c => is_space c = true) ws -> is_quote q -> q ∉ rest ->
  token_re_match (ws ++ q :: rest) = None.
Proof.
  intros Hws Hq Hrest. induction Hws as [|c ws Hc _ IH]; simpl.
  - assert (Hsp : is_space q = false) by (by destruct Hq as [-> | ->]).
    rewrite Hsp. by apply token_alternatives_unterminated.
  - rewrite Hc, IH. by apply token_alternatives_space.
Qed.

Lemma lex_run_tokenize (s : pystr) (toks : list pystr) (r : pystr) :
  lex_run s toks r -> token_re_match r = None -> tokenize s = toks.
Proof.
  induction 1 as [s | s m toks r Hm _ IH]; intros Hr.
  - rewrite tokenize_unfold. by rewrite Hr.
  - rewrite tokenize_unfold, Hm. f_equal. by apply IH.
Qed.

(** Every run of the lexer ends where nothing matches. *)
Lemma tokenize_lex_run (n : nat) :
  forall s : pystr,
    length s <= n ->
    exists r, lex_run s (tokenize s) r /\ token_re_match r = None.
Proof.
  induction n as [|n IH]; intros s Hn.
  - destruct s; [|simpl in Hn; lia].
    exists []. split; [apply lex_run_here | done].
  - rewrite tokenize_unfold.
    destruct (token_re_match s) as [m|] eqn:Hm.
    + pose proof (token_re_match_length s m Hm) as Hlen.
      destruct (IH (m_rest m)) as (r & Hrun & Hr); [lia|].
      exists r. split; [|done]. by apply lex_run_match.
    + exists s. split; [apply lex_run_here | done].
Qed.

(** C6: [tokenize] returns the tokens made by the successive matches from
    the start of the input up to the first position where nothing
    matches, and stops there: there is such a position for every input,
    and whenever the matches lead to one, the tokens made on the way are
    the result.  A position where, after white space, a quote of either
    kind opens that is not closed in the rest of the input is one, so the
    text from that quote on gives no token. *)
Theorem tokenize_stops_at_first_failure (s : pystr) :
  (exists r, lex_run s (tokenize s) r /\ token_re_match r = None)
  /\ (forall (toks : list pystr) (r : pystr),
        lex_run s toks r -> token_re_match r = None -> tokenize s = toks)
  /\ (forall (toks : list pystr) (ws : pystr) (q : N) (rest : pystr),
        lex_run s toks (ws ++ q :: rest) ->
        Forall (fun c => is_space c = true) ws -> is_quote q -> q ∉ rest ->
        tokenize s = toks).
Proof.
  split; [|split].
  - by apply (tokenize_lex_run (length s)).
  - apply lex_run_tokenize.
  - intros toks ws q rest Hrun Hws Hq Hrest.
    apply (lex_run_tokenize _ _ _ Hrun).
    by apply token_re_match_unterminated.
Qed.

Lemma tokenize_stops_at_first_failure_witness :
  lex_run (py "echo 'abc d") [py "echo"] (py " 'abc d")
  /\ tokenize (py "echo 'abc d") = [py "echo"].
Proof.
  assert (Hrun : lex_run (py "echo 'abc d") [py "echo"] (py " 'abc d")).
  { apply (lex_run_match (py "echo 'abc d")
             (RMatch GBare (py "echo") (py " 'abc d")) [] (py " 'abc d"));
      [reflexivity | apply lex_run_here]. }
  split; [exact Hrun|].
  apply (proj2 (proj2 (tokenize_stops_at_first_failure (py "echo 'abc d")))
           [py "echo"] [Chr.space] Chr.squote (py "abc d") Hrun).
  - repeat constructor.
  - by right.
  - apply (bool_decide_eq_false_1 (Chr.squote ∈ py "abc d")). reflexivity.
Defined.

(** C9: quoting does not protect an operator.  Each of the four operators
    lexes to the same single token bare, between double quotes and between
    single quotes; the line with a quoted bar parses as the line with a
    bare one, into two commands of one word; and a quoted [>] redirects the
    output. *)
Theorem quoted_operator_is_operator :
  Forall (fun op =>
            tokenize op = [op] /\ tokenize (dq op) = [op]
            /\ tokenize (sq op) = [op])
         [py "|"; py "<"; py ">"; py ">>"]
  /\ parse_pipeline (py "a " ++ dq (py "|") ++ py " b")
     = parse_pipeline (py "a | b")
  /\ parse_pipeline (py "a | b")
     = [Command [py "a"] None None false; Command [py "b"] None None false]
  /\ parse_pipeline (py "echo hi " ++ dq (py ">") ++ py " f")
     = [Command [py "echo"; py "hi"] None (Some (py "f")) false]
  /\ parse_pipeline (py "echo hi " ++ dq (py ">") ++ py " f")
     = parse_pipeline (py "echo hi > f").
Proof.
  split; [repeat constructor | repeat split].
Qed.

(** ** The parser *)

Lemma scan_step_i (seg : list pystr) (st : scan) :
  s_i st < length seg ->
  S (s_i st) <= s_i (scan_step seg st) <= S (S (s_i st)).
Proof.
  intros Hi. unfold scan_step.
  destruct (seg !! s_i st) as [tok|] eqn:Htok.
  - destruct (pystr_eqb tok (py ">")); [simpl; lia|].
    destruct (pystr_eqb tok (py ">>")).
    { destruct (seg !! S (s_i st)); simpl; lia. }
    destruct (pystr_eqb tok (py "<")); simpl; lia.
  - apply lookup_ge_None in Htok. lia.
Qed.

(** The scan leaves its loop by the test [i < len(seg)]. *)
Lemma scan_loop_done (fuel : nat) :
  forall (seg : list pystr) (st : scan),
    length seg - s_i st <= fuel -> length seg <= s_i (scan_loop fuel seg st).
Proof.
  induction fuel as [|fuel IH]; intros seg st Hf; simpl.
  - lia.
  - destruct (s_i st <? length seg) eqn:Hlt.
    + apply Nat.ltb_lt in Hlt. apply IH.
      pose proof (scan_step_i seg st Hlt). lia.
    + apply Nat.ltb_ge in Hlt. lia.
Qed.

Lemma scan_segment_done (seg : list pystr) :
  length seg <= s_i (scan_segment seg).
Proof. apply scan_loop_done. simpl. lia. Qed.

Lemma segment_command_args (seg : list pystr) (c : command) :
  segment_command seg = Some c -> args c <> [].
Proof.
  unfold segment_command. cbv zeta.
  destruct (s_args (scan_segment seg)); [done|].
  by intros [= <-].
Qed.

Lemma parse_segments_args (segments : list (list pystr)) :
  forall cmds : list command,
    Forall (fun c => args c <> []) cmds ->
    Forall (fun c => args c <> []) (parse_segments segments cmds).
Proof.
  induction segments as [|seg segments IH]; intros cmds Hc; simpl; [done|].
  destruct (segment_command seg) as [c|] eqn:Hseg; apply IH; [|done].
  apply Forall_app. split; [done|]. constructor; [|done].
  by apply (segment_command_args seg).
Qed.

(** C4: for every line, every command of [parse_pipeline line] has a
    non-empty [args]; and nothing fails on the way: the function is total,
    the loop of the lexer and the scan of every segment ending by their
    own tests. *)
Theorem parse_pipeline_args_nonempty (line : pystr) :
  Forall (fun c => args c <> []) (parse_pipeline line)
  /\ (forall n, length line <= n -> tokenize_loop n line [] = tokenize line)
  /\ Forall (fun seg => length seg <= s_i (scan_segment seg))
       (split_segments (tokenize line) [] []).
Proof.
  split; [|split].
  - unfold parse_pipeline, parse_tokens.
    destruct (tokenize line); [done|]. by apply parse_segments_args.
  - intros n Hn. unfold tokenize. apply tokenize_loop_fuel; lia.
  - apply Forall_forall. intros seg _. apply scan_segment_done.
Qed.

(** C3, on the line [sleep 5 >> x > y]: the path of the later
    redirection replaces the earlier one, but [append] stays set, and the
    child opens [y] for appending, not truncating it. *)
Theorem gt_after_append_keeps_append :
  parse_pipeline (py "sleep 5 >> x > y")
  = [Command [py "sleep"; py "5"] None (Some (py "y")) true]
  /\ (ch_fds <$> last (children (snd
        (run_pipeline (parse_pipeline (py "sleep 5 >> x > y")) false
           killed_os))))
     ≫= (fun t => t !! 1%Z)
     = Some (File (py "y") (Z.lor (Z.lor O_WRONLY O_CREAT) O_APPEND)).
Proof. split; [reflexivity | vm_compute; reflexivity]. Qed.

Lemma scan_loop_stop (fuel : nat) (seg : list pystr) (st : scan) :
  length seg <= s_i st -> scan_loop fuel seg st = st.
Proof.
  intros H. destruct fuel; simpl; [done|].
  apply Nat.ltb_ge in H. by rewrite H.
Qed.

(** When the scan ends one past the end of the segment, its last round
    read the last token as an operator and found no target for it. *)
Lemma scan_loop_dangling (fuel : nat) :
  forall (seg : list pystr) (st : scan),
    s_i st <= length seg -> length seg - s_i st <= fuel ->
    s_i (scan_loop fuel seg st) = S (length seg) ->
    exists op, last seg = Some op /\ is_redir op = true
               /\ scan_target op (scan_loop fuel seg st) = None.
Proof.
  induction fuel as [|fuel IH]; intros seg st Hle Hf; simpl.
  - lia.
  - destruct (s_i st <? length seg) eqn:Hlt; [|lia].
    apply Nat.ltb_lt in Hlt.
    pose proof (scan_step_i seg st Hlt) as Hstep.
    destruct (decide (s_i (scan_step seg st) <= length seg)) as [Hin|Hout].
    { apply IH; [done | lia]. }
    rewrite scan_loop_stop by lia. intros Hend.
    assert (Hi : S (s_i st) = length seg) by lia.
    assert (Hnone : seg !! S (s_i st) = None)
      by (apply lookup_ge_None; lia).
    destruct (seg !! s_i st) as [tok|] eqn:Htok;
      [|apply lookup_ge_None in Htok; lia].
    assert (Hlast : last seg = Some tok).
    { rewrite last_lookup, <- Hi. exact Htok. }
    exists tok. split; [exact Hlast|].
    revert Hend. unfold scan_step, is_redir, scan_target.
    rewrite Htok, Hnone.
    destruct (pystr_eqb tok (py ">")) eqn:E1.
    { intros _. apply bool_decide_eq_true in E1 as ->. by split. }
    destruct (pystr_eqb tok (py ">>")) eqn:E2.
    { intros _. apply bool_decide_eq_true in E2 as ->. by split. }
    destruct (pystr_eqb tok (py "<")) eqn:E3.
    { intros _. by split. }
    simpl. lia.
Qed.

(** C5, as the code has it: when the last token of a segment is a
    redirection operator and the scan reads it as one, ending one past
    the end of the segment for want of a target, the path that operator
    sets is [None] at the end of the scan and in the command the segment
    gives, so the executor, which tests that field, applies no
    redirection for it. *)
Theorem dangling_redirection_unset (seg : list pystr) (op : pystr) :
  last seg = Some op -> is_redir op = true ->
  s_i (scan_segment seg) = S (length seg) ->
  scan_target op (scan_segment seg) = None
  /\ forall c : command,
       segment_command seg = Some c ->
       command_target op c = None /\ truthy (command_target op c) = None.
Proof.
  intros Hlast Hop Hend.
  destruct (scan_loop_dangling (length seg) seg scan_init) as (op' & Hl & _ & Ht);
    [simpl; lia | simpl; lia | exact Hend |].
  assert (op' = op) as -> by congruence.
  fold (scan_segment seg) in Ht. split; [exact Ht|].
  intros c. unfold segment_command. cbv zeta.
  destruct (s_args (scan_segment seg)); [done|]. intros [= <-].
  unfold command_target, scan_target in *. simpl.
  destruct (pystr_eqb op (py "<")); by rewrite Ht.
Qed.

Lemma dangling_redirection_unset_witness :
  last (tokenize (py "sort -r < in >")) = Some (py ">")
  /\ scan_target (py ">") (scan_segment (tokenize (py "sort -r < in >"))) = None
  /\ forall c : command,
       segment_command (tokenize (py "sort -r < in >")) = Some c ->
       command_target (py ">") c = None
       /\ truthy (command_target (py ">") c) = None.
Proof.
  split; [reflexivity|].
  apply (dangling_redirection_unset (tokenize (py "sort -r < in >")) (py ">"));
    reflexivity.
Defined.

(** C5 as stated fails: in [a > >] the last token is an operator, but it
    is taken as the target of the one before it. *)
Lemma dangling_redirection_counterexample :
  ~ (forall (seg : list pystr) (op : pystr) (c : command),
       last seg = Some op -> is_redir op = true ->
       segment_command seg = Some c -> command_target op c = None).
Proof.
  intros H.
  specialize (H (tokenize (py "a > >")) (py ">")
                (Command [py "a"] None (Some (py ">")) false)
                eq_refl eq_refl eq_refl).
  discriminate H.
Qed.

(** ** Executable resolution *)

Lemma str_split_nonempty (sep : N) (s cur : pystr) : str_split sep s cur <> [].
Proof.
  revert cur. induction s as [|c s IH]; intros cur; simpl; [done|].
  destruct (c =? sep)%N; [done | apply IH].
Qed.

Lemma path_join_empty (cmd : pystr) : path_join [] cmd = cmd.
Proof. unfold path_join. by destruct (startswith cmd Chr.slash). Qed.

(** A NUL character in the name is in every path it is joined to. *)
Lemma embedded_null_path_join (d cmd : pystr) :
  embedded_null cmd = true -> embedded_null (path_join d cmd) = true.
Proof.
  unfold embedded_null. intros H. apply bool_decide_eq_true in H.
  apply bool_decide_eq_true. unfold path_join.
  destruct (startswith cmd Chr.slash); [done|].
  destruct (bool_decide (d = []) || endswith d Chr.slash);
    rewrite elem_of_app; right; [done|]. by apply list_elem_of_further.
Qed.

Lemma path_ok_true (os : OS) (p : pystr) :
  path_ok os p = true <-> path_error os p = None.
Proof. unfold path_ok. by destruct (path_error os p). Qed.

(** What the functions of [os] raise for a string is a [ValueError], and
    they raise one for every string with a NUL character. *)
Lemma path_error_ValueError (os : OS) (p : pystr) (e : exn) :
  path_error os p = Some e -> exists msg, e = ValueError msg.
Proof.
  unfold path_error. destruct (fs_encode_error (fs os) p) as [msg|].
  - intros [= <-]. by eexists.
  - destruct (embedded_null p); [|done]. intros [= <-]. by eexists.
Qed.

Lemma path_error_null (os : OS) (p : pystr) :
  embedded_null p = true -> exists msg, path_error os p = Some (ValueError msg).
Proof.
  intros Hn. unfold path_error. rewrite Hn.
  destruct (fs_encode_error (fs os) p); by eexists.
Qed.

Lemma executable_file_spec (p : pystr) (os : OS) :
  executable_file p os
  = (match path_error os p with
     | Some e => Raise e
     | None => Ret (runnable os p)
     end, os).
Proof.
  unfold executable_file, bind, os_access_x, os_path_isfile, runnable, ret,
    path_ok.
  destruct (path_error os p) eqn:E; [done|]. simpl.
  destruct (fs_access_x (fs os) (cwd os) p); [by rewrite E | done].
Qed.

Lemma search_path_spec (cmd : pystr) (dirs : list pystr) (os : OS) :
  search_path dirs cmd os
  = (search_outcome os ((fun d => path_join d cmd) <$> dirs), os).
Proof.
  unfold search_outcome.
  induction dirs as [|d dirs IH]; [done|].
  cbn [search_path fmap list_fmap List.find]. unfold bind.
  rewrite executable_file_spec. unfold path_ok at 1.
  destruct (path_error os (path_join d cmd)) as [e|] eqn:En; cbn [negb orb];
    [by rewrite En|].
  destruct (runnable os (path_join d cmd)); [by rewrite En | exact IH].
Qed.

Lemma find_executable_spec (cmd : pystr) (os : OS) :
  find_executable cmd os = (resolve os cmd, os).
Proof.
  unfold find_executable, resolve. case_bool_decide.
  - unfold bind, search_outcome. rewrite executable_file_spec.
    cbn [List.find]. unfold path_ok at 1.
    destruct (path_error os cmd) as [e|] eqn:En; cbn [negb orb];
      [by rewrite En|].
    destruct (runnable os cmd); [by rewrite En | done].
  - apply search_path_spec.
Qed.

(** Among paths that [os.access] takes the search is for the first
    executable regular file. *)
Lemma search_outcome_clean (os : OS) (ps : list pystr) :
  Forall (fun p => path_error os p = None) ps ->
  search_outcome os ps = Ret (List.find (runnable os) ps).
Proof.
  unfold search_outcome. induction 1 as [|p ps Hp _ IH]; [done|].
  cbn [List.find]. unfold path_ok at 1. rewrite Hp. cbn [negb orb].
  destruct (runnable os p); [by rewrite Hp | exact IH].
Qed.

Lemma candidates_unset (os : OS) (cmd : pystr) :
  environ os !! py "PATH" = None -> candidates os cmd = [cmd].
Proof.
  intros Hpath. unfold candidates, environ_get. rewrite Hpath. simpl.
  by rewrite path_join_empty.
Qed.

Lemma candidates_null (os : OS) (cmd : pystr) :
  embedded_null cmd = true ->
  exists msg, search_outcome os (candidates os cmd) = Raise (ValueError msg).
Proof.
  intros Hn. unfold candidates, search_outcome.
  destruct (str_split Chr.colon (environ_get os (py "PATH") []) [])
    as [|d dirs] eqn:E; [by apply str_split_nonempty in E|].
  cbn [fmap list_fmap List.find].
  destruct (path_error_null os (path_join d cmd)
              (embedded_null_path_join d cmd Hn)) as [msg Hj].
  exists msg. unfold path_ok at 1. rewrite Hj. cbn [negb orb].
  by rewrite Hj.
Qed.

(** C2, as the code has it: for a name without a slash, every entry of
    [PATH], the empty ones included, is joined with the name and tried in
    order, and the first candidate that is an executable regular file is
    returned; an unset [PATH] is the empty string, whose only entry is the
    empty one, and the empty entry joins to the bare name, so the name
    itself is tried, relative to the current directory.  A candidate that
    [os.access] does not take, as none with a NUL character, ends the
    search with its [ValueError], so a name with a NUL character is never
    looked for. *)
Theorem find_executable_searches_every_entry (os : OS) (cmd : pystr) :
  Chr.slash ∉ cmd ->
  find_executable cmd os = (search_outcome os (candidates os cmd), os)
  /\ (Forall (fun p => path_error os p = None) (candidates os cmd) ->
      find_executable cmd os
      = (Ret (List.find (runnable os) (candidates os cmd)), os))
  /\ (embedded_null cmd = true ->
      exists msg, find_executable cmd os = (Raise (ValueError msg), os))
  /\ (environ os !! py "PATH" = None ->
      candidates os cmd = [cmd]
      /\ (path_error os cmd = None ->
          find_executable cmd os
          = (Ret (if runnable os cmd then Some cmd else None), os)))
  /\ path_join [] cmd = cmd.
Proof.
  intros Hcmd.
  assert (Hspec : find_executable cmd os
                  = (search_outcome os (candidates os cmd), os)).
  { rewrite find_executable_spec. unfold resolve.
    by rewrite (bool_decide_eq_false_2 _ Hcmd). }
  split; [exact Hspec|]. split; [|split; [|split]].
  - intros Hclean. by rewrite Hspec, search_outcome_clean.
  - intros Hn. destruct (candidates_null os cmd Hn) as [msg Hr].
    exists msg. by rewrite Hspec, Hr.
  - intros Hpath. split; [by apply candidates_unset|].
    intros Hn. rewrite Hspec, (candidates_unset os cmd Hpath).
    rewrite search_outcome_clean by (by constructor).
    cbn [List.find]. by destruct (runnable os cmd).
  - apply path_join_empty.
Qed.

Lemma find_executable_searches_every_entry_witness :
  (Chr.slash ∉ py "ls")
  /\ find_executable (py "ls") (sample_os ∅ (fun _ => None))
     = (Ret (Some (py "ls")), sample_os ∅ (fun _ => None)).
Proof.
  assert (H : Chr.slash ∉ py "ls").
  { apply (bool_decide_eq_false_1 (Chr.slash ∈ py "ls")). reflexivity. }
  assert (Hp : environ (sample_os ∅ (fun _ => None)) !! py "PATH" = None)
    by (vm_compute; reflexivity).
  split; [exact H|].
  destruct (find_executable_searches_every_entry
              (sample_os ∅ (fun _ => None)) (py "ls") H)
    as (_ & _ & _ & Hunset & _).
  rewrite (proj2 (Hunset Hp) eq_refl). reflexivity.
Defined.

(** C2 as stated fails: with [PATH] unset, [ls] is found in the current
    directory. *)
Lemma find_executable_path_unset_counterexample :
  ~ (forall (os : OS) (cmd : pystr),
       Chr.slash ∉ cmd -> environ os !! py "PATH" = None ->
       find_executable cmd os = (Ret None, os)).
Proof.
  intros H.
  specialize (H (sample_os ∅ (fun _ => None)) (py "ls")).
  assert (Hs : Chr.slash ∉ py "ls").
  { apply (bool_decide_eq_false_1 (Chr.slash ∈ py "ls")). reflexivity. }
  assert (Hp : environ (sample_os ∅ (fun _ => None)) !! py "PATH" = None)
    by (vm_compute; reflexivity).
  specialize (H Hs Hp).
  assert (Hr : fst (find_executable (py "ls") (sample_os ∅ (fun _ => None)))
               = Ret (Some (py "ls"))) by (vm_compute; reflexivity).
  rewrite H in Hr. discriminate Hr.
Qed.

(** ** The executor *)

(** C8: on the empty pipeline [run_pipeline] returns 0 whatever the
    background flag, and leaves the state as it was: no pipe is made and
    no process is spawned. *)
Theorem run_pipeline_empty (background : bool) (os : OS) :
  run_pipeline [] background os = (Ret 0%Z, os).
Proof. reflexivity. Qed.

Lemma bind_Ret {A B} (m : M A) (k : A -> M B) (os os' : OS) (a : A) :
  m os = (Ret a, os') -> bind m k os = k a os'.
Proof. intros H. unfold bind. by rewrite H. Qed.

Lemma fds_only_refl (os : OS) : fds_only os os.
Proof. by repeat split. Qed.

Lemma fds_only_trans (os1 os2 os3 : OS) :
  fds_only os1 os2 -> fds_only os2 os3 -> fds_only os1 os3.
Proof.
  intros (?&?&?&?&?) (?&?&?&?&?). repeat split; congruence.
Qed.

Lemma fresh_fd_le (t : gmap Z fdesc) : (fresh_fd t <= Z.of_nat (size t))%Z.
Proof.
  unfold fresh_fd.
  destruct (List.find _ _) as [n|] eqn:Hfind; simpl; [|lia].
  apply List.find_some in Hfind as [Hin _].
  apply list_elem_of_In, elem_of_seqZ in Hin. lia.
Qed.

Lemma size_insert_le (t : gmap Z fdesc) (k : Z) (d : fdesc) :
  size (<[k := d]> t) <= S (size t).
Proof. rewrite map_size_insert. destruct (t !! k); simpl; lia. Qed.

Lemma os_pipe_ok (os : OS) :
  (Z.of_nat (size (fds os)) + 2 <= fd_limit os)%Z ->
  exists p os',
    os_pipe os = (Ret p, os') /\ fds_only os os'
    /\ size (fds os') <= size (fds os) + 2.
Proof.
  intros Hlim. unfold os_pipe.
  set (r := fresh_fd (fds os)).
  set (t := <[r := PipeRead (next_pipe os)]> (fds os)).
  set (w := fresh_fd t).
  pose proof (fresh_fd_le (fds os)) as Hr.
  pose proof (fresh_fd_le t) as Hw.
  pose proof (size_insert_le (fds os) r (PipeRead (next_pipe os))) as Ht.
  fold r in Hr. fold t in Ht. fold w in Hw.
  assert (Hrl : (r <? fd_limit os)%Z = true) by (apply Z.ltb_lt; lia).
  assert (Hwl : (w <? fd_limit os)%Z = true) by (apply Z.ltb_lt; lia).
  rewrite Hrl, Hwl. simpl. eexists _, _. split; [done|].
  split; [by repeat split|]. simpl.
  pose proof (size_insert_le t w (PipeWrite (next_pipe os))). lia.
Qed.

Lemma make_pipes_loop (l : list nat) :
  forall (acc : list (Z * Z)) (os : OS),
    (Z.of_nat (size (fds os)) + 2 * Z.of_nat (length l) <= fd_limit os)%Z ->
    exists pipes os',
      for_acc l acc (fun _ pipes => let* p := os_pipe in ret (pipes ++ [p])) os
      = (Ret pipes, os')
      /\ fds_only os os'.
Proof.
  induction l as [|x l IH]; intros acc os Hlim; simpl.
  - eexists _, _. split; [done | apply fds_only_refl].
  - simpl in Hlim.
    destruct (os_pipe_ok os) as (p & os1 & Hp & Hfr & Hsize); [lia|].
    destruct (IH (acc ++ [p]) os1) as (pipes & os2 & Hloop & Hfr2).
    { destruct Hfr as (-> & _). lia. }
    exists pipes, os2. split; [|by eapply fds_only_trans].
    erewrite bind_Ret; [exact Hloop|]. by erewrite bind_Ret.
Qed.

Lemma make_pipes_ok (count : nat) (os : OS) :
  (Z.of_nat (size (fds os)) + 2 * Z.of_nat count <= fd_limit os)%Z ->
  exists pipes os', make_pipes count os = (Ret pipes, os') /\ fds_only os os'.
Proof.
  intros H. apply make_pipes_loop. by rewrite length_seq.
Qed.

Lemma os_fork_ok (body : M unit) (os : OS) :
  length (children os) < proc_limit os ->
  exists c,
    os_fork body os = (Ret (next_pid os), add_child c os)
    /\ ch_pid c = next_pid os.
Proof.
  intros Hlim. unfold os_fork. apply Nat.ltb_lt in Hlim. rewrite Hlim.
  destruct (body (forked os)) as [r os_c]. by eexists.
Qed.

(** The pids of the next children, once one of them is made. *)
Lemma stage_pids_S (os : OS) (c : child) (n : nat) :
  stage_pids os (S n) = next_pid os :: stage_pids (add_child c os) n.
Proof.
  unfold stage_pids, next_pid. cbn [seq fmap list_fmap].
  rewrite Nat.add_0_r. f_equal.
  rewrite <- fmap_S_seq, <- list_fmap_compose.
  apply list_fmap_ext. intros _ k _. simpl. rewrite length_app. simpl.
  do 2 f_equal. lia.
Qed.

(** The children of a pipeline are made in the order of its stages, and
    the pids collected are theirs. *)
Lemma spawn_loop (body : nat * command -> M unit) (l : list (nat * command)) :
  forall (acc : list Z) (os : OS),
    length (children os) + length l <= proc_limit os ->
    exists os' new,
      for_acc l acc (fun ic pids =>
        let* pid := os_fork (body ic) in ret (pids ++ [pid])) os
      = (Ret (acc ++ (ch_pid <$> new)), os')
      /\ wait_status os' = wait_status os
      /\ children os' = children os ++ new
      /\ length new = length l
      /\ ch_pid <$> new = stage_pids os (length l).
Proof.
  induction l as [|ic l IH]; intros acc os Hlim.
  - exists os, []. simpl. rewrite !app_nil_r. by repeat split.
  - simpl in Hlim.
    destruct (os_fork_ok (body ic) os) as (c & Hfork & Hpid); [lia|].
    destruct (IH (acc ++ [next_pid os]) (add_child c os))
      as (os' & new & Hloop & Hws & Hch & Hlen & Hpids).
    { simpl. rewrite length_app. simpl. lia. }
    exists os', (c :: new). split; [|split; [|split; [|split]]].
    + cbn [for_acc]. erewrite bind_Ret; [|by erewrite bind_Ret].
      rewrite Hloop, fmap_cons, Hpid. simpl. by rewrite <- app_assoc.
    + exact Hws.
    + rewrite Hch. simpl. by rewrite <- app_assoc.
    + simpl. by rewrite Hlen.
    + cbn [length]. rewrite (stage_pids_S os c), fmap_cons, Hpid.
      f_equal. exact Hpids.
Qed.

Lemma try_close_ok (fd : Z) (os : OS) :
  exists os',
    try_except (os_close fd) (ret tt) os = (Ret tt, os') /\ fds_only os os'.
Proof.
  unfold try_except, try_catch, os_close.
  destruct (fds os !! fd); simpl; eexists; (split; [done|]);
    by repeat split.
Qed.

Lemma close_pipes_ok (pipes : list (Z * Z)) :
  forall os : OS,
    exists os',
      for_each pipes close_pipe os = (Ret tt, os') /\ fds_only os os'.
Proof.
  induction pipes as [|p pipes IH]; intros os; simpl.
  - exists os. split; [done | apply fds_only_refl].
  - destruct (try_close_ok (fst p) os) as (os1 & H1 & F1).
    destruct (try_close_ok (snd p) os1) as (os2 & H2 & F2).
    destruct (IH os2) as (os3 & H3 & F3).
    exists os3. split.
    + erewrite bind_Ret; [exact H3|]. unfold close_pipe.
      erewrite bind_Ret; [exact H2 | exact H1].
    + eauto using fds_only_trans.
Qed.

(** Waiting records [stage_code] of what [os.waitpid] gives, for each pid
    in turn. *)
Lemma wait_step (pid : Z) (exit_codes : list Z) (os : OS) :
  exists os',
    try_except
      (let* status := os_waitpid pid in
       if WIFEXITED status then ret (exit_codes ++ [WEXITSTATUS status])
       else ret (exit_codes ++ [1%Z]))
      (ret (exit_codes ++ [1%Z])) os
    = (Ret (exit_codes ++ [stage_code (wait_status os pid)]), os')
    /\ wait_status os' = wait_status os /\ children os' = children os.
Proof.
  unfold try_except, try_catch, bind, os_waitpid, stage_code.
  destruct (wait_status os pid) as [status|]; simpl.
  - destruct (WIFEXITED status); simpl; by eexists.
  - by eexists.
Qed.

Lemma wait_loop (pids : list Z) :
  forall (acc : list Z) (os : OS),
    exists os',
      wait_all_from pids acc os
      = (Ret (acc ++ ((fun pid => stage_code (wait_status os pid)) <$> pids)),
         os')
      /\ wait_status os' = wait_status os /\ children os' = children os.
Proof.
  induction pids as [|pid pids IH]; intros acc os.
  - exists os. simpl. by rewrite app_nil_r.
  - destruct (wait_step pid acc os) as (os1 & H1 & Hw1 & Hc1).
    destruct (IH (acc ++ [stage_code (wait_status os pid)]) os1)
      as (os2 & H2 & Hw2 & Hc2).
    exists os2. split; [|split; congruence].
    unfold wait_all_from in *. cbn [for_acc]. erewrite bind_Ret; [|exact H1].
    rewrite H2, Hw1. simpl. by rewrite <- app_assoc.
Qed.

Lemma stage_code_signaled (status : Z) :
  WIFSIGNALED status = true -> stage_code (Some status) = 1%Z.
Proof.
  unfold WIFSIGNALED, stage_code, WIFEXITED. intros H.
  apply andb_true_iff in H as [H _]. apply Z.ltb_lt in H.
  destruct (Z.land status 127 =? 0)%Z eqn:E; [|done].
  apply Z.eqb_eq in E. lia.
Qed.

(** C1, as the code has it: for a non-empty pipeline run in the
    foreground, with descriptors and processes enough for its pipes and
    its children, [run_pipeline] returns the code of the last stage, the
    child spawned last: its exit status when it exited, and 1 when it was
    terminated by a signal or when waiting for it failed. *)
Theorem run_pipeline_foreground_status (cmds : list command) (os : OS) :
  cmds <> [] ->
  (Z.of_nat (size (fds os)) + 2 * Z.of_nat (length cmds - 1)
   <= fd_limit os)%Z ->
  length (children os) + length cmds <= proc_limit os ->
  exists (os' : OS) (last_stage : child) (v : Z),
    run_pipeline cmds false os = (Ret v, os')
    /\ last (children os') = Some last_stage
    /\ length (children os') = length (children os) + length cmds
    /\ v = stage_code (wait_status os (ch_pid last_stage))
    /\ (forall status,
          wait_status os (ch_pid last_stage) = Some status ->
          WIFEXITED status = true -> v = WEXITSTATUS status)
    /\ (forall status,
          wait_status os (ch_pid last_stage) = Some status ->
          WIFSIGNALED status = true -> v = 1%Z)
    /\ (wait_status os (ch_pid last_stage) = None -> v = 1%Z).
Proof.
  intros Hne Hfd Hproc.
  destruct (make_pipes_ok (length cmds - 1) os Hfd)
    as (pipes & os1 & Hpipes & (_ & Hpl1 & Hws1 & Hch1 & _)).
  destruct (spawn_loop
              (fun ic => child_body (fst ic) (length cmds) (snd ic) pipes)
              (imap (fun i cmd => (i, cmd)) cmds) [] os1)
    as (os2 & new & Hspawn & Hws2 & Hch2 & Hlen & _).
  { rewrite length_imap. congruence. }
  rewrite length_imap in Hlen. simpl in Hspawn.
  destruct (close_pipes_ok pipes os2) as (os3 & Hclose & (_ & _ & Hws3 & Hch3 & _)).
  destruct (wait_loop (ch_pid <$> new) [] os3) as (os4 & Hwait & Hws4 & Hch4).
  simpl in Hwait.
  assert (Hlast : exists new' c, new = new' ++ [c]).
  { destruct new as [|c0 new0] using rev_ind; [|by eexists _, _].
    destruct cmds; [done | discriminate Hlen]. }
  destruct Hlast as (new' & c & Hnew).
  set (v := stage_code (wait_status os (ch_pid c))).
  assert (Hrun : run_pipeline cmds false os = (Ret v, os4)).
  { unfold run_pipeline.
    destruct (length cmds =? 0) eqn:E0.
    { apply Nat.eqb_eq in E0. by destruct cmds. }
    erewrite bind_Ret; [|exact Hpipes].
    unfold spawn_all. erewrite bind_Ret; [|exact Hspawn].
    erewrite bind_Ret; [|exact Hclose].
    unfold wait_all. erewrite bind_Ret; [|exact Hwait].
    unfold ret. f_equal. f_equal.
    rewrite Hnew, !fmap_app. simpl. rewrite List.last_last.
    unfold v. congruence. }
  exists os4, c, v. split; [exact Hrun|]. split; [|split; [|split; [done|]]].
  - rewrite Hch4, Hch3, Hch2, Hnew, app_assoc. apply last_snoc.
  - rewrite Hch4, Hch3, Hch2, Hch1, length_app. by rewrite Hlen.
  - split; [|split].
    + intros status Hst Hex. unfold v, stage_code. by rewrite Hst, Hex.
    + intros status Hst Hsig. unfold v. rewrite Hst.
      by apply stage_code_signaled.
    + intros Hst. unfold v. by rewrite Hst.
Qed.

Lemma run_pipeline_foreground_status_witness :
  sample_pipeline <> []
  /\ exists (os' : OS) (last_stage : child) (v : Z),
       run_pipeline sample_pipeline false killed_os = (Ret v, os')
       /\ last (children os') = Some last_stage
       /\ length (children os')
          = length (children killed_os) + length sample_pipeline
       /\ v = stage_code (wait_status killed_os (ch_pid last_stage))
       /\ (forall status,
             wait_status killed_os (ch_pid last_stage) = Some status ->
             WIFEXITED status = true -> v = WEXITSTATUS status)
       /\ (forall status,
             wait_status killed_os (ch_pid last_stage) = Some status ->
             WIFSIGNALED status = true -> v = 1%Z)
       /\ (wait_status killed_os (ch_pid last_stage) = None -> v = 1%Z).
Proof.
  assert (Hne : sample_pipeline <> []) by discriminate.
  split; [exact Hne|].
  apply (run_pipeline_foreground_status sample_pipeline killed_os Hne).
  - vm_compute. discriminate.
  - vm_compute. lia.
Defined.

(** C1 as stated fails: a last stage killed by a signal, or one the wait
    for which fails, makes [run_pipeline] return 1 and not 0. *)
Lemma run_pipeline_signal_counterexample :
  ~ (forall (cmds : list command) (os os' : OS) (v : Z) (c : child),
       cmds <> [] ->
       run_pipeline cmds false os = (Ret v, os') ->
       last (children os') = Some c ->
       (exists status, wait_status os (ch_pid c) = Some status
                       /\ WIFSIGNALED status = true)
       \/ wait_status os (ch_pid c) = None ->
       v = 0%Z).
Proof.
  intros H.
  destruct (run_pipeline sample_pipeline false killed_os) as [r os'] eqn:Hrun.
  assert (Hr : r = Ret 1%Z).
  { change r with (fst (r, os')). rewrite <- Hrun. vm_compute. reflexivity. }
  assert (Hc : ch_pid <$> last (children os') = Some 100%Z).
  { change os' with (snd (r, os')). rewrite <- Hrun. vm_compute. reflexivity. }
  destruct (last (children os')) as [c|] eqn:Hlast; [|discriminate Hc].
  subst r.
  specialize (H sample_pipeline killed_os os' 1%Z c).
  assert (1 = 0)%Z; [|lia].
  apply H; [discriminate | exact Hrun | exact Hlast |].
  left. exists 9%Z. split; reflexivity.
Qed.

(** The same with a wait that fails. *)
Example run_pipeline_wait_failure :
  fst (run_pipeline sample_pipeline false unwaited_os) = Ret 1%Z.
Proof. vm_compute. reflexivity. Qed.

(** ** The driver *)

Lemma handle_line_dispatch (line : pystr) :
  strip line <> [] ->
  handle_line line
  = dispatch (parse_pipeline (command_text line)) (background_of line).
Proof.
  intros Hne. unfold handle_line, command_text, background_of.
  by destruct (strip line).
Qed.

Lemma parse_pipeline_nil : parse_pipeline [] = [].
Proof. reflexivity. Qed.

Lemma command_text_nonempty (line : pystr) :
  parse_pipeline (command_text line) <> [] -> strip line <> [].
Proof.
  intros H Hs. apply H. unfold command_text, background_of. by rewrite Hs.
Qed.

Lemma builtin_cd_outcome (cmd_args : list pystr) (os : OS) :
  builtin_cd cmd_args os = (Ret tt, cd_outcome os cmd_args).
Proof.
  unfold builtin_cd, cd_outcome, try_catch, os_chdir.
  destruct (path_error os (cd_target os cmd_args)) as [e|] eqn:E.
  - apply path_error_ValueError in E as [msg ->]. done.
  - by destruct (fs_chdir (fs os) (cwd os) (cd_target os cmd_args)).
Qed.

Lemma cd_outcome_frame (os : OS) (cmd_args : list pystr) :
  children (cd_outcome os cmd_args) = children os
  /\ fds (cd_outcome os cmd_args) = fds os
  /\ next_pipe (cd_outcome os cmd_args) = next_pipe os.
Proof.
  unfold cd_outcome.
  destruct (path_error os (cd_target os cmd_args)); [done|].
  by destruct (fs_chdir (fs os) (cwd os) (cd_target os cmd_args)).
Qed.

(** C10: a single command whose first word is [exit] or [cd] is handled
    by the driver itself, from that word alone.  Whatever the background
    flag and whatever redirections the command carries, [exit] raises
    [SystemExit(0)], which no handler of the loop catches, and leaves the
    state as it was, and [cd] only changes the directory or prints the
    error: no child is spawned and no descriptor is opened, so no file is
    opened or made.  So it is for every line that parses to such a
    command, with or without a final ampersand. *)
Theorem builtins_bypass_executor (c : command) (rest : list pystr) (os : OS) :
  (args c = py "exit" :: rest ->
   (forall background : bool,
      dispatch [c] background os = (Raise (SystemExit 0), os))
   /\ (forall line : pystr,
         parse_pipeline (command_text line) = [c] ->
         handle_line line os = (Raise (SystemExit 0), os)
         /\ main_round_from line os = (Raise (SystemExit 0), os)))
  /\ (args c = py "cd" :: rest ->
      (forall background : bool,
         dispatch [c] background os = (Ret Continue, cd_outcome os (args c)))
      /\ (forall line : pystr,
            parse_pipeline (command_text line) = [c] ->
            handle_line line os = (Ret Continue, cd_outcome os (args c))
            /\ main_round_from line os
               = (Ret Continue, cd_outcome os (args c)))
      /\ children (cd_outcome os (args c)) = children os
      /\ fds (cd_outcome os (args c)) = fds os
      /\ next_pipe (cd_outcome os (args c)) = next_pipe os).
Proof.
  assert (Hline : forall (line : pystr) (out : result ctl * OS),
    (forall background, dispatch [c] background os = out) ->
    parse_pipeline (command_text line) = [c] ->
    handle_line line os = out).
  { intros line out Hd Hparse.
    rewrite handle_line_dispatch, Hparse; [apply Hd|].
    apply command_text_nonempty. by rewrite Hparse. }
  split; intros Hargs.
  - assert (Hd : forall background,
              dispatch [c] background os = (Raise (SystemExit 0), os)).
    { intros background. unfold dispatch. by rewrite Hargs. }
    split; [exact Hd|]. intros line Hparse.
    pose proof (Hline line _ Hd Hparse) as Hh. split; [exact Hh|].
    unfold main_round_from, round_handlers, try_catch. by rewrite Hh.
  - assert (Hd : forall background,
              dispatch [c] background os
              = (Ret Continue, cd_outcome os (args c))).
    { intros background. unfold dispatch. rewrite Hargs. simpl.
      unfold bind. by rewrite builtin_cd_outcome. }
    split; [exact Hd|]. split; [|apply cd_outcome_frame].
    intros line Hparse.
    pose proof (Hline line _ Hd Hparse) as Hh. split; [exact Hh|].
    unfold main_round_from, round_handlers, try_catch. by rewrite Hh.
Qed.

Lemma builtins_bypass_executor_witness :
  parse_pipeline (command_text (py "exit > f &" ++ [Chr.newline]))
  = [Command [py "exit"] None (Some (py "f")) false]
  /\ background_of (py "exit > f &" ++ [Chr.newline]) = true
  /\ forall os : OS,
       handle_line (py "exit > f &" ++ [Chr.newline]) os
       = (Raise (SystemExit 0), os).
Proof.
  split; [reflexivity|]. split; [reflexivity|]. intros os.
  apply (proj2 (proj1 (builtins_bypass_executor
                         (Command [py "exit"] None (Some (py "f")) false)
                         [] os) eq_refl)
           (py "exit > f &" ++ [Chr.newline])).
  reflexivity.
Defined.

(** The same for [cd] with a redirection and an ampersand: the directory
    changes, or the error is printed, and nothing else happens. *)
Example cd_with_redirection_in_background :
  forall os : OS,
    handle_line (py "cd /tmp > out &" ++ [Chr.newline]) os
    = (Ret Continue, cd_outcome os [py "cd"; py "/tmp"])
    /\ (fs_encode_error (fs os) (py "/tmp") = None ->
        cd_outcome os [py "cd"; py "/tmp"]
        = match fs_chdir (fs os) (cwd os) (py "/tmp") with
          | inl d => set_cwd d os
          | inr msg => add_stderr (msg ++ [Chr.newline]) os
          end).
Proof.
  intros os. split.
  - rewrite handle_line_dispatch by discriminate.
    change (parse_pipeline
              (command_text (py "cd /tmp > out &" ++ [Chr.newline])))
      with [Command [py "cd"; py "/tmp"] None (Some (py "out")) false].
    unfold dispatch. simpl. unfold bind. by rewrite builtin_cd_outcome.
  - intros Henc. unfold cd_outcome, path_error. simpl. by rewrite Henc.
Qed.

(** A directory name with a NUL character: [os.chdir] raises
    [ValueError], and its text is what the shell prints. *)
Example cd_embedded_null :
  forall (env : gmap pystr pystr) (ws : Z -> option Z),
    handle_line (py "cd " ++ [0%N; 97%N] ++ [Chr.newline]) (sample_os env ws)
    = (Ret Continue,
       add_stderr (py "embedded null byte" ++ [Chr.newline])
         (sample_os env ws)).
Proof.
  intros env ws. rewrite handle_line_dispatch by discriminate.
  change (parse_pipeline
            (command_text (py "cd " ++ [0%N; 97%N] ++ [Chr.newline])))
    with [Command [py "cd"; [0%N; 97%N]] None None false].
  unfold dispatch. simpl. unfold bind. by rewrite builtin_cd_outcome.
Qed.

(** ** The loop of [main] *)

Lemma keeps_ret {A} (a : A) : keeps_stdin (ret a).
Proof. by intros os os' r [= <- <-]. Qed.

Lemma keeps_raise {A} (e : exn) : keeps_stdin (raise (A := A) e).
Proof. by intros os os' r [= <- <-]. Qed.

Lemma keeps_bind {A B} (m : M A) (k : A -> M B) :
  keeps_stdin m -> (forall a, keeps_stdin (k a)) -> keeps_stdin (bind m k).
Proof.
  intros Hm Hk os os' r. unfold bind.
  destruct (m os) as [[a|e|code|p v] os1] eqn:E; specialize (Hm _ _ _ E).
  - intros H. apply Hk in H. congruence.
  - intros [= <- <-]. done.
  - intros [= <- <-]. done.
  - intros [= <- <-]. done.
Qed.

Lemma keeps_try_catch {A} (catches : exn -> bool) (m : M A) (h : exn -> M A) :
  keeps_stdin m -> (forall e, keeps_stdin (h e)) ->
  keeps_stdin (try_catch catches m h).
Proof.
  intros Hm Hh os os' r. unfold try_catch.
  destruct (m os) as [[a|e|code|p v] os1] eqn:E; specialize (Hm _ _ _ E).
  - intros [= <- <-]. done.
  - destruct (catches e).
    + intros H. apply Hh in H. congruence.
    + intros [= <- <-]. done.
  - intros [= <- <-]. done.
  - intros [= <- <-]. done.
Qed.

Lemma keeps_for_each {A} (l : list A) (body : A -> M unit) :
  (forall x, keeps_stdin (body x)) -> keeps_stdin (for_each l body).
Proof.
  intros Hb. induction l as [|x l IH]; simpl.
  - apply keeps_ret.
  - apply keeps_bind; [apply Hb | by intros _].
Qed.

Lemma keeps_for_acc {A S} (l : list A) (body : A -> S -> M S) :
  (forall x acc, keeps_stdin (body x acc)) ->
  forall acc, keeps_stdin (for_acc l acc body).
Proof.
  intros Hb. induction l as [|x l IH]; intros acc; simpl.
  - apply keeps_ret.
  - apply keeps_bind; [apply Hb | apply IH].
Qed.

Lemma keeps_os_pipe : keeps_stdin os_pipe.
Proof.
  intros os os' r. unfold os_pipe.
  destruct (_ && _); by intros [= <- <-].
Qed.

Lemma keeps_os_fork (body : M unit) : keeps_stdin (os_fork body).
Proof.
  intros os os' r. unfold os_fork.
  destruct (_ <? _); [|by intros [= <- <-]].
  destruct (body (forked os)). by intros [= <- <-].
Qed.

Lemma keeps_os_close (fd : Z) : keeps_stdin (os_close fd).
Proof.
  intros os os' r. unfold os_close.
  destruct (fds os !! fd); by intros [= <- <-].
Qed.

Lemma keeps_os_waitpid (pid : Z) : keeps_stdin (os_waitpid pid).
Proof.
  intros os os' r. unfold os_waitpid.
  destruct (wait_status os pid); by intros [= <- <-].
Qed.

Lemma keeps_os_chdir (target : pystr) : keeps_stdin (os_chdir target).
Proof.
  intros os os' r. unfold os_chdir.
  destruct (path_error os target); [by intros [= <- <-]|].
  destruct (fs_chdir _ _ _); by intros [= <- <-].
Qed.

Lemma keeps_print_err (s : pystr) : keeps_stdin (print_err s).
Proof. by intros os os' r [= <- <-]. Qed.

Lemma keeps_write_out (s : pystr) : keeps_stdin (write_out s).
Proof. by intros os os' r [= <- <-]. Qed.

Lemma keeps_close_pipe (p : Z * Z) : keeps_stdin (close_pipe p).
Proof.
  unfold close_pipe, try_except.
  apply keeps_bind; [|intros _];
    (apply keeps_try_catch; [apply keeps_os_close | intros _; apply keeps_ret]).
Qed.

Lemma keeps_run_pipeline (cmds : list command) (background : bool) :
  keeps_stdin (run_pipeline cmds background).
Proof.
  unfold run_pipeline. destruct (length cmds =? 0); [apply keeps_ret|].
  apply keeps_bind.
  { apply keeps_for_acc. intros _ acc.
    apply keeps_bind; [apply keeps_os_pipe | intros p; apply keeps_ret]. }
  intros pipes. apply keeps_bind.
  { apply keeps_for_acc. intros ic acc.
    apply keeps_bind; [apply keeps_os_fork | intros p; apply keeps_ret]. }
  intros pids. apply keeps_bind.
  { apply keeps_for_each, keeps_close_pipe. }
  intros _. destruct background; [apply keeps_ret|].
  apply keeps_bind; [|intros codes; apply keeps_ret].
  apply keeps_for_acc. intros pid acc. apply keeps_try_catch.
  - apply keeps_bind; [apply keeps_os_waitpid|].
    intros status. destruct (WIFEXITED status); apply keeps_ret.
  - intros _. apply keeps_ret.
Qed.

Lemma keeps_builtin_cd (cmd_args : list pystr) :
  keeps_stdin (builtin_cd cmd_args).
Proof.
  intros os os' r. rewrite builtin_cd_outcome. intros [= <- <-].
  unfold cd_outcome. destruct (path_error _ _); [done|].
  by destruct (fs_chdir _ _ _).
Qed.

Lemma keeps_dispatch (cmds : list command) (background : bool) :
  keeps_stdin (dispatch cmds background).
Proof.
  assert (Hexec : keeps_stdin
    (let* status := run_pipeline cmds background in
     (if negb (status =? 0)%Z then
        print_err (py "Program terminated with exit code "
                   ++ str_of_int status ++ py ".")
      else ret tt) ;;
     ret Continue)).
  { apply keeps_bind; [apply keeps_run_pipeline|]. intros status.
    apply keeps_bind; [|intros _; apply keeps_ret].
    destruct (negb _); [apply keeps_print_err | apply keeps_ret]. }
  unfold dispatch. destruct cmds as [|c [|c' cmds']];
    [apply keeps_ret | | exact Hexec].
  destruct (args c) as [|a0 rest]; [apply keeps_raise|].
  destruct (pystr_eqb a0 (py "exit")); [apply keeps_raise|].
  destruct (pystr_eqb a0 (py "cd")); [|exact Hexec].
  apply keeps_bind; [apply keeps_builtin_cd | intros _; apply keeps_ret].
Qed.

Lemma keeps_handle_line (line : pystr) : keeps_stdin (handle_line line).
Proof.
  unfold handle_line. destruct (strip line); [apply keeps_ret|].
  apply keeps_dispatch.
Qed.

(** A round that asks for another one has taken a line or an exception
    off the input. *)
Lemma main_round_reads (prompt : pystr) (interactive : bool)
    (os os' : OS) :
  main_round prompt interactive os = (Ret Continue, os') ->
  length (stdin os') < length (stdin os).
Proof.
  unfold main_round, round_handlers, try_catch.
  set (body := bind _ _).
  assert (Hbody : forall r os1, body os = (r, os1) ->
            (r = Ret Break /\ stdin os1 = stdin os)
            \/ length (stdin os1) < length (stdin os)).
  { intros r os1. unfold body, bind.
    destruct ((if interactive && negb (bool_decide (prompt = []))
               then write_out prompt else ret tt) os) as [r0 os0] eqn:E0.
    assert (H0 : r0 = Ret tt /\ stdin os0 = stdin os).
    { destruct (interactive && negb (bool_decide (prompt = [])));
        by injection E0 as <- <-. }
    destruct H0 as [-> H0]. unfold readline. rewrite H0.
    destruct (stdin os) as [|[l|e] rest] eqn:Hin.
    - intros [= <- <-]. left. by rewrite H0.
    - destruct l as [|ch l'].
      + intros [= <- <-]. right. simpl. lia.
      + intros H. apply keeps_handle_line in H. right. rewrite H. simpl. lia.
    - intros [= <- <-]. right. simpl. lia. }
  destruct (body os) as [[c|e|code|p v] os1] eqn:E;
    destruct (Hbody _ _ eq_refl) as [[Hr Hs] | Hlt]; try discriminate Hr.
  - intros [= -> <-]. discriminate Hr.
  - by intros [= -> <-].
  - destruct e; unfold ret, bind, write_out; simpl; try discriminate.
    by intros [= <-].
  - discriminate.
  - discriminate.
Qed.

(** The loop of [main] ends because the input does: rounds beyond one
    more than what is left of it are never run. *)
Lemma main_loop_fuel (prompt : pystr) (interactive : bool) (n : nat) :
  forall (k : nat) (os : OS),
    length (stdin os) < n -> length (stdin os) < k ->
    main_loop n prompt interactive os = main_loop k prompt interactive os.
Proof.
  induction n as [|n IH]; intros k os Hn Hk; [lia|].
  destruct k as [|k]; [lia|]. simpl. unfold bind.
  destruct (main_round prompt interactive os) as [[c|e|code|p v] os1] eqn:E;
    try done.
  destruct c; [|done].
  apply main_round_reads in E. apply IH; lia.
Qed.

(** ** Sample runs *)

Example tokenize_three_words :
  tokenize (py "a b c") = [py "a"; py "b"; py "c"].
Proof. reflexivity. Qed.

Example tokenize_quoted_words :
  tokenize (dq (py "a b")) = [py "a b"]
  /\ tokenize (py "say 'it\'s' >>log") = [py "say"; py "it's"; py ">>"; py "log"].
Proof. split; reflexivity. Qed.

(** A backslash before the closing quote: the engine first takes the pair
    as an escape, finds no closing quote, and comes back. *)
Example tokenize_backtracks :
  tokenize (dq (py "a\") ++ py " b") = [py "a\"; py "b"].
Proof. reflexivity. Qed.

Example tokenize_empty_quotes : tokenize (py "a '' b") = [py "a"].
Proof. reflexivity. Qed.

Example parse_two_stages :
  parse_pipeline (py "cat < in | wc -c >> out")
  = [Command [py "cat"] (Some (py "in")) None false;
     Command [py "wc"; py "-c"] None (Some (py "out")) true].
Proof. reflexivity. Qed.

Example parse_empty_segments : parse_pipeline (py "| > f | a b <")
  = [Command [py "a"; py "b"] None None false].
Proof. reflexivity. Qed.

(** Two stages: the first child writes to the pipe, the second reads from
    it, and the parent is left with its three descriptors. *)
Example run_two_stages :
  let r := run_pipeline (parse_pipeline (py "sleep 1 | sleep 2")) false
             (sample_os sample_env (fun _ => Some 0%Z)) in
  fst r = Ret 0%Z
  /\ fds (snd r) = std_fds
  /\ reaped (snd r) = [100%Z; 107%Z]
  /\ ((fun c => (ch_pid c, ch_end c, ch_fds c !! 0%Z, ch_fds c !! 1%Z))
        <$> children (snd r))
     = [(100%Z, Execed (py "/bin/sleep") [py "sleep"; py "1"],
         Some (Inherited 0), Some (PipeWrite 0));
        (107%Z, Execed (py "/bin/sleep") [py "sleep"; py "2"],
         Some (PipeRead 0), Some (Inherited 1))].
Proof. vm_compute. repeat split. Qed.

(** A name with a NUL character: the search raises [ValueError], which
    nothing in the child catches, so the child prints no [command not
    found] and ends with the exception. *)
Example run_embedded_null :
  let r := run_pipeline [Command [[97%N; 0%N; 98%N]] None None false] true
             (sample_os sample_env (fun _ => Some 256%Z)) in
  fst r = Ret 0%Z
  /\ ((fun c => (ch_end c, ch_stderr c)) <$> children (snd r))
     = [(Raise null_error, [])].
Proof. vm_compute. repeat split. Qed.

(** An argument with a NUL character: [os.execve] raises [ValueError],
    which the [try] around it reports as a name not found. *)
Example run_null_argument :
  let r := run_pipeline [Command [py "sleep"; [0%N]] None None false] true
             (sample_os sample_env (fun _ => Some 256%Z)) in
  ((fun c => (ch_end c, ch_stderr c)) <$> children (snd r))
  = [(Exited 1, [py "sleep: command not found" ++ [Chr.newline]])].
Proof. vm_compute. repeat split. Qed.

(** A name that is not found: the child prints the message and exits
    with 1, and the driver reports the status. *)
Example run_not_found :
  let r := handle_line (py "nosuchcmd")
             (sample_os sample_env (fun _ => Some 256%Z)) in
  fst r = Ret Continue
  /\ stderr (snd r) = [py "Program terminated with exit code 1." ++ [Chr.newline]]
  /\ ((fun c => (ch_end c, ch_stderr c)) <$> children (snd r))
     = [(Exited 1, [py "nosuchcmd: command not found" ++ [Chr.newline]])].
Proof. vm_compute. repeat split. Qed.

(** * Further properties *)

(** ** The lexer *)

Lemma lex_run_Forall (P : pystr -> Prop) :
  (forall s m, token_re_match s = Some m -> P (token_of m)) ->
  forall s toks r, lex_run s toks r -> Forall P toks.
Proof.
  intros HP s toks r. induction 1 as [s | s m toks r Hm _ IH]; [done|].
  constructor; [by apply (HP s) | exact IH].
Qed.

Lemma tokenize_Forall (P : pystr -> Prop) (s : pystr) :
  (forall s m, token_re_match s = Some m -> P (token_of m)) ->
  Forall P (tokenize s).
Proof.
  intros HP. destruct (tokenize_lex_run (length s) s) as (r & Hrun & _); [done|].
  by apply (lex_run_Forall P HP s _ r).
Qed.

Lemma quoted_body_nonempty (q : N) (s b r : pystr) :
  quoted_body q false s = Some (b, r) -> b <> [].
Proof.
  destruct s as [|c s']; [done|]. simpl.
  assert (Hplain :
    (if (c =? q)%N then None
     else match quoted_body q true s' with
          | Some (b0, r0) => Some (c :: b0, r0)
          | None => None
          end) = Some (b, r) -> b <> []).
  { destruct (c =? q)%N; [done|].
    destruct (quoted_body q true s') as [[b0 r0]|]; [|done].
    by intros [= <- <-]. }
  destruct s' as [|d s'']; [exact Hplain|].
  destruct ((c =? Chr.backslash)%N && negb (d =? Chr.newline)%N);
    [|exact Hplain].
  destruct (quoted_body q true s'') as [[b0 r0]|]; [|exact Hplain].
  by intros [= <- <-].
Qed.

Lemma replace_escaped_nonempty (q : N) (s : pystr) :
  s <> [] -> replace_escaped q s <> [].
Proof.
  destruct s as [|c [|d s']]; [done | done |]. intros _. simpl.
  by destruct ((c =? Chr.backslash)%N && (d =? q)%N).
Qed.

Lemma token_alternatives_nonempty (s : pystr) (m : rmatch) :
  token_alternatives s = Some m -> token_of m <> [].
Proof.
  destruct s as [|c s']; [done|]. unfold token_alternatives.
  assert (Hq : forall q g,
    (g = GDouble /\ q = Chr.dquote) \/ (g = GSingle /\ q = Chr.squote) ->
    match quoted_body q false s' with
    | Some (b, r) => Some (RMatch g b r)
    | None => None
    end = Some m -> token_of m <> []).
  { intros q g Hg. destruct (quoted_body q false s') as [[b r]|] eqn:Hb; [|done].
    intros [= <-]. apply quoted_body_nonempty in Hb.
    destruct Hg as [[-> ->] | [-> ->]]; by apply replace_escaped_nonempty. }
  assert (Hbare :
    match bare_run (c :: s') with
    | ((_ :: _) as w, r) => Some (RMatch GBare w r)
    | ([], _) =>
        if (c =? Chr.dquote)%N then
          match quoted_body Chr.dquote false s' with
          | Some (b, r) => Some (RMatch GDouble b r)
          | None => None
          end
        else if (c =? Chr.squote)%N then
          match quoted_body Chr.squote false s' with
          | Some (b, r) => Some (RMatch GSingle b r)
          | None => None
          end
        else None
    end = Some m -> token_of m <> []).
  { destruct (bare_run (c :: s')) as [[|x w] r].
    - destruct (c =? Chr.dquote)%N; [apply Hq; by left|].
      destruct (c =? Chr.squote)%N; [apply Hq; by right | done].
    - by intros [= <-]. }
  destruct s' as [|d r]; [exact Hbare|].
  destruct ((c =? Chr.gt)%N && (d =? Chr.gt)%N); [|exact Hbare].
  by intros [= <-].
Qed.

Lemma token_re_match_nonempty (s : pystr) (m : rmatch) :
  token_re_match s = Some m -> token_of m <> [].
Proof.
  induction s as [|c s IH]; simpl; [done|].
  destruct (is_space c); [|apply token_alternatives_nonempty].
  destruct (token_re_match s) as [m'|].
  - intros [= <-]. by apply IH.
  - apply token_alternatives_nonempty.
Qed.

(** X1: no token is the empty string. *)
Theorem tokenize_tokens_nonempty (s : pystr) :
  Forall (fun tok => tok <> []) (tokenize s).
Proof. apply tokenize_Forall. apply token_re_match_nonempty. Qed.

Lemma bare_run_word (w rest : pystr) :
  Forall (fun c => is_bare_char c = true) w -> ends_word rest ->
  bare_run (w ++ rest) = (w, rest).
Proof.
  intros Hw Hrest. induction Hw as [|c w Hc _ IH]; simpl.
  - destruct rest as [|c rest]; [done|]. simpl in *.
    unfold is_bare_char in Hrest. apply negb_false_iff in Hrest.
    by rewrite Hrest.
  - unfold is_bare_char in Hc. apply negb_true_iff in Hc.
    by rewrite Hc, IH.
Qed.

Lemma is_bare_char_not_space (c : N) :
  is_bare_char c = true -> is_space c = false.
Proof.
  unfold is_bare_char. rewrite negb_true_iff, !orb_false_iff. tauto.
Qed.

(** X2: a bare word at the head of the input is one token, whatever
    follows it.  The word is a non-empty run of characters that are neither
    white space nor quotes, it does not begin with the append operator,
    and what follows it does not go on with such a character. *)
Theorem tokenize_bare_word (w rest : pystr) :
  w <> [] ->
  Forall (fun c => is_bare_char c = true) w ->
  ~ py ">>" `prefix_of` w ->
  ends_word rest ->
  tokenize (w ++ rest) = w :: tokenize rest.
Proof.
  intros Hne Hw Hpre Hrest.
  assert (Hm : token_re_match (w ++ rest) = Some (RMatch GBare w rest)).
  { destruct w as [|c w']; [done|].
    apply Forall_cons in Hw as Hcw. destruct Hcw as [Hc Hw'].
    pose proof (bare_run_word (c :: w') rest Hw Hrest) as Hrun.
    change ((c :: w') ++ rest) with (c :: w' ++ rest) in Hrun.
    cbn [app token_re_match]. rewrite (is_bare_char_not_space c Hc).
    unfold token_alternatives. rewrite Hrun.
    destruct (w' ++ rest) as [|d r] eqn:Hs'; [done|].
    destruct ((c =? Chr.gt)%N && (d =? Chr.gt)%N) eqn:Hgt; [|done].
    apply andb_true_iff in Hgt as [Hcg Hdg].
    apply N.eqb_eq in Hcg as ->. apply N.eqb_eq in Hdg as ->.
    destruct w' as [|d' w'']; simpl in Hs'.
    - subst rest. simpl in Hrest. discriminate Hrest.
    - injection Hs' as -> _. exfalso. apply Hpre. by exists w''. }
  by rewrite tokenize_unfold, Hm.
Qed.

Lemma tokenize_bare_word_witness :
  tokenize (py "wc -l") = py "wc" :: tokenize (py " -l").
Proof.
  apply (tokenize_bare_word (py "wc") (py " -l")).
  - discriminate.
  - repeat constructor.
  - intros [k Hk]. discriminate Hk.
  - reflexivity.
Defined.

Lemma quoted_body_escaped (q : N) (rest : pystr) :
  is_quote q ->
  forall (s : pystr) (started : bool),
    started = true \/ s <> [] -> Chr.backslash ∉ s ->
    quoted_body q started (escape_quote q s ++ q :: rest)
    = Some (escape_quote q s, rest).
Proof.
  intros Hq.
  assert (Hqb : (q =? Chr.backslash)%N = false) by (by destruct Hq as [-> | ->]).
  assert (Hqn : (q =? Chr.newline)%N = false) by (by destruct Hq as [-> | ->]).
  induction s as [|c s IH]; intros started Hst Hbs.
  - destruct Hst as [-> | ?]; [|done]. simpl.
    rewrite Hqb, N.eqb_refl. simpl. by destruct rest.
  - apply not_elem_of_cons in Hbs as [Hc Hs].
    assert (Hcb : (c =? Chr.backslash)%N = false)
      by (apply N.eqb_neq; congruence).
    specialize (IH true (or_introl eq_refl) Hs).
    simpl escape_quote. destruct (c =? q)%N eqn:Hcq.
    + cbn [app quoted_body]. rewrite N.eqb_refl, Hqn. simpl. by rewrite IH.
    + cbn [app quoted_body]. rewrite Hcb, Hcq, IH. simpl.
      by destruct (escape_quote q s ++ q :: rest).
Qed.

Lemma replace_escaped_escape (q : N) (s : pystr) :
  Chr.backslash ∉ s -> replace_escaped q (escape_quote q s) = s.
Proof.
  induction s as [|c s IH]; intros Hbs; [done|].
  apply not_elem_of_cons in Hbs as [Hc Hs].
  assert (Hcb : (c =? Chr.backslash)%N = false)
    by (apply N.eqb_neq; congruence).
  specialize (IH Hs). simpl escape_quote. destruct (c =? q)%N eqn:Hcq.
  - apply N.eqb_eq in Hcq as ->. cbn [replace_escaped].
    rewrite !N.eqb_refl. simpl. by rewrite IH.
  - cbn [replace_escaped]. rewrite Hcb. simpl. rewrite IH.
    by destruct (escape_quote q s) eqn:He; [destruct s|].
Qed.

(** X3: quoting round trip.  A non-empty word without backslashes,
    written between quotes of either kind with a backslash before each
    inner quote of that kind, lexes back to the word itself, as one token,
    white space and quotes of the other kind included; the lexer goes on
    after the closing quote. *)
Theorem tokenize_quoted_round_trip (q : N) (s rest : pystr) :
  is_quote q -> s <> [] -> Chr.backslash ∉ s ->
  tokenize (q :: escape_quote q s ++ q :: rest) = s :: tokenize rest.
Proof.
  intros Hq Hne Hbs.
  pose proof (quoted_body_escaped q rest Hq s false (or_intror Hne) Hbs) as Hb.
  pose proof (replace_escaped_escape q s Hbs) as Hr.
  rewrite tokenize_unfold.
  assert (Hm : exists m,
    token_re_match (q :: escape_quote q s ++ q :: rest) = Some m
    /\ token_of m = s /\ m_rest m = rest).
  { destruct Hq as [-> | ->].
    - eexists. split; [|split].
      + cbn [token_re_match]. change (is_space Chr.dquote) with false.
        cbv iota. unfold token_alternatives. cbn [bare_run].
        change (is_space Chr.dquote) with false. rewrite N.eqb_refl.
        cbn [orb]. cbv iota. rewrite Hb.
        change (Chr.dquote =? Chr.gt)%N with false. cbn [andb].
        by destruct (escape_quote Chr.dquote s ++ Chr.dquote :: rest).
      + exact Hr.
      + done.
    - eexists. split; [|split].
      + cbn [token_re_match]. change (is_space Chr.squote) with false.
        cbv iota. unfold token_alternatives. cbn [bare_run].
        change (is_space Chr.squote) with false. rewrite N.eqb_refl.
        change (Chr.squote =? Chr.dquote)%N with false.
        cbn [orb]. cbv iota. rewrite Hb.
        change (Chr.squote =? Chr.gt)%N with false. cbn [andb].
        by destruct (escape_quote Chr.squote s ++ Chr.squote :: rest).
      + exact Hr.
      + done. }
  destruct Hm as (m & -> & -> & ->). done.
Qed.

Lemma tokenize_quoted_round_trip_witness :
  tokenize (Chr.squote :: escape_quote Chr.squote (py "it's 5 o'clock")
            ++ Chr.squote :: py " now")
  = py "it's 5 o'clock" :: tokenize (py " now").
Proof.
  apply (tokenize_quoted_round_trip Chr.squote (py "it's 5 o'clock")
           (py " now")).
  - by right.
  - discriminate.
  - apply (bool_decide_eq_false_1 (Chr.backslash ∈ py "it's 5 o'clock")).
    reflexivity.
Defined.

Lemma token_re_match_lstrip (ws s : pystr) :
  Forall (fun c => is_space c = true) ws ->
  token_re_match (ws ++ s) = token_re_match s.
Proof.
  induction 1 as [|c ws Hc _ IH]; [done|]. simpl. rewrite Hc, IH.
  destruct (token_re_match s); [done|]. by apply token_alternatives_space.
Qed.

(** X4: white space before the first token changes nothing. *)
Theorem tokenize_leading_whitespace (ws s : pystr) :
  Forall (fun c => is_space c = true) ws ->
  tokenize (ws ++ s) = tokenize s.
Proof.
  intros Hws. rewrite tokenize_unfold, (tokenize_unfold s).
  by rewrite token_re_match_lstrip.
Qed.

Lemma tokenize_leading_whitespace_witness :
  tokenize (py "   " ++ py "ls -l") = tokenize (py "ls -l").
Proof.
  apply (tokenize_leading_whitespace (py "   ") (py "ls -l")).
  repeat constructor.
Defined.

(** ** The parser *)

Lemma join_segments_cons (seg : list pystr) (rest : list (list pystr)) :
  rest <> [] ->
  join_segments (seg :: rest) = seg ++ py "|" :: join_segments rest.
Proof. by destruct rest. Qed.

Lemma join_segments_snoc_app (L : list (list pystr)) (c x : list pystr) :
  join_segments (L ++ [c ++ x]) = join_segments (L ++ [c]) ++ x.
Proof.
  induction L as [|a L IH]; [done|].
  rewrite <- !app_comm_cons, !join_segments_cons by (by destruct L).
  by rewrite IH, <- app_assoc.
Qed.

Lemma join_segments_snoc_nil (L : list (list pystr)) (c : list pystr) :
  join_segments (L ++ [c; []]) = join_segments (L ++ [c]) ++ [py "|"].
Proof.
  induction L as [|a L IH]; [done|].
  rewrite <- !app_comm_cons, !join_segments_cons by (by destruct L).
  by rewrite IH, <- app_assoc.
Qed.

Lemma split_segments_join (tokens : list pystr) :
  forall (segs : list (list pystr)) (cur : list pystr),
    join_segments (split_segments tokens segs cur)
    = join_segments (segs ++ [cur]) ++ tokens.
Proof.
  induction tokens as [|t tokens IH]; intros segs cur; simpl.
  - by rewrite app_nil_r.
  - unfold pystr_eqb. case_bool_decide as Ht.
    + rewrite IH, <- app_assoc. simpl. rewrite join_segments_snoc_nil.
      rewrite <- app_assoc. by subst t.
    + rewrite IH, join_segments_snoc_app, <- app_assoc. done.
Qed.

Lemma split_segments_no_bar (tokens : list pystr) :
  forall (segs : list (list pystr)) (cur : list pystr),
    Forall (fun seg => py "|" ∉ seg) segs -> py "|" ∉ cur ->
    Forall (fun seg => py "|" ∉ seg) (split_segments tokens segs cur).
Proof.
  induction tokens as [|t tokens IH]; intros segs cur Hsegs Hcur; simpl.
  - apply Forall_app. by repeat constructor.
  - unfold pystr_eqb. case_bool_decide as Ht.
    + apply IH; [|apply not_elem_of_nil].
      apply Forall_app. by repeat constructor.
    + apply IH; [done|]. rewrite elem_of_app, list_elem_of_singleton.
      intros [?|?]; [done | congruence].
Qed.

Lemma split_segments_length (tokens : list pystr) :
  forall (segs : list (list pystr)) (cur : list pystr),
    length (split_segments tokens segs cur)
    = length segs + S (length (filter (fun t => t = py "|") tokens)).
Proof.
  induction tokens as [|t tokens IH]; intros segs cur; simpl.
  - rewrite length_app. simpl. lia.
  - unfold pystr_eqb. rewrite filter_cons. case_bool_decide as Ht.
    + rewrite decide_True by done. rewrite IH, length_app. simpl. lia.
    + rewrite decide_False by done. by rewrite IH.
Qed.

(** X5: the split at the bars loses nothing but the bars: written out
    again with a bar between them, the segments are the token list; no
    segment holds a bar; and there is one segment more than there are
    bars. *)
Theorem split_segments_round_trip (tokens : list pystr) :
  join_segments (split_segments tokens [] []) = tokens
  /\ Forall (fun seg => py "|" ∉ seg) (split_segments tokens [] [])
  /\ length (split_segments tokens [] [])
     = S (length (filter (fun t => t = py "|") tokens)).
Proof.
  split; [|split].
  - by rewrite split_segments_join.
  - apply split_segments_no_bar; [done | apply not_elem_of_nil].
  - by rewrite split_segments_length.
Qed.

Lemma scan_loop_invariant (P : scan -> Prop) (seg : list pystr) :
  (forall st, P st -> s_i st < length seg -> P (scan_step seg st)) ->
  forall (fuel : nat) (st : scan), P st -> P (scan_loop fuel seg st).
Proof.
  intros Hstep. induction fuel as [|fuel IH]; intros st Hst; simpl; [done|].
  destruct (s_i st <? length seg) eqn:Hlt; [|done].
  apply IH, Hstep; [done|]. by apply Nat.ltb_lt.
Qed.

Lemma take_sublist_le {A} (l : list A) (n m : nat) :
  n <= m -> take n l `sublist_of` take m l.
Proof.
  intros Hnm. replace (take n l) with (take n (take m l)).
  - apply sublist_take.
  - rewrite take_take. f_equal. lia.
Qed.

Lemma is_redir_false (tok : pystr) :
  pystr_eqb tok (py ">") = false -> pystr_eqb tok (py ">>") = false ->
  pystr_eqb tok (py "<") = false -> is_redir tok = false.
Proof. intros H1 H2 H3. unfold is_redir. by rewrite H1, H2, H3. Qed.

Lemma scan_step_inv (seg : list pystr) (st : scan) :
  scan_inv seg st -> s_i st < length seg -> scan_inv seg (scan_step seg st).
Proof.
  intros (Hsub & Hargs & Hin & Hout) Hi. unfold scan_step.
  destruct (seg !! s_i st) as [tok|] eqn:Htok;
    [|apply lookup_ge_None in Htok; lia].
  assert (Hsub2 : s_args st `sublist_of` take (S (S (s_i st))) seg).
  { etrans; [exact Hsub|]. apply take_sublist_le. lia. }
  assert (Hnext : forall t, seg !! S (s_i st) = Some t -> t ∈ seg).
  { intros t. apply list_elem_of_lookup_2. }
  destruct (pystr_eqb tok (py ">")) eqn:E1; [by repeat split|].
  destruct (pystr_eqb tok (py ">>")) eqn:E2.
  { destruct (seg !! S (s_i st)) as [t|] eqn:Ht; by repeat split. }
  destruct (pystr_eqb tok (py "<")) eqn:E3; [by repeat split|].
  repeat split; simpl; try done.
  - rewrite (take_S_r _ _ _ Htok). by apply sublist_app.
  - apply Forall_app. split; [done|]. constructor; [|done].
    by apply is_redir_false.
Qed.

Lemma scan_segment_inv (seg : list pystr) : scan_inv seg (scan_segment seg).
Proof.
  unfold scan_segment.
  apply (scan_loop_invariant (scan_inv seg)); [apply scan_step_inv|].
  repeat split; simpl; try done.
Qed.

Lemma parse_segments_elem (segments : list (list pystr)) :
  forall (cmds : list command) (c : command),
    c ∈ parse_segments segments cmds ->
    c ∈ cmds \/ exists seg, seg ∈ segments /\ segment_command seg = Some c.
Proof.
  induction segments as [|seg segments IH]; intros cmds c; simpl; [by left|].
  destruct (segment_command seg) as [c'|] eqn:Hseg; intros Hc;
    apply IH in Hc as [Hc | (seg' & Hin & Hc)].
  - apply elem_of_app in Hc as [Hc | Hc]; [by left|].
    apply list_elem_of_singleton in Hc as ->. right. exists seg.
    split; [apply list_elem_of_here | done].
  - right. exists seg'. split; [by apply list_elem_of_further | done].
  - by left.
  - right. exists seg'. split; [by apply list_elem_of_further | done].
Qed.

Lemma join_segments_sublist (L : list (list pystr)) (seg : list pystr) :
  seg ∈ L -> seg `sublist_of` join_segments L.
Proof.
  induction L as [|a L IH]; intros Hin; [by apply elem_of_nil in Hin|].
  destruct (decide (L = [])) as [-> | HL].
  - apply list_elem_of_singleton in Hin as ->. done.
  - rewrite join_segments_cons by done.
    apply elem_of_cons in Hin as [-> | Hin].
    + by apply sublist_inserts_r.
    + apply sublist_inserts_l, sublist_cons, IH, Hin.
Qed.

(** X6: what a command holds comes from the line.  For every command the
    parser returns, its arguments are tokens of the line in the order of
    the line, none of them an operator, and its redirection targets are
    tokens of the line other than the bar. *)
Theorem parse_tokens_from_line (tokens : list pystr) (c : command) :
  c ∈ parse_tokens tokens ->
  args c `sublist_of` tokens
  /\ Forall is_word (args c)
  /\ (forall t, infile c = Some t \/ outfile c = Some t ->
                t ∈ tokens /\ t <> py "|").
Proof.
  intros Hc. unfold parse_tokens in Hc.
  destruct tokens as [|t0 tokens']; [by apply elem_of_nil in Hc|].
  set (tokens := t0 :: tokens') in *.
  apply parse_segments_elem in Hc as [Hc | (seg & Hseg & Hc)];
    [by apply elem_of_nil in Hc|].
  pose proof (split_segments_join tokens [] []) as Hjoin. simpl in Hjoin.
  pose proof (split_segments_no_bar tokens [] [] ltac:(done)
                ltac:(apply not_elem_of_nil)) as Hbar.
  assert (Hsub : seg `sublist_of` tokens).
  { rewrite <- Hjoin. by apply join_segments_sublist. }
  assert (Hnobar : py "|" ∉ seg).
  { rewrite Forall_forall in Hbar. by apply Hbar. }
  destruct (scan_segment_inv seg) as (Hargs & Hred & Hin & Hout).
  unfold segment_command in Hc. cbv zeta in Hc.
  destruct (s_args (scan_segment seg)) as [|a l] eqn:Ha; [done|].
  injection Hc as <-. simpl.
  assert (Hargs_seg : (a :: l) `sublist_of` seg).
  { etrans; [exact Hargs | apply sublist_take]. }
  split; [by etrans|]. split.
  - apply Forall_forall. intros x Hx. split.
    + rewrite Forall_forall in Hred. by apply Hred.
    + intros ->. apply Hnobar. by apply (sublist_subseteq _ _ Hargs_seg).
  - intros t [Ht | Ht]; [apply Hin in Ht | apply Hout in Ht];
      (split; [by apply (sublist_subseteq _ _ Hsub) | by intros ->]).
Qed.

Lemma parse_tokens_from_line_witness :
  Command [py "wc"; py "-c"] None (Some (py "out")) true
    ∈ parse_tokens (tokenize (py "cat < in | wc >> out -c"))
  /\ [py "wc"; py "-c"]
       `sublist_of` tokenize (py "cat < in | wc >> out -c").
Proof.
  assert (H : Command [py "wc"; py "-c"] None (Some (py "out")) true
                ∈ parse_tokens (tokenize (py "cat < in | wc >> out -c"))).
  { replace (parse_tokens (tokenize (py "cat < in | wc >> out -c")))
      with [Command [py "cat"] (Some (py "in")) None false;
            Command [py "wc"; py "-c"] None (Some (py "out")) true]
      by (vm_compute; reflexivity).
    apply list_elem_of_further, list_elem_of_here. }
  split; [exact H|].
  exact (proj1 (parse_tokens_from_line _ _ H)).
Defined.

Lemma split_segments_words (tokens : list pystr) :
  Forall (fun t => t <> py "|") tokens ->
  forall (segs : list (list pystr)) (cur : list pystr),
    split_segments tokens segs cur = segs ++ [cur ++ tokens].
Proof.
  induction 1 as [|t tokens Ht _ IH]; intros segs cur; simpl.
  - by rewrite app_nil_r.
  - unfold pystr_eqb. rewrite bool_decide_eq_false_2 by done.
    by rewrite IH, <- app_assoc.
Qed.

Lemma scan_loop_words (seg : list pystr) :
  Forall (fun t => is_redir t = false) seg ->
  forall (fuel i : nat),
    i <= length seg -> length seg - i <= fuel ->
    scan_loop fuel seg (Scan i None None false (take i seg))
    = Scan (length seg) None None false seg.
Proof.
  intros Hseg. induction fuel as [|fuel IH]; intros i Hi Hf.
  - assert (i = length seg) as -> by lia. simpl. by rewrite take_ge.
  - simpl. destruct (i <? length seg) eqn:Hlt.
    + apply Nat.ltb_lt in Hlt.
      destruct (lookup_lt_is_Some_2 seg i Hlt) as [tok Htok].
      assert (Hr : is_redir tok = false).
      { rewrite Forall_forall in Hseg. apply Hseg.
        by apply list_elem_of_lookup_2 in Htok. }
      unfold is_redir in Hr. apply orb_false_iff in Hr as [Hr H3].
      apply orb_false_iff in Hr as [H1 H2].
      unfold scan_step. simpl. rewrite Htok, H1, H2, H3.
      rewrite <- (take_S_r _ _ _ Htok). apply IH; lia.
    + apply Nat.ltb_ge in Hlt. assert (i = length seg) as -> by lia.
      by rewrite take_ge.
Qed.

(** X7: a line of plain words is one command.  When there is at least one
    token and none is an operator, the parser returns a single command
    whose arguments are the tokens, with no redirection. *)
Theorem parse_tokens_words (tokens : list pystr) :
  tokens <> [] -> Forall is_word tokens ->
  parse_tokens tokens = [Command tokens None None false].
Proof.
  intros Hne Hw. unfold parse_tokens.
  destruct tokens as [|t0 tokens']; [done|].
  set (tokens := t0 :: tokens') in *.
  rewrite (split_segments_words tokens) by (eapply Forall_impl; [exact Hw|];
    by intros t [_ Ht]).
  simpl. unfold segment_command, scan_segment, scan_init. cbv zeta.
  pose proof (scan_loop_words tokens) as Hscan.
  specialize (Hscan ltac:(eapply Forall_impl; [exact Hw|]; by intros t [Ht _])
                (length tokens) 0 ltac:(lia) ltac:(lia)).
  simpl take in Hscan. rewrite Hscan. done.
Qed.

Lemma parse_tokens_words_witness :
  parse_tokens (tokenize (py "grep -n 'two words' file"))
  = [Command (tokenize (py "grep -n 'two words' file")) None None false].
Proof.
  apply (parse_tokens_words (tokenize (py "grep -n 'two words' file"))).
  - discriminate.
  - repeat constructor; discriminate.
Defined.

Lemma scan_loop_fuel (n : nat) :
  forall (k : nat) (seg : list pystr) (st : scan),
    length seg - s_i st <= n -> length seg - s_i st <= k ->
    scan_loop n seg st = scan_loop k seg st.
Proof.
  induction n as [|n IH]; intros k seg st Hn Hk.
  - rewrite !scan_loop_stop by lia. done.
  - destruct (decide (s_i st < length seg)) as [Hlt | Hge].
    + destruct k as [|k]; [lia|]. simpl.
      apply Nat.ltb_lt in Hlt as Hlt'. rewrite Hlt'.
      pose proof (scan_step_i seg st Hlt). apply IH; lia.
    + rewrite !scan_loop_stop by lia. done.
Qed.

Lemma scan_step_app (pre suf : list pystr) (st : scan) :
  s_i st < length pre -> s_i (scan_step pre st) <= length pre ->
  scan_step (pre ++ suf) st = scan_step pre st.
Proof.
  intros Hi. unfold scan_step. rewrite lookup_app_l by done.
  destruct (pre !! s_i st) as [tok|]; [|done].
  assert (Hnext : S (S (s_i st)) <= length pre ->
                  (pre ++ suf) !! S (s_i st) = pre !! S (s_i st)).
  { intros H. apply lookup_app_l. lia. }
  destruct (pystr_eqb tok (py ">"));
    [simpl; intros H; by rewrite (Hnext H)|].
  destruct (pystr_eqb tok (py ">>")).
  { destruct (pre !! S (s_i st)) eqn:E; simpl; intros H;
      by rewrite (Hnext H). }
  destruct (pystr_eqb tok (py "<"));
    [simpl; intros H; by rewrite (Hnext H)|].
  done.
Qed.

(** When the scan of [pre] ends exactly at its end, the scan of a longer
    segment goes through the same state. *)
Lemma scan_loop_app (pre suf : list pystr) (fuel : nat) :
  forall st : scan,
    s_i st <= length pre -> length pre - s_i st <= fuel ->
    s_i (scan_loop fuel pre st) = length pre ->
    forall fuel' : nat,
      length (pre ++ suf) - s_i st <= fuel' ->
      scan_loop fuel' (pre ++ suf) st
      = scan_loop fuel' (pre ++ suf) (scan_loop fuel pre st).
Proof.
  induction fuel as [|fuel IH]; intros st Hle Hf Hend fuel' Hf'; [done|].
  simpl in *. destruct (s_i st <? length pre) eqn:Hlt; [|done].
  apply Nat.ltb_lt in Hlt.
  pose proof (scan_step_i pre st Hlt) as Hstep.
  assert (Hin : s_i (scan_step pre st) <= length pre).
  { destruct (decide (s_i (scan_step pre st) <= length pre)); [done|].
    rewrite scan_loop_stop in Hend by lia. lia. }
  rewrite length_app in Hf'.
  destruct fuel' as [|fuel']; [lia|]. cbn [scan_loop].
  assert (Hlt' : (s_i st <? length (pre ++ suf)) = true).
  { apply Nat.ltb_lt. rewrite length_app. lia. }
  rewrite Hlt', (scan_step_app pre suf st Hlt Hin).
  rewrite (IH (scan_step pre st) Hin ltac:(lia) Hend fuel')
    by (rewrite length_app; lia).
  apply (scan_loop_fuel fuel' (S fuel') (pre ++ suf)
           (scan_loop fuel pre (scan_step pre st)));
    rewrite Hend, length_app; lia.
Qed.

Lemma scan_segment_app (pre suf : list pystr) :
  s_i (scan_segment pre) = length pre ->
  scan_segment (pre ++ suf)
  = scan_loop (length suf) (pre ++ suf) (scan_segment pre).
Proof.
  intros Hend. unfold scan_segment in *.
  rewrite (scan_loop_app pre suf (length pre) scan_init);
    [|simpl; lia|simpl; lia|done|simpl; lia].
  apply scan_loop_fuel; rewrite Hend, length_app; lia.
Qed.

(** X8: the scan goes from left to right, one word or one redirection at
    a time.  After tokens that leave no operator waiting for its target,
    one more word is added at the end of [args] and nothing else changes;
    one more redirection with its target replaces the path of its
    direction, so that the later redirection wins, and leaves the other
    path and the arguments as they were; the append operator sets [append]
    and the plain output operator leaves it as it was. *)
Theorem scan_segment_extend (pre : list pystr) (w t : pystr) :
  s_i (scan_segment pre) = length pre ->
  (is_redir w = false ->
   scan_segment (pre ++ [w])
   = Scan (length pre + 1) (s_infile (scan_segment pre))
       (s_outfile (scan_segment pre)) (s_append (scan_segment pre))
       (s_args (scan_segment pre) ++ [w]))
  /\ scan_segment (pre ++ [py ">"; t])
     = Scan (length pre + 2) (s_infile (scan_segment pre)) (Some t)
         (s_append (scan_segment pre)) (s_args (scan_segment pre))
  /\ scan_segment (pre ++ [py ">>"; t])
     = Scan (length pre + 2) (s_infile (scan_segment pre)) (Some t) true
         (s_args (scan_segment pre))
  /\ scan_segment (pre ++ [py "<"; t])
     = Scan (length pre + 2) (Some t) (s_outfile (scan_segment pre))
         (s_append (scan_segment pre)) (s_args (scan_segment pre)).
Proof.
  intros Hend.
  assert (H0 : forall suf, (pre ++ suf) !! length pre = suf !! 0).
  { intros suf. rewrite lookup_app_r by lia. by rewrite Nat.sub_diag. }
  assert (H1 : forall suf, (pre ++ suf) !! S (length pre) = suf !! 1).
  { intros suf. rewrite lookup_app_r by lia. f_equal. lia. }
  assert (Hone : forall suf fuel, suf <> [] ->
    scan_loop (S fuel) (pre ++ suf) (scan_segment pre)
    = scan_loop fuel (pre ++ suf) (scan_step (pre ++ suf) (scan_segment pre))).
  { intros suf fuel Hs. cbn [scan_loop].
    assert (Hlt : (s_i (scan_segment pre) <? length (pre ++ suf)) = true).
    { apply Nat.ltb_lt. rewrite Hend, length_app.
      destruct suf; [done | simpl; lia]. }
    by rewrite Hlt. }
  assert (Hredir : forall op fuel st',
    scan_step (pre ++ [op; t]) (scan_segment pre) = st' ->
    s_i st' = length pre + 2 ->
    scan_loop fuel (pre ++ [op; t]) st' = st').
  { intros op fuel st' _ Hi. apply scan_loop_stop.
    rewrite length_app, Hi. simpl. lia. }
  split; [|split; [|split]].
  - intros Hw. unfold is_redir in Hw.
    apply orb_false_iff in Hw as [Hw Hw3].
    apply orb_false_iff in Hw as [Hw1 Hw2].
    rewrite scan_segment_app by done. cbn [length].
    rewrite Hone by done. cbn [scan_loop].
    unfold scan_step. rewrite Hend, H0. cbn [lookup list_lookup].
    rewrite Hw1, Hw2, Hw3. f_equal. lia.
  - rewrite scan_segment_app by done. cbn [length].
    rewrite Hone by done.
    assert (Hs : scan_step (pre ++ [py ">"; t]) (scan_segment pre)
                 = Scan (length pre + 2) (s_infile (scan_segment pre))
                     (Some t) (s_append (scan_segment pre))
                     (s_args (scan_segment pre))).
    { unfold scan_step. rewrite Hend, H0, H1. cbn. f_equal. lia. }
    rewrite Hs. by apply (Hredir (py ">")).
  - rewrite scan_segment_app by done. cbn [length].
    rewrite Hone by done.
    assert (Hs : scan_step (pre ++ [py ">>"; t]) (scan_segment pre)
                 = Scan (length pre + 2) (s_infile (scan_segment pre))
                     (Some t) true (s_args (scan_segment pre))).
    { unfold scan_step. rewrite Hend, H0, H1. cbn. f_equal. lia. }
    rewrite Hs. by apply (Hredir (py ">>")).
  - rewrite scan_segment_app by done. cbn [length].
    rewrite Hone by done.
    assert (Hs : scan_step (pre ++ [py "<"; t]) (scan_segment pre)
                 = Scan (length pre + 2) (Some t)
                     (s_outfile (scan_segment pre))
                     (s_append (scan_segment pre))
                     (s_args (scan_segment pre))).
    { unfold scan_step. rewrite Hend, H0, H1. cbn. f_equal. lia. }
    rewrite Hs. by apply (Hredir (py "<")).
Qed.

Lemma scan_segment_extend_witness :
  scan_segment (tokenize (py "sort >> log") ++ [py ">"; py "out"])
  = Scan 5 None (Some (py "out")) true [py "sort"].
Proof.
  apply (proj1 (proj2 (scan_segment_extend (tokenize (py "sort >> log"))
                         [] (py "out") eq_refl))).
Defined.

(** ** Executable resolution *)

Lemma search_outcome_sound (os : OS) (ps : list pystr) (p : pystr) :
  search_outcome os ps = Ret (Some p) -> runnable os p = true /\ p ∈ ps.
Proof.
  unfold search_outcome. destruct (List.find _ ps) as [q|] eqn:Hf; [|done].
  apply List.find_some in Hf as [Hin Hq]. unfold path_ok at 1 in Hq.
  destruct (path_error os q) eqn:En; [done|]. intros [= <-].
  split; [exact Hq | by apply list_elem_of_In].
Qed.

Lemma search_outcome_none (os : OS) (ps : list pystr) :
  search_outcome os ps = Ret None
  <-> Forall (fun p => path_error os p = None /\ runnable os p = false) ps.
Proof.
  unfold search_outcome.
  induction ps as [|p ps IH]; cbn [List.find]; [by split|].
  unfold path_ok at 1.
  destruct (path_error os p) as [e|] eqn:En; cbn [negb orb].
  - rewrite En. split; [done|]. intros H.
    apply Forall_cons in H as [[H _] _]. congruence.
  - destruct (runnable os p) eqn:Er.
    + rewrite En. split; [done|]. intros H.
      apply Forall_cons in H as [[_ H] _]. congruence.
    + rewrite IH. split; [by constructor|].
      intros H. by apply Forall_cons in H as [_ H].
Qed.

(** X9: what [find_executable] returns can be executed.  A path it
    returns is an executable regular file; it is the name itself when the
    name has a slash, and otherwise some entry of [PATH] joined with the
    name.  The search changes nothing. *)
Theorem find_executable_sound (os os' : OS) (cmd p : pystr) :
  find_executable cmd os = (Ret (Some p), os') ->
  os' = os
  /\ runnable os p = true
  /\ (Chr.slash ∈ cmd -> p = cmd)
  /\ (Chr.slash ∉ cmd ->
      exists d, d ∈ path_entries os /\ p = path_join d cmd).
Proof.
  rewrite find_executable_spec. intros [= Hr <-]. split; [done|].
  unfold resolve in Hr. apply search_outcome_sound in Hr as [Hx Hin].
  split; [done|]. case_bool_decide as Hs.
  - apply list_elem_of_singleton in Hin. by split.
  - split; [done|]. intros _. unfold candidates in Hin.
    apply list_elem_of_fmap in Hin as (d & -> & Hd). by exists d.
Qed.

Lemma find_executable_sound_witness :
  find_executable (py "sleep") (sample_os sample_env (fun _ => None))
  = (Ret (Some (py "/bin/sleep")), sample_os sample_env (fun _ => None))
  /\ runnable (sample_os sample_env (fun _ => None)) (py "/bin/sleep") = true.
Proof.
  assert (H : find_executable (py "sleep")
                (sample_os sample_env (fun _ => None))
              = (Ret (Some (py "/bin/sleep")),
                 sample_os sample_env (fun _ => None))).
  { rewrite find_executable_spec. reflexivity. }
  split; [exact H|].
  exact (proj1 (proj2 (find_executable_sound _ _ _ _ H))).
Defined.

(** X10: a name is reported as not found only when it could be looked
    for and there is nothing to find: with a slash, when [os.access] takes
    the name and it is no executable regular file; without one, when
    [os.access] takes every entry of [PATH] joined with the name and none
    of them is an executable regular file.  For a name with a NUL
    character the answer is never [None]: the search raises the
    [ValueError] of [os.access]. *)
Theorem find_executable_none (os : OS) (cmd : pystr) :
  (Chr.slash ∈ cmd ->
   (find_executable cmd os = (Ret None, os)
    <-> path_error os cmd = None /\ runnable os cmd = false))
  /\ (Chr.slash ∉ cmd ->
      (find_executable cmd os = (Ret None, os)
       <-> Forall (fun d => path_error os (path_join d cmd) = None
                            /\ runnable os (path_join d cmd) = false)
             (path_entries os)))
  /\ (embedded_null cmd = true ->
      exists msg, find_executable cmd os = (Raise (ValueError msg), os)).
Proof.
  rewrite find_executable_spec. unfold resolve, path_entries.
  split; [|split].
  - intros Hs. rewrite bool_decide_eq_true_2 by done.
    split.
    + intros [= H]. apply search_outcome_none in H.
      by apply Forall_cons in H as [H _].
    + intros H. f_equal. apply search_outcome_none.
      constructor; [exact H | constructor].
  - intros Hs. rewrite bool_decide_eq_false_2 by done. unfold candidates.
    split.
    + intros [= H]. apply search_outcome_none in H.
      by apply Forall_fmap in H.
    + intros H. f_equal. apply search_outcome_none. by apply Forall_fmap.
  - intros Hn. case_bool_decide.
    + destruct (path_error_null os cmd Hn) as [msg Hj]. exists msg.
      f_equal. unfold search_outcome. cbn [List.find]. unfold path_ok at 1.
      rewrite Hj. cbn [negb orb]. by rewrite Hj.
    + destruct (candidates_null os cmd Hn) as [msg Hr]. exists msg.
      by rewrite Hr.
Qed.

Lemma find_executable_none_witness :
  find_executable (py "ls") (sample_os sample_env (fun _ => None))
  = (Ret None, sample_os sample_env (fun _ => None))
  /\ exists msg,
       find_executable [97%N; 0%N] (sample_os sample_env (fun _ => None))
       = (Raise (ValueError msg), sample_os sample_env (fun _ => None)).
Proof.
  assert (Hs : Chr.slash ∉ py "ls").
  { apply (bool_decide_eq_false_1 (Chr.slash ∈ py "ls")). reflexivity. }
  destruct (find_executable_none (sample_os sample_env (fun _ => None))
              (py "ls")) as (_ & Hnone & _).
  destruct (find_executable_none (sample_os sample_env (fun _ => None))
              [97%N; 0%N]) as (_ & _ & Hnull).
  split.
  - apply (proj2 (Hnone Hs)). vm_compute. repeat constructor.
  - apply Hnull. reflexivity.
Defined.

Lemma str_join_cons (sep : N) (f : pystr) (rest : list pystr) :
  rest <> [] -> str_join sep (f :: rest) = f ++ sep :: str_join sep rest.
Proof. by destruct rest. Qed.

Lemma str_split_spec (sep : N) (s : pystr) :
  forall cur : pystr,
    str_join sep (str_split sep s cur) = cur ++ s
    /\ (sep ∉ cur -> Forall (fun f => sep ∉ f) (str_split sep s cur))
    /\ length (str_split sep s cur)
       = S (length (filter (fun c => c = sep) s)).
Proof.
  induction s as [|c s IH]; intros cur; simpl.
  - rewrite app_nil_r. split; [done|]. split; [by repeat constructor | done].
  - rewrite filter_cons. destruct (c =? sep)%N eqn:E.
    + apply N.eqb_eq in E as ->. rewrite decide_True by done.
      destruct (IH []) as (Hj & Hf & Hl).
      rewrite str_join_cons by apply str_split_nonempty.
      rewrite Hj. simpl. split; [done|]. split.
      * intros Hcur. constructor; [done|]. apply Hf, not_elem_of_nil.
      * by rewrite Hl.
    + apply N.eqb_neq in E. rewrite decide_False by done.
      destruct (IH (cur ++ [c])) as (Hj & Hf & Hl).
      rewrite Hj, <- app_assoc. split; [done|]. split; [|done].
      intros Hcur. apply Hf. rewrite elem_of_app, list_elem_of_singleton.
      intros [?|?]; [done | congruence].
Qed.

(** X11: splitting [PATH] loses nothing but the colons: the entries,
    joined again with colons, are the value of [PATH]; no entry holds a
    colon; and there is one entry more than there are colons, so that an
    empty value has one entry, the empty one. *)
Theorem path_entries_round_trip (os : OS) :
  str_join Chr.colon (path_entries os) = environ_get os (py "PATH") []
  /\ Forall (fun d => Chr.colon ∉ d) (path_entries os)
  /\ length (path_entries os)
     = S (length (filter (fun c => c = Chr.colon)
                    (environ_get os (py "PATH") []))).
Proof.
  unfold path_entries.
  destruct (str_split_spec Chr.colon (environ_get os (py "PATH") []) [])
    as (Hj & Hf & Hl).
  split; [exact Hj|]. split; [apply Hf, not_elem_of_nil | exact Hl].
Qed.

(** ** The executor *)

Section Preserves.
Variable R : OS -> OS -> Prop.
Hypothesis R_refl : forall os, R os os.
Hypothesis R_trans : forall os1 os2 os3, R os1 os2 -> R os2 os3 -> R os1 os3.

Lemma preserves_ret {A} (a : A) : preserves R (ret a).
Proof using R_refl. intros os os' r [= <- <-]. apply R_refl. Qed.

Lemma preserves_raise {A} (e : exn) : preserves R (raise (A := A) e).
Proof using R_refl. intros os os' r [= <- <-]. apply R_refl. Qed.

Lemma preserves_bind {A B} (m : M A) (k : A -> M B) :
  preserves R m -> (forall a, preserves R (k a)) -> preserves R (bind m k).
Proof using R_trans.
  intros Hm Hk os os' r. unfold bind.
  destruct (m os) as [[a|e|code|p v] os1] eqn:E; specialize (Hm _ _ _ E).
  - intros H. apply Hk in H. by eapply R_trans.
  - by intros [= <- <-].
  - by intros [= <- <-].
  - by intros [= <- <-].
Qed.

Lemma preserves_try_catch {A} (catches : exn -> bool) (m : M A)
    (h : exn -> M A) :
  preserves R m -> (forall e, preserves R (h e)) ->
  preserves R (try_catch catches m h).
Proof using R_trans.
  intros Hm Hh os os' r. unfold try_catch.
  destruct (m os) as [[a|e|code|p v] os1] eqn:E; specialize (Hm _ _ _ E).
  - by intros [= <- <-].
  - destruct (catches e).
    + intros H. apply Hh in H. by eapply R_trans.
    + by intros [= <- <-].
  - by intros [= <- <-].
  - by intros [= <- <-].
Qed.

Lemma preserves_for_each {A} (l : list A) (body : A -> M unit) :
  (forall x, preserves R (body x)) -> preserves R (for_each l body).
Proof using R_refl R_trans.
  intros Hb. induction l as [|x l IH]; simpl.
  - apply preserves_ret.
  - apply preserves_bind; [apply Hb | by intros _].
Qed.

Lemma preserves_for_acc {A S} (l : list A) (body : A -> S -> M S) :
  (forall x acc, preserves R (body x acc)) ->
  forall acc, preserves R (for_acc l acc body).
Proof using R_refl R_trans.
  intros Hb. induction l as [|x l IH]; intros acc; simpl.
  - apply preserves_ret.
  - apply preserves_bind; [apply Hb | apply IH].
Qed.
End Preserves.

Lemma shell_frame_refl (os : OS) : shell_frame os os.
Proof. by repeat split. Qed.

Lemma shell_frame_trans (os1 os2 os3 : OS) :
  shell_frame os1 os2 -> shell_frame os2 os3 -> shell_frame os1 os3.
Proof.
  intros (?&?&?&?&?&?&?&?&?&?) (?&?&?&?&?&?&?&?&?&?).
  repeat split; congruence.
Qed.

Lemma shell_frame_os_pipe : preserves shell_frame os_pipe.
Proof.
  intros os os' r. unfold os_pipe.
  destruct (_ && _); intros [= <- <-]; by repeat split.
Qed.

Lemma shell_frame_os_fork (body : M unit) : preserves shell_frame (os_fork body).
Proof.
  intros os os' r. unfold os_fork.
  destruct (_ <? _); [|intros [= <- <-]; by repeat split].
  destruct (body (forked os)). intros [= <- <-]. by repeat split.
Qed.

Lemma shell_frame_os_close (fd : Z) : preserves shell_frame (os_close fd).
Proof.
  intros os os' r. unfold os_close.
  destruct (fds os !! fd); intros [= <- <-]; by repeat split.
Qed.

Lemma shell_frame_os_waitpid (pid : Z) : preserves shell_frame (os_waitpid pid).
Proof.
  intros os os' r. unfold os_waitpid.
  destruct (wait_status os pid); intros [= <- <-]; by repeat split.
Qed.

Lemma shell_frame_close_pipe (p : Z * Z) : preserves shell_frame (close_pipe p).
Proof.
  unfold close_pipe, try_except.
  apply preserves_bind; [apply shell_frame_trans | | intros _];
    (apply preserves_try_catch;
     [apply shell_frame_trans | apply shell_frame_os_close
     | intros _; apply preserves_ret, shell_frame_refl]).
Qed.

Lemma run_pipeline_preserves_shell (cmds : list command) (background : bool) :
  preserves shell_frame (run_pipeline cmds background).
Proof.
  pose proof shell_frame_refl as Hr. pose proof shell_frame_trans as Ht.
  unfold run_pipeline. destruct (length cmds =? 0); [by apply preserves_ret|].
  apply preserves_bind; [done | |].
  { apply preserves_for_acc; [done..|]. intros _ acc.
    apply preserves_bind; [done | apply shell_frame_os_pipe|].
    intros p. by apply preserves_ret. }
  intros pipes. apply preserves_bind; [done | |].
  { apply preserves_for_acc; [done..|]. intros ic acc.
    apply preserves_bind; [done | apply shell_frame_os_fork|].
    intros p. by apply preserves_ret. }
  intros pids. apply preserves_bind; [done | |].
  { apply preserves_for_each; [done..|]. apply shell_frame_close_pipe. }
  intros _. destruct background; [by apply preserves_ret|].
  apply preserves_bind; [done | | intros codes; by apply preserves_ret].
  apply preserves_for_acc; [done..|]. intros pid acc.
  apply preserves_try_catch; [done | |intros _; by apply preserves_ret].
  apply preserves_bind; [done | apply shell_frame_os_waitpid|].
  intros status. destruct (WIFEXITED status); by apply preserves_ret.
Qed.

(** X12: [run_pipeline] touches nothing of the shell itself.  However it
    ends, an exception from [os.pipe] or [os.fork] included, the standard
    streams of the shell, its current directory and its environment are as
    before: all output comes from the children. *)
Theorem run_pipeline_shell_frame
    (cmds : list command) (background : bool) (os os' : OS) (r : result Z) :
  run_pipeline cmds background os = (r, os') -> shell_frame os os'.
Proof. apply run_pipeline_preserves_shell. Qed.

Lemma run_pipeline_shell_frame_witness :
  exists (r : result Z) (os' : OS),
    run_pipeline sample_pipeline false killed_os = (r, os')
    /\ shell_frame killed_os os'.
Proof.
  destruct (run_pipeline sample_pipeline false killed_os) as [r os'] eqn:Hrun.
  exists r, os'. split; [reflexivity|].
  exact (run_pipeline_shell_frame _ _ _ _ _ Hrun).
Defined.

Lemma returns_ret {A} (P : A -> Prop) (a : A) : P a -> returns P (ret a).
Proof. intros Ha os os' v [= <- _]. done. Qed.

Lemma returns_bind {A B} (Q : A -> Prop) (P : B -> Prop) (m : M A)
    (k : A -> M B) :
  returns Q m -> (forall a, Q a -> returns P (k a)) -> returns P (bind m k).
Proof.
  intros Hm Hk os os' v. unfold bind.
  destruct (m os) as [[a|e|code|p w] os1] eqn:E; try done.
  intros H. eapply Hk; [|exact H]. by eapply Hm.
Qed.

Lemma returns_any {A} (m : M A) : returns (fun _ => True) m.
Proof. by intros os os' v _. Qed.

Lemma returns_try_except {A} (P : A -> Prop) (m h : M A) :
  returns P m -> returns P h -> returns P (try_except m h).
Proof.
  intros Hm Hh os os' v. unfold try_except, try_catch.
  destruct (m os) as [[a|e|code|p w] os1] eqn:E; try done.
  - intros [= <- <-]. by eapply Hm.
  - destruct (is_Exception e); [|done]. apply Hh.
Qed.

Lemma WEXITSTATUS_range (status : Z) : (0 <= WEXITSTATUS status <= 255)%Z.
Proof.
  unfold WEXITSTATUS.
  change (Z.land (Z.shiftr status 8) 255)
    with (Z.land (Z.shiftr status 8) (Z.ones 8)).
  rewrite Z.land_ones by lia. change (2 ^ 8)%Z with 256%Z.
  pose proof (Z.mod_pos_bound (Z.shiftr status 8) 256 ltac:(lia)). lia.
Qed.

Lemma wait_all_from_range (pids : list Z) :
  forall acc : list Z,
    Forall (fun c => 0 <= c <= 255)%Z acc ->
    returns (Forall (fun c => 0 <= c <= 255)%Z) (wait_all_from pids acc).
Proof.
  unfold wait_all_from.
  induction pids as [|pid pids IH]; intros acc Hacc; simpl.
  - by apply returns_ret.
  - apply (returns_bind (Forall (fun c => 0 <= c <= 255)%Z)); [|apply IH].
    assert (H1 : Forall (fun c => 0 <= c <= 255)%Z (acc ++ [1%Z])).
    { apply Forall_app. split; [done|]. constructor; [lia | done]. }
    apply returns_try_except; [|by apply returns_ret].
    apply (returns_bind (fun _ => True)); [apply returns_any|].
    intros status _. destruct (WIFEXITED status); apply returns_ret; [|done].
    apply Forall_app. split; [done|]. constructor; [|done].
    apply WEXITSTATUS_range.
Qed.

(** X13: every status [run_pipeline] returns is between 0 and 255. *)
Theorem run_pipeline_status_range
    (cmds : list command) (background : bool) (os os' : OS) (v : Z) :
  run_pipeline cmds background os = (Ret v, os') -> (0 <= v <= 255)%Z.
Proof.
  revert os os' v.
  change (returns (fun v => 0 <= v <= 255)%Z (run_pipeline cmds background)).
  unfold run_pipeline. destruct (length cmds =? 0); [by apply returns_ret|].
  apply (returns_bind (fun _ => True)); [apply returns_any|]. intros pipes _.
  apply (returns_bind (fun _ => True)); [apply returns_any|]. intros pids _.
  apply (returns_bind (fun _ => True)); [apply returns_any|]. intros _ _.
  destruct background; [by apply returns_ret|].
  apply (returns_bind (Forall (fun c => 0 <= c <= 255)%Z)).
  { by apply wait_all_from_range. }
  intros codes Hcodes. apply returns_ret.
  destruct codes as [|c codes _] using rev_ind; [simpl; lia|].
  rewrite List.last_last. apply Forall_app in Hcodes as [_ Hc].
  by inversion Hc.
Qed.

Lemma run_pipeline_status_range_witness :
  exists os' : OS,
    run_pipeline sample_pipeline false
      (sample_os sample_env (fun _ => Some 768%Z)) = (Ret 3%Z, os')
    /\ (0 <= 3 <= 255)%Z.
Proof.
  destruct (run_pipeline sample_pipeline false
              (sample_os sample_env (fun _ => Some 768%Z)))
    as [r os'] eqn:Hrun.
  assert (Hr : r = Ret 3%Z).
  { change r with (fst (r, os')). rewrite <- Hrun. vm_compute. reflexivity. }
  subst r. exists os'. split; [reflexivity|].
  exact (run_pipeline_status_range _ _ _ _ _ Hrun).
Defined.
Lemma fresh_fd_fresh (t : gmap Z fdesc) : t !! fresh_fd t = None.
Proof.
  unfold fresh_fd.
  destruct (List.find _ _) as [n|] eqn:Hfind; simpl.
  - apply List.find_some in Hfind as [_ Hn]. by apply bool_decide_eq_true in Hn.
  - exfalso.
    assert (Hsub : (list_to_set (seqZ 0 (Z.of_nat (S (size t)))) : gset Z) ⊆ dom t).
    { intros n Hn. apply elem_of_list_to_set in Hn.
      apply elem_of_dom. destruct (t !! n) eqn:E; [done|].
      apply list_elem_of_In in Hn.
      apply (List.find_none _ _ Hfind) in Hn.
      apply bool_decide_eq_false in Hn. done. }
    apply subseteq_size in Hsub.
    rewrite size_list_to_set in Hsub by apply NoDup_seqZ.
    rewrite length_seqZ, size_dom in Hsub. lia.
Qed.

Lemma process_frame_refl (os : OS) : process_frame os os.
Proof. by repeat split. Qed.

Lemma process_frame_trans (os1 os2 os3 : OS) :
  process_frame os1 os2 -> process_frame os2 os3 -> process_frame os1 os3.
Proof. intros (?&?&?) (?&?&?). repeat split; congruence. Qed.

Lemma os_pipe_spec (os : OS) :
  (Z.of_nat (size (fds os)) + 2 <= fd_limit os)%Z ->
  exists (r w : Z) (os' : OS),
    os_pipe os = (Ret (r, w), os')
    /\ fds os' = <[w := PipeWrite (next_pipe os)]>
                   (<[r := PipeRead (next_pipe os)]> (fds os))
    /\ fds os !! r = None /\ fds os !! w = None /\ r <> w
    /\ next_pipe os' = S (next_pipe os)
    /\ shell_frame os os' /\ process_frame os os'
    /\ size (fds os') <= size (fds os) + 2.
Proof.
  intros Hlim. unfold os_pipe.
  set (r := fresh_fd (fds os)).
  set (t := <[r := PipeRead (next_pipe os)]> (fds os)).
  set (w := fresh_fd t).
  pose proof (fresh_fd_le (fds os)) as Hr.
  pose proof (fresh_fd_le t) as Hw.
  pose proof (size_insert_le (fds os) r (PipeRead (next_pipe os))) as Ht.
  pose proof (fresh_fd_fresh (fds os)) as Hrf.
  pose proof (fresh_fd_fresh t) as Hwf.
  fold r in Hr, Hrf. fold t in Ht. fold w in Hw, Hwf.
  assert (Hrl : (r <? fd_limit os)%Z = true) by (apply Z.ltb_lt; lia).
  assert (Hwl : (w <? fd_limit os)%Z = true) by (apply Z.ltb_lt; lia).
  assert (Hne : r <> w).
  { intros Heq. unfold t in Hwf. rewrite <- Heq in Hwf.
    by rewrite lookup_insert_eq in Hwf. }
  rewrite Hrl, Hwl. simpl. exists r, w. eexists. split; [done|].
  simpl. repeat split; try done.
  - unfold t in Hwf. by rewrite lookup_insert_ne in Hwf.
  - pose proof (size_insert_le t w (PipeWrite (next_pipe os))). lia.
Qed.

Lemma pipes_at_cons (base : gmap Z fdesc) (k0 : nat) (r w : Z)
    (pipes : list (Z * Z)) (t : gmap Z fdesc) :
  base !! r = None -> base !! w = None -> r <> w ->
  pipes_at (<[w := PipeWrite k0]> (<[r := PipeRead k0]> base)) (S k0) pipes t ->
  pipes_at base k0 ((r, w) :: pipes) t.
Proof.
  intros Hr Hw Hne (A1 & A2 & A3 & A4).
  assert (Hrp : r ∉ pipe_fds pipes).
  { intros Hin. apply A1 in Hin.
    by rewrite lookup_insert_ne, lookup_insert_eq in Hin. }
  assert (Hwp : w ∉ pipe_fds pipes).
  { intros Hin. apply A1 in Hin. by rewrite lookup_insert_eq in Hin. }
  split; [|split; [|split]].
  - intros fd. simpl. rewrite !elem_of_cons. intros [-> | [-> | Hin]]; try done.
    pose proof (A1 fd Hin) as Hfd.
    destruct (decide (fd = w)) as [-> | Hfw]; [done|].
    destruct (decide (fd = r)) as [-> | Hfr]; [done|].
    by rewrite !lookup_insert_ne in Hfd.
  - intros x. simpl. rewrite !not_elem_of_cons. intros (Hxr & Hxw & Hx).
    rewrite (A2 x Hx). by rewrite !lookup_insert_ne.
  - intros [|j] p; simpl.
    + intros [= <-]. simpl. rewrite Nat.add_0_r, !A2 by done.
      rewrite lookup_insert_ne, !lookup_insert_eq by done. done.
    + intros Hp. destruct (A3 j p Hp) as [H1 H2].
      by replace (k0 + S j) with (S k0 + j) by lia.
  - simpl. apply NoDup_cons. split.
    + rewrite not_elem_of_cons. done.
    + apply NoDup_cons. done.
Qed.

Lemma pipes_at_nil (base : gmap Z fdesc) (k0 : nat) : pipes_at base k0 [] base.
Proof.
  split; [|split; [|split]]; simpl.
  - intros fd Hfd. by apply elem_of_nil in Hfd.
  - done.
  - intros j p Hp. by rewrite lookup_nil in Hp.
  - apply NoDup_nil_2.
Qed.

Lemma make_pipes_loop_spec (l : list nat) :
  forall (acc : list (Z * Z)) (os : OS),
    (Z.of_nat (size (fds os)) + 2 * Z.of_nat (length l) <= fd_limit os)%Z ->
    exists (new : list (Z * Z)) (os' : OS),
      for_acc l acc (fun _ pipes => let* p := os_pipe in ret (pipes ++ [p])) os
      = (Ret (acc ++ new), os')
      /\ length new = length l
      /\ pipes_at (fds os) (next_pipe os) new (fds os')
      /\ next_pipe os' = next_pipe os + length l
      /\ shell_frame os os' /\ process_frame os os'.
Proof.
  induction l as [|x l IH]; intros acc os Hlim.
  - exists [], os. simpl. rewrite app_nil_r.
    split; [done|]. split; [done|]. split; [apply pipes_at_nil|].
    split; [lia|]. split; [apply shell_frame_refl | apply process_frame_refl].
  - simpl in Hlim.
    destruct (os_pipe_spec os) as (r & w & os1 & Hp & Hfds & Hr & Hw & Hne
                                    & Hnp & Hsf & Hpf & Hsize); [lia|].
    destruct (IH (acc ++ [(r, w)]) os1) as (new & os' & Hloop & Hlen & Hat
                                            & Hnp' & Hsf' & Hpf').
    { destruct Hsf as (_&_&_&_&_&_&_&_& -> & _). lia. }
    exists ((r, w) :: new), os'. split; [|split; [|split; [|split; [|split]]]].
    + cbn [for_acc]. erewrite bind_Ret; [|by erewrite bind_Ret].
      rewrite Hloop. by rewrite <- app_assoc.
    + simpl. by rewrite Hlen.
    + apply pipes_at_cons; try done. rewrite Hfds, Hnp in Hat. exact Hat.
    + rewrite Hnp', Hnp. simpl. lia.
    + by eapply shell_frame_trans.
    + by eapply process_frame_trans.
Qed.

Lemma try_close_spec (fd : Z) (os : OS) :
  exists os',
    try_except (os_close fd) (ret tt) os = (Ret tt, os')
    /\ fds os' = delete fd (fds os)
    /\ next_pipe os' = next_pipe os
    /\ shell_frame os os' /\ process_frame os os'.
Proof.
  unfold try_except, try_catch, os_close.
  destruct (fds os !! fd) eqn:E; simpl; eexists; (split; [done|]).
  - by repeat split.
  - rewrite delete_id by done. by repeat split.
Qed.

Lemma close_pipes_spec (pipes : list (Z * Z)) :
  forall os : OS,
    exists os',
      for_each pipes close_pipe os = (Ret tt, os')
      /\ (forall x, fds os' !! x
                    = if decide (x ∈ pipe_fds pipes) then None
                      else fds os !! x)
      /\ next_pipe os' = next_pipe os
      /\ shell_frame os os' /\ process_frame os os'.
Proof.
  induction pipes as [|p pipes IH]; intros os.
  - exists os. split; [done|]. split.
    { intros x. rewrite decide_False; [done | apply not_elem_of_nil]. }
    split; [done|]. split; [apply shell_frame_refl | apply process_frame_refl].
  - destruct (try_close_spec (fst p) os) as (os1 & H1 & F1 & N1 & S1 & P1).
    destruct (try_close_spec (snd p) os1) as (os2 & H2 & F2 & N2 & S2 & P2).
    destruct (IH os2) as (os3 & H3 & F3 & N3 & S3 & P3).
    exists os3. split; [|split; [|split; [|split]]].
    + simpl. erewrite bind_Ret; [exact H3|]. unfold close_pipe.
      erewrite bind_Ret; [exact H2 | exact H1].
    + intros x. rewrite F3, F2, F1. simpl.
      destruct (decide (x ∈ pipe_fds pipes)) as [Hin | Hnin].
      * rewrite decide_True; [done|]. by do 2 apply list_elem_of_further.
      * destruct (decide (x = snd p)) as [-> | Hs].
        { rewrite lookup_delete_eq, decide_True; [done|].
          apply list_elem_of_further, list_elem_of_here. }
        rewrite lookup_delete_ne by done.
        destruct (decide (x = fst p)) as [-> | Hf].
        { rewrite lookup_delete_eq, decide_True; [done|].
          apply list_elem_of_here. }
        rewrite lookup_delete_ne by done.
        rewrite decide_False; [done|]. rewrite !not_elem_of_cons. done.
    + congruence.
    + eauto using shell_frame_trans.
    + eauto using process_frame_trans.
Qed.

(** After the pipes are closed the table is the one before they were
    made. *)
Lemma close_pipes_restores (base t t' : gmap Z fdesc) (k0 : nat)
    (pipes : list (Z * Z)) :
  pipes_at base k0 pipes t ->
  (forall x, t' !! x = if decide (x ∈ pipe_fds pipes) then None else t !! x) ->
  t' = base.
Proof.
  intros (A1 & A2 & _ & _) Ht'. apply map_eq. intros x. rewrite Ht'.
  destruct (decide (x ∈ pipe_fds pipes)) as [Hin | Hnin].
  - symmetry. by apply A1.
  - by apply A2.
Qed.

Lemma os_fork_spec (body : M unit) (os : OS) :
  length (children os) < proc_limit os ->
  os_fork body os = (Ret (next_pid os), add_child (child_of body os) os).
Proof.
  intros Hlim. unfold os_fork, child_of. apply Nat.ltb_lt in Hlim.
  rewrite Hlim. by destruct (body (forked os)).
Qed.

Lemma stage_pids_frame (os os' : OS) (n : nat) :
  children os' = children os -> fork_pid os' = fork_pid os ->
  stage_pids os' n = stage_pids os n.
Proof. intros Hc Hp. unfold stage_pids. by rewrite Hc, Hp. Qed.

Lemma spawn_loop_spec (body : nat * command -> M unit)
    (l : list (nat * command)) :
  forall (acc : list Z) (os : OS),
    length (children os) + length l <= proc_limit os ->
    exists (os' : OS) (new : list child),
      for_acc l acc (fun ic pids =>
        let* pid := os_fork (body ic) in ret (pids ++ [pid])) os
      = (Ret (acc ++ stage_pids os (length l)), os')
      /\ children os' = children os ++ new /\ length new = length l
      /\ ch_pid <$> new = stage_pids os (length l)
      /\ fds os' = fds os /\ next_pipe os' = next_pipe os
      /\ reaped os' = reaped os
      /\ fork_pid os' = fork_pid os
      /\ shell_frame os os'
      /\ (forall i ic, l !! i = Some ic ->
            exists os_i,
              new !! i = Some (child_of (body ic) os_i)
              /\ fds os_i = fds os /\ next_pipe os_i = next_pipe os
              /\ shell_frame os os_i).
Proof.
  induction l as [|ic l IH]; intros acc os Hlim.
  - exists os, []. unfold stage_pids. simpl. rewrite !app_nil_r.
    split; [done|]. split; [done|]. split; [done|]. split; [done|].
    split; [done|]. split; [done|]. split; [done|]. split; [done|].
    split; [apply shell_frame_refl|]. intros i ic Hi.
    by rewrite lookup_nil in Hi.
  - simpl in Hlim.
    pose proof (os_fork_spec (body ic) os ltac:(lia)) as Hfork.
    destruct (IH (acc ++ [next_pid os]) (add_child (child_of (body ic) os) os))
      as (os' & new & Hloop & Hch & Hlen & Hpids & Hfds & Hnp & Hre & Hpid
          & Hsf & Hnew).
    { simpl. rewrite length_app. simpl. lia. }
    simpl in Hloop, Hch, Hfds, Hnp, Hre, Hpid.
    exists os', (child_of (body ic) os :: new).
    cbn [length]. rewrite (stage_pids_S os (child_of (body ic) os)).
    split; [|split; [|split; [|split; [|split; [|split; [|split; [|split;
            [|split]]]]]]]].
    + cbn [for_acc]. erewrite bind_Ret; [|by erewrite bind_Ret].
      rewrite Hloop. by rewrite <- app_assoc.
    + rewrite Hch. by rewrite <- app_assoc.
    + simpl. by rewrite Hlen.
    + rewrite fmap_cons. f_equal. exact Hpids.
    + done.
    + done.
    + done.
    + done.
    + eapply shell_frame_trans; [|exact Hsf]. by repeat split.
    + intros [|i] ic' Hi; simpl in Hi.
      * injection Hi as <-. exists os. simpl.
        split; [done|]. split; [done|]. split; [done|].
        apply shell_frame_refl.
      * destruct (Hnew i ic' Hi) as (os_i & Hc & Hf & Hn & Hs).
        exists os_i. simpl in Hf, Hn.
        split; [done|]. split; [done|]. split; [done|].
        eapply shell_frame_trans; [|exact Hs]. by repeat split.
Qed.

Lemma wait_step_spec (pid : Z) (exit_codes : list Z) (os : OS) :
  exists os',
    try_except
      (let* status := os_waitpid pid in
       if WIFEXITED status then ret (exit_codes ++ [WEXITSTATUS status])
       else ret (exit_codes ++ [1%Z]))
      (ret (exit_codes ++ [1%Z])) os
    = (Ret (exit_codes ++ [stage_code (wait_status os pid)]), os')
    /\ reaped os'
       = reaped os
         ++ match wait_status os pid with Some _ => [pid] | None => [] end
    /\ fds os' = fds os /\ next_pipe os' = next_pipe os
    /\ children os' = children os /\ fork_pid os' = fork_pid os
    /\ shell_frame os os'.
Proof.
  unfold try_except, try_catch, bind, os_waitpid, stage_code.
  destruct (wait_status os pid) as [status|] eqn:E; simpl.
  - destruct (WIFEXITED status); simpl; eexists; (split; [done|]);
      simpl; by repeat split.
  - exists os. rewrite app_nil_r. split; [done|]. repeat split; done.
Qed.

Lemma wait_loop_spec (pids : list Z) :
  forall (acc : list Z) (os : OS),
    exists os',
      wait_all_from pids acc os
      = (Ret (acc ++ ((fun pid => stage_code (wait_status os pid)) <$> pids)),
         os')
      /\ reaped os'
         = reaped os ++ filter (fun pid => is_Some (wait_status os pid)) pids
      /\ fds os' = fds os /\ next_pipe os' = next_pipe os
      /\ children os' = children os /\ fork_pid os' = fork_pid os
      /\ shell_frame os os'.
Proof.
  induction pids as [|pid pids IH]; intros acc os.
  - exists os. simpl. rewrite !app_nil_r.
    split; [done|]. repeat split; done.
  - destruct (wait_step_spec pid acc os)
      as (os1 & H1 & Hr1 & Hf1 & Hn1 & Hc1 & Hp1 & Hs1).
    destruct (IH (acc ++ [stage_code (wait_status os pid)]) os1)
      as (os2 & H2 & Hr2 & Hf2 & Hn2 & Hc2 & Hp2 & Hs2).
    assert (Hws : wait_status os1 = wait_status os)
      by (by destruct Hs1 as (_&_&_&_&_&_&_& -> & _)).
    exists os2. split; [|split; [|split; [|split; [|split; [|split]]]]];
      try congruence.
    + unfold wait_all_from in *. cbn [for_acc]. erewrite bind_Ret; [|exact H1].
      rewrite H2, Hws. simpl. by rewrite <- app_assoc.
    + rewrite Hr2, Hr1, Hws, filter_cons, <- app_assoc. f_equal.
      destruct (wait_status os pid) eqn:E.
      * rewrite decide_True by done. done.
      * rewrite decide_False by (by intros [? ?]). done.
    + by eapply shell_frame_trans.
Qed.

(** What [run_pipeline] has done when it comes to its [if background]:
    the pipes were made, the children spawned, and the pipes closed
    again. *)
Lemma run_pipeline_launch (cmds : list command) (os : OS) :
  cmds <> [] ->
  (Z.of_nat (size (fds os)) + 2 * Z.of_nat (length cmds - 1)
   <= fd_limit os)%Z ->
  length (children os) + length cmds <= proc_limit os ->
  exists (pipes : list (Z * Z)) (os3 : OS) (new : list child),
    (forall background : bool,
       run_pipeline cmds background os
       = (if background then ret 0%Z
          else let* exit_codes := wait_all (stage_pids os (length cmds)) in
               ret (List.last exit_codes 0%Z)) os3)
    /\ fds os3 = fds os
    /\ next_pipe os3 = next_pipe os + (length cmds - 1)
    /\ reaped os3 = reaped os
    /\ ch_pid <$> new = stage_pids os (length cmds)
    /\ shell_frame os os3
    /\ children os3 = children os ++ new /\ length new = length cmds
    /\ length pipes = length cmds - 1
    /\ (forall i cmd, cmds !! i = Some cmd ->
          exists os_i,
            new !! i
            = Some (child_of (child_body i (length cmds) cmd pipes) os_i)
            /\ pipes_at (fds os) (next_pipe os) pipes (fds os_i)
            /\ shell_frame os os_i).
Proof.
  intros Hne Hfd Hproc.
  destruct (make_pipes_loop_spec (seq 0 (length cmds - 1)) [] os)
    as (pipes & os1 & Hpipes & Hplen & Hat & Hnp1 & Hsf1 & Hpf1).
  { by rewrite length_seq. }
  rewrite length_seq in Hplen, Hnp1. simpl in Hpipes.
  destruct Hpf1 as (Hch1 & Hre1 & Hpid1).
  assert (Hpl1 : proc_limit os1 = proc_limit os)
    by (by destruct Hsf1 as (_&_&_&_&_&_&_&_&_& ->)).
  destruct (spawn_loop_spec
              (fun ic => child_body (fst ic) (length cmds) (snd ic) pipes)
              (imap (fun i cmd => (i, cmd)) cmds) [] os1)
    as (os2 & new & Hspawn & Hch2 & Hlen2 & Hpids2 & Hfds2 & Hnp2 & Hre2
        & Hpid2 & Hsf2 & Hnew).
  { rewrite length_imap. congruence. }
  rewrite length_imap in Hspawn, Hlen2, Hpids2. simpl in Hspawn.
  rewrite (stage_pids_frame os os1) in Hspawn, Hpids2 by done.
  destruct (close_pipes_spec pipes os2)
    as (os3 & Hclose & Hfds3 & Hnp3 & Hsf3 & (Hch3 & Hre3 & Hpid3)).
  exists pipes, os3, new.
  split; [|split; [|split; [|split; [|split; [|split; [|split; [|split;
          [|split]]]]]]]].
  - intros background. unfold run_pipeline.
    destruct (length cmds =? 0) eqn:E0.
    { apply Nat.eqb_eq in E0. by destruct cmds. }
    unfold make_pipes. erewrite bind_Ret; [|exact Hpipes].
    unfold spawn_all. erewrite bind_Ret; [|exact Hspawn].
    by erewrite bind_Ret; [|exact Hclose].
  - apply (close_pipes_restores _ (fds os2) _ (next_pipe os) pipes);
      [by rewrite Hfds2 | exact Hfds3].
  - congruence.
  - congruence.
  - done.
  - eauto using shell_frame_trans.
  - congruence.
  - done.
  - done.
  - intros i cmd Hi.
    destruct (Hnew i (i, cmd)) as (os_i & Hc & Hf & Hn & Hs).
    { by rewrite list_lookup_imap, Hi. }
    exists os_i. simpl in Hc.
    split; [done|]. split; [by rewrite Hf|].
    by eapply shell_frame_trans.
Qed.

(** X14: the pipes of a pipeline are closed in the parent.  When the
    pipes and the children can be made, [run_pipeline] returns with the
    descriptor table of the shell exactly as it was before the call, in
    the foreground and in the background, having made one pipe less than
    there are stages. *)
Theorem run_pipeline_closes_pipes
    (cmds : list command) (background : bool) (os : OS) :
  (Z.of_nat (size (fds os)) + 2 * Z.of_nat (length cmds - 1)
   <= fd_limit os)%Z ->
  length (children os) + length cmds <= proc_limit os ->
  exists (v : Z) (os' : OS),
    run_pipeline cmds background os = (Ret v, os')
    /\ fds os' = fds os
    /\ next_pipe os' = next_pipe os + (length cmds - 1).
Proof.
  intros Hfd Hproc. destruct cmds as [|c0 cmds'].
  { exists 0%Z, os. split; [done|]. split; [done | simpl; lia]. }
  set (cmds := c0 :: cmds') in *.
  destruct (run_pipeline_launch cmds os) as (pipes & os3 & new & Hrun & Hfds
    & Hnp & _); [done..|].
  rewrite Hrun. destruct background; [by exists 0%Z, os3|].
  destruct (wait_loop_spec (stage_pids os (length cmds)) [] os3)
    as (os4 & Hwait & _ & Hfds4 & Hnp4 & _).
  unfold wait_all. erewrite bind_Ret; [|exact Hwait].
  eexists _, os4. split; [done|]. split; congruence.
Qed.

Lemma run_pipeline_closes_pipes_witness :
  exists (v : Z) (os' : OS),
    run_pipeline (parse_pipeline (py "sleep 1 | sleep 2 | sleep 3")) false
      killed_os = (Ret v, os')
    /\ fds os' = fds killed_os
    /\ next_pipe os' = next_pipe killed_os + 2.
Proof.
  apply (run_pipeline_closes_pipes
           (parse_pipeline (py "sleep 1 | sleep 2 | sleep 3")) false killed_os).
  - vm_compute. discriminate.
  - vm_compute. lia.
Defined.

(** X15: a background pipeline is not waited for.  [run_pipeline] makes
    one child per stage, in the order of the stages and each running the
    code of its stage, and no other; their pids are whatever [os.fork]
    gave.  It returns 0 and has reaped none of them. *)
Theorem run_pipeline_background (cmds : list command) (os : OS) :
  (Z.of_nat (size (fds os)) + 2 * Z.of_nat (length cmds - 1)
   <= fd_limit os)%Z ->
  length (children os) + length cmds <= proc_limit os ->
  exists (os' : OS) (new : list child) (pipes : list (Z * Z)),
    run_pipeline cmds true os = (Ret 0%Z, os')
    /\ children os' = children os ++ new
    /\ length new = length cmds
    /\ (forall i cmd, cmds !! i = Some cmd ->
          exists os_i,
            new !! i
            = Some (child_of (child_body i (length cmds) cmd pipes) os_i))
    /\ ch_pid <$> new = stage_pids os (length cmds)
    /\ reaped os' = reaped os.
Proof.
  intros Hfd Hproc. destruct cmds as [|c0 cmds'].
  { exists os, [], []. simpl. rewrite app_nil_r. by repeat split. }
  set (cmds := c0 :: cmds') in *.
  destruct (run_pipeline_launch cmds os) as (pipes & os3 & new & Hrun & _
    & _ & Hre & Hpids & _ & Hch & Hlen & _ & Hnew); [done..|].
  exists os3, new, pipes. rewrite Hrun. split; [done|]. split; [done|].
  split; [done|]. split; [|by split].
  intros i cmd Hi. destruct (Hnew i cmd Hi) as (os_i & Hc & _).
  by exists os_i.
Qed.

Lemma run_pipeline_background_witness :
  exists (os' : OS) (new : list child) (pipes : list (Z * Z)),
    run_pipeline (parse_pipeline (py "sleep 1 | sleep 2 | sleep 3")) true
      killed_os = (Ret 0%Z, os')
    /\ children os' = children killed_os ++ new
    /\ length new = 3
    /\ ch_pid <$> new = [100%Z; 107%Z; 114%Z]
    /\ reaped os' = reaped killed_os.
Proof.
  destruct (run_pipeline_background
              (parse_pipeline (py "sleep 1 | sleep 2 | sleep 3")) killed_os)
    as (os' & new & pipes & Hrun & Hch & Hlen & _ & Hpids & Hre).
  - vm_compute. discriminate.
  - vm_compute. lia.
  - exists os', new, pipes. split; [exact Hrun|]. split; [exact Hch|].
    split; [exact Hlen|]. split; [exact Hpids | exact Hre].
Defined.

(** X16: a foreground pipeline is waited for stage by stage.  Every
    child is waited for in the order of the stages, and those for which
    [os.waitpid] succeeds are reaped, in that order, before
    [run_pipeline] returns. *)
Theorem run_pipeline_foreground_reaps (cmds : list command) (os : OS) :
  (Z.of_nat (size (fds os)) + 2 * Z.of_nat (length cmds - 1)
   <= fd_limit os)%Z ->
  length (children os) + length cmds <= proc_limit os ->
  exists (v : Z) (os' : OS),
    run_pipeline cmds false os = (Ret v, os')
    /\ reaped os'
       = reaped os
         ++ filter (fun pid => is_Some (wait_status os pid))
              (stage_pids os (length cmds))
    /\ ((forall pid, is_Some (wait_status os pid)) ->
        reaped os' = reaped os ++ stage_pids os (length cmds)).
Proof.
  intros Hfd Hproc.
  assert (Hall : forall l : list Z,
    (forall pid, is_Some (wait_status os pid)) ->
    filter (fun pid => is_Some (wait_status os pid)) l = l).
  { intros l Hs. induction l as [|x l IH]; [done|].
    rewrite filter_cons, decide_True by done. by rewrite IH. }
  destruct cmds as [|c0 cmds'].
  { exists 0%Z, os. simpl. split; [done|]. unfold stage_pids. simpl.
    by rewrite !app_nil_r. }
  set (cmds := c0 :: cmds') in *.
  destruct (run_pipeline_launch cmds os) as (pipes & os3 & new & Hrun & _
    & _ & Hre & _ & Hsf & _); [done..|].
  destruct (wait_loop_spec (stage_pids os (length cmds)) [] os3)
    as (os4 & Hwait & Hre4 & _).
  assert (Hws : wait_status os3 = wait_status os)
    by (by destruct Hsf as (_&_&_&_&_&_&_& -> & _)).
  rewrite Hrun. unfold wait_all. erewrite bind_Ret; [|exact Hwait].
  eexists _, os4. split; [done|]. rewrite Hre4, Hre, Hws.
  split; [done|]. intros Hs. by rewrite Hall.
Qed.

Lemma run_pipeline_foreground_reaps_witness :
  exists (v : Z) (os' : OS),
    run_pipeline (parse_pipeline (py "sleep 1 | sleep 2")) false killed_os
    = (Ret v, os')
    /\ reaped os' = reaped killed_os ++ [100%Z; 107%Z].
Proof.
  destruct (run_pipeline_foreground_reaps
              (parse_pipeline (py "sleep 1 | sleep 2")) killed_os)
    as (v & os' & Hrun & _ & Hall).
  - vm_compute. discriminate.
  - vm_compute. lia.
  - exists v, os'. split; [exact Hrun|]. apply Hall. intros pid. by eexists.
Defined.

Lemma search_outcome_frame (os os' : OS) (ps : list pystr) :
  fs os' = fs os -> cwd os' = cwd os ->
  search_outcome os' ps = search_outcome os ps.
Proof.
  intros Hfs Hcwd. unfold search_outcome.
  assert (He : forall p, path_error os' p = path_error os p).
  { intros p. unfold path_error. by rewrite Hfs. }
  assert (Hx : forall p, runnable os' p = runnable os p).
  { intros p. unfold runnable, path_ok. by rewrite He, Hfs, Hcwd. }
  induction ps as [|p ps IH]; [done|]. cbn [List.find].
  unfold path_ok at 1 3. rewrite Hx, He.
  destruct (_ || runnable os p); [by rewrite He | exact IH].
Qed.

Lemma resolve_frame (os os' : OS) (cmd : pystr) :
  fs os' = fs os -> cwd os' = cwd os -> environ os' = environ os ->
  resolve os' cmd = resolve os cmd.
Proof.
  intros Hfs Hcwd Henv. unfold resolve, candidates, environ_get.
  rewrite Henv. by apply search_outcome_frame.
Qed.

Lemma execve_accepts_frame (os os' : OS) (path : pystr) (argv : list pystr) :
  fs os' = fs os -> execve_accepts os' path argv = execve_accepts os path argv.
Proof.
  intros Hfs.
  assert (He : forall p, path_ok os' p = path_ok os p).
  { intros p. unfold path_ok, path_error. by rewrite Hfs. }
  assert (Hall : forall l, forallb (path_ok os') l = forallb (path_ok os) l).
  { induction l as [|a l IH]; [done|]. simpl. by rewrite He, IH. }
  unfold execve_accepts. rewrite He. destruct argv as [|a0 argv']; [done|].
  by rewrite Hall.
Qed.

Lemma exec_outcome_frame (os os' : OS) (cmd : command) :
  fs os' = fs os -> cwd os' = cwd os -> environ os' = environ os ->
  exec_outcome os' cmd = exec_outcome os cmd.
Proof.
  intros Hfs Hcwd Henv. unfold exec_outcome. destruct (args cmd); [done|].
  rewrite (resolve_frame os os') by done.
  destruct (resolve os l) as [[full|]|e|code|path argv]; try done.
  by rewrite (execve_accepts_frame os os'), Hfs, Hcwd.
Qed.

Lemma args_error_ok (os : OS) (argv : list pystr) :
  forallb (path_ok os) argv
  = match args_error os argv with Some _ => false | None => true end.
Proof.
  induction argv as [|a argv IH]; [done|]. simpl. unfold path_ok at 1.
  by destruct (path_error os a).
Qed.

Lemma args_error_ValueError (os : OS) (argv : list pystr) (e : exn) :
  args_error os argv = Some e -> exists msg, e = ValueError msg.
Proof.
  induction argv as [|a argv IH]; [done|]. simpl.
  destruct (path_error os a) eqn:E; [|exact IH].
  intros [= <-]. by eapply path_error_ValueError.
Qed.

Lemma try_execve_spec (full prog : pystr) (argv : list pystr) (os : OS) :
  try_except (os_execve full argv) (print_err (not_found prog) ;; os_exit 1)
    os
  = if execve_accepts os full argv && fs_execve (fs os) (cwd os) full
    then (Execed full argv, os)
    else (Exited 1, add_stderr (not_found prog ++ [Chr.newline]) os).
Proof.
  unfold try_except, try_catch, os_execve, execve_accepts.
  destruct (path_error os full) as [e|] eqn:E.
  { unfold path_ok. rewrite E.
    apply path_error_ValueError in E as [msg ->]. done. }
  rewrite (proj2 (path_ok_true os full) E).
  destruct argv as [|a0 argv']; [done|].
  rewrite args_error_ok.
  destruct (args_error os (a0 :: argv')) as [e|] eqn:Ea.
  { apply args_error_ValueError in Ea as [msg ->]. done. }
  destruct (bool_decide (a0 = [])); [done|].
  by destruct (fs_execve (fs os) (cwd os) full).
Qed.

(** The last step of a child changes no descriptor and ends as
    [exec_outcome] says. *)
Lemma exec_step_spec (cmd : command) (os : OS) :
  exists os',
    match args cmd with
    | [] => raise IndexError
    | prog :: _ =>
        let* full := find_executable prog in
        match full with
        | None => print_err (not_found prog) ;; os_exit 1
        | Some full =>
            try_except (os_execve full (args cmd))
              (print_err (not_found prog) ;; os_exit 1)
        end
    end os = (fst (exec_outcome os cmd), os')
    /\ fds os' = fds os
    /\ stderr os' = stderr os ++ snd (exec_outcome os cmd).
Proof.
  unfold exec_outcome. destruct (args cmd) as [|prog rest].
  - exists os. simpl. by rewrite app_nil_r.
  - unfold bind at 1. rewrite find_executable_spec.
    destruct (resolve os prog) as [[full|]|e|code|path argv].
    + rewrite try_execve_spec.
      destruct (execve_accepts os full (prog :: rest)
                && fs_execve (fs os) (cwd os) full); simpl.
      * exists os. by rewrite app_nil_r.
      * eexists. by repeat split.
    + eexists. unfold bind, print_err, os_exit. simpl. by repeat split.
    + exists os. simpl. by rewrite app_nil_r.
    + exists os. simpl. by rewrite app_nil_r.
    + exists os. simpl. by rewrite app_nil_r.
Qed.

Lemma os_dup2_spec (fd fd2 : Z) (d : fdesc) (os : OS) :
  fds os !! fd = Some d ->
  os_dup2 fd fd2 os = (Ret tt, set_fds (<[fd2 := d]> (fds os)) os).
Proof. intros H. unfold os_dup2. by rewrite H. Qed.

Lemma pipes_at_not_base (base t : gmap Z fdesc) (k0 : nat)
    (pipes : list (Z * Z)) (x : Z) :
  pipes_at base k0 pipes t -> is_Some (base !! x) -> x ∉ pipe_fds pipes.
Proof.
  intros (A1 & _) [d Hd] Hin. apply A1 in Hin. congruence.
Qed.

Lemma pipe_fds_lookup (pipes : list (Z * Z)) (j : nat) (p : Z * Z) :
  pipes !! j = Some p -> fst p ∈ pipe_fds pipes /\ snd p ∈ pipe_fds pipes.
Proof.
  revert j. induction pipes as [|q pipes IH]; intros [|j]; simpl; try done.
  - intros [= ->]. split; [apply list_elem_of_here|].
    apply list_elem_of_further, list_elem_of_here.
  - intros Hp. destruct (IH j Hp). split; by do 2 apply list_elem_of_further.
Qed.

Lemma wired_lookup_ext (b1 b2 : gmap Z fdesc) (k0 i n : nat) (x : Z) :
  b1 !! x = b2 !! x -> wired b1 k0 i n !! x = wired b2 k0 i n !! x.
Proof.
  intros Hx. unfold wired.
  destruct (i <? n - 1), (0 <? i);
    destruct (decide (x = 1%Z)) as [E1 | E1];
    destruct (decide (x = 0%Z)) as [E0 | E0];
    try congruence; subst;
    repeat (rewrite lookup_insert_eq
            || rewrite lookup_insert_ne by congruence);
    congruence.
Qed.

Lemma wired_lookup_other (b : gmap Z fdesc) (k0 i n : nat) (x : Z) :
  x <> 0%Z -> x <> 1%Z -> wired b k0 i n !! x = b !! x.
Proof.
  intros H0 H1. unfold wired.
  destruct (i <? n - 1), (0 <? i);
    by rewrite ?lookup_insert_ne by congruence.
Qed.

(** The table of a child wired to its pipes, with every pipe descriptor
    closed, is that of the shell with descriptors 0 and 1 replaced. *)
Lemma wired_closed (base t t' : gmap Z fdesc) (k0 i n : nat)
    (pipes : list (Z * Z)) :
  pipes_at base k0 pipes t ->
  is_Some (base !! 0%Z) -> is_Some (base !! 1%Z) ->
  (forall x, t' !! x = if decide (x ∈ pipe_fds pipes) then None
                       else wired t k0 i n !! x) ->
  t' = wired base k0 i n.
Proof.
  intros Hat H0 H1 Ht'.
  pose proof (pipes_at_not_base _ _ _ _ _ Hat H0) as Hn0.
  pose proof (pipes_at_not_base _ _ _ _ _ Hat H1) as Hn1.
  destruct Hat as (A1 & A2 & _ & _).
  apply map_eq. intros x. rewrite Ht'.
  destruct (decide (x ∈ pipe_fds pipes)) as [Hin | Hnin].
  - rewrite wired_lookup_other by (intros ->; done).
    symmetry. by apply A1.
  - apply wired_lookup_ext. by apply A2.
Qed.

(** A stage of a pipeline to which no file redirection applies. *)
Lemma child_body_wiring (i n : nat) (cmd : command) (pipes : list (Z * Z))
    (os : OS) (base : gmap Z fdesc) (k0 : nat) :
  pipes_at base k0 pipes (fds os) -> length pipes = n - 1 -> i < n ->
  is_Some (base !! 0%Z) -> is_Some (base !! 1%Z) ->
  (i = 0 -> truthy (infile cmd) = None) ->
  (i = n - 1 -> truthy (outfile cmd) = None) ->
  exists os',
    child_body i n cmd pipes os = (fst (exec_outcome os cmd), os')
    /\ fds os' = wired base k0 i n
    /\ stderr os' = stderr os ++ snd (exec_outcome os cmd).
Proof.
  intros Hat Hlen Hi H0 H1 Hin Hout.
  pose proof (pipes_at_not_base _ _ _ _ _ Hat H0) as Hn0.
  pose proof (pipes_at_not_base _ _ _ _ _ Hat H1) as Hn1.
  assert (Hstdin_file : (if i =? 0 then truthy (infile cmd) else None) = None).
  { destruct (i =? 0) eqn:E; [|done]. apply Nat.eqb_eq in E. by apply Hin. }
  assert (Hstdout_file :
            (if i =? n - 1 then truthy (outfile cmd) else None) = None).
  { destruct (i =? n - 1) eqn:E; [|done]. apply Nat.eqb_eq in E. by apply Hout. }
  set (t1 := if 0 <? i then <[0%Z := PipeRead (k0 + (i - 1))]> (fds os)
             else fds os).
  assert (Hstep2 :
    (if 0 <? i then
       match pipes !! (i - 1) with
       | Some (r, _) => os_dup2 r 0
       | None => raise IndexError
       end
     else ret tt) os = (Ret tt, set_fds t1 os)
    \/ ((0 <? i) = false /\ t1 = fds os)).
  { unfold t1. destruct (0 <? i) eqn:E; [left | by right].
    apply Nat.ltb_lt in E.
    destruct (lookup_lt_is_Some_2 pipes (i - 1)) as [[r w] Hp]; [lia|].
    rewrite Hp. destruct Hat as (_ & _ & A3 & _).
    destruct (A3 _ _ Hp) as [Hr _]. by apply os_dup2_spec. }
  assert (Hs2 : exists os2,
    (if 0 <? i then
       match pipes !! (i - 1) with
       | Some (r, _) => os_dup2 r 0
       | None => raise IndexError
       end
     else ret tt) os = (Ret tt, os2)
    /\ fds os2 = t1 /\ stderr os2 = stderr os /\ fs os2 = fs os
    /\ cwd os2 = cwd os /\ environ os2 = environ os).
  { destruct Hstep2 as [H | [E Ht]].
    - exists (set_fds t1 os). by repeat split.
    - exists os. rewrite E, Ht. by repeat split. }
  destruct Hs2 as (os2 & Hs2 & Hf2 & He2 & Hfs2 & Hcwd2 & Henv2).
  assert (Hs4 : exists os4,
    (if i <? n - 1 then
       match pipes !! i with
       | Some (_, w) => os_dup2 w 1
       | None => raise IndexError
       end
     else ret tt) os2 = (Ret tt, os4)
    /\ fds os4 = wired (fds os) k0 i n /\ stderr os4 = stderr os
    /\ fs os4 = fs os /\ cwd os4 = cwd os /\ environ os4 = environ os).
  { unfold wired. fold t1. destruct (i <? n - 1) eqn:E.
    - apply Nat.ltb_lt in E.
      destruct (lookup_lt_is_Some_2 pipes i) as [[r w] Hp]; [lia|].
      rewrite Hp. pose proof Hat as (_ & _ & A3 & _).
      destruct (A3 _ _ Hp) as [_ Hw]. simpl in Hw.
      destruct (pipe_fds_lookup _ _ _ Hp) as [_ Hwin]. simpl in Hwin.
      assert (Hw0 : w <> 0%Z) by (intros ->; by apply Hn0).
      assert (Hw1 : t1 !! w = Some (PipeWrite (k0 + i))).
      { unfold t1. destruct (0 <? i); [by rewrite lookup_insert_ne|done]. }
      exists (set_fds (<[1%Z := PipeWrite (k0 + i)]> (fds os2)) os2).
      split; [apply os_dup2_spec; by rewrite Hf2|].
      simpl. rewrite Hf2. by repeat split.
    - exists os2. by repeat split. }
  destruct Hs4 as (os4 & Hs4 & Hf4 & He4 & Hfs4 & Hcwd4 & Henv4).
  destruct (close_pipes_spec pipes os4)
    as (os5 & Hclose & Hf5 & _ & Hsf5 & _).
  destruct (exec_step_spec cmd os5) as (os6 & Hexec & Hf6 & He6).
  assert (Hsame : exec_outcome os5 cmd = exec_outcome os cmd).
  { destruct Hsf5 as (_ & _ & _ & Hc & He & Hf & _).
    apply exec_outcome_frame; congruence. }
  exists os6. split; [|split].
  - unfold child_body. rewrite Hstdin_file, Hstdout_file.
    erewrite bind_Ret; [|reflexivity].
    erewrite bind_Ret; [|exact Hs2].
    erewrite bind_Ret; [|reflexivity].
    erewrite bind_Ret; [|exact Hs4].
    erewrite bind_Ret; [|exact Hclose].
    rewrite Hexec. by rewrite Hsame.
  - rewrite Hf6. apply (wired_closed base (fds os) _ k0 i n pipes); try done.
    intros x. rewrite Hf5. by rewrite Hf4.
  - rewrite He6, Hsame. destruct Hsf5 as (_ & _ & -> & _). by rewrite He4.
Qed.

(** X17: the children of a pipeline are wired to its pipes.  For every
    stage to which no file redirection applies (an input file counts only
    on the first stage, an output file only on the last), the child of the
    stage is the one whose pid the shell collects in the place of the
    stage, its descriptor 0 reads the pipe from the stage before, its
    descriptor 1 writes the pipe to the stage after, no other pipe end is
    left open in it, and it ends as the last step does: it runs the program
    found for its first argument; or it reports the name as not found and
    exits with 1; or, for a name with a NUL character, it dies of the
    [ValueError] of the search.  The shell must have descriptors 0 and 1
    open. *)
Theorem run_pipeline_wires_stages
    (cmds : list command) (background : bool) (os : OS)
    (i : nat) (cmd : command) :
  (Z.of_nat (size (fds os)) + 2 * Z.of_nat (length cmds - 1)
   <= fd_limit os)%Z ->
  length (children os) + length cmds <= proc_limit os ->
  is_Some (fds os !! 0%Z) -> is_Some (fds os !! 1%Z) ->
  cmds !! i = Some cmd ->
  (i = 0 -> truthy (infile cmd) = None) ->
  (i = length cmds - 1 -> truthy (outfile cmd) = None) ->
  exists (v : Z) (os' : OS) (c : child),
    run_pipeline cmds background os = (Ret v, os')
    /\ children os' !! (length (children os) + i) = Some c
    /\ stage_pids os (length cmds) !! i = Some (ch_pid c)
    /\ ch_fds c = wired (fds os) (next_pipe os) i (length cmds)
    /\ ch_end c = fst (exec_outcome os cmd)
    /\ ch_stderr c = snd (exec_outcome os cmd).
Proof.
  intros Hfd Hproc H0 H1 Hi Hin Hout.
  assert (Hne : cmds <> []) by (by destruct cmds).
  destruct (run_pipeline_launch cmds os Hne Hfd Hproc)
    as (pipes & os3 & new & Hrun & _ & _ & _ & Hpids & _ & Hch & Hlen & Hplen
        & Hnew).
  destruct (Hnew i cmd Hi) as (os_i & Hc & Hat & Hsf).
  pose proof Hsf as (_ & _ & _ & Hcwd & Henv & Hfs & _).
  destruct (child_body_wiring i (length cmds) cmd pipes (forked os_i)
              (fds os) (next_pipe os))
    as (os_c & Hbody & Hfds & Herr); try done.
  { apply lookup_lt_Some in Hi. lia. }
  assert (Hsame : exec_outcome (forked os_i) cmd = exec_outcome os cmd)
    by (by apply exec_outcome_frame).
  assert (Hchild : children os3 !! (length (children os) + i)
                   = Some (child_of (child_body i (length cmds) cmd pipes) os_i)).
  { rewrite Hch, lookup_app_r by lia.
    by replace (length (children os) + i - length (children os)) with i by lia. }
  assert (Hres : exists v os',
    run_pipeline cmds background os = (Ret v, os')
    /\ children os' = children os3).
  { rewrite Hrun. destruct background; [by exists 0%Z, os3|].
    destruct (wait_loop_spec (stage_pids os (length cmds)) [] os3)
      as (os4 & Hwait & _ & _ & _ & Hch4 & _).
    unfold wait_all. erewrite bind_Ret; [|exact Hwait]. by eexists _, os4. }
  destruct Hres as (v & os' & Hres & Hch').
  exists v, os', (child_of (child_body i (length cmds) cmd pipes) os_i).
  split; [done|]. split; [by rewrite Hch'|].
  split; [by rewrite <- Hpids, list_lookup_fmap, Hc|].
  unfold child_of. simpl.
  rewrite Hbody. simpl. rewrite Hfds, Herr, Hsame. done.
Qed.

Lemma run_pipeline_wires_stages_witness :
  exists (v : Z) (os' : OS) (c : child),
    run_pipeline (parse_pipeline (py "sleep 1 | sleep 2 | nosuch")) false
      killed_os = (Ret v, os')
    /\ children os' !! (length (children killed_os) + 1) = Some c
    /\ stage_pids killed_os 3 !! 1 = Some (ch_pid c)
    /\ ch_fds c = wired (fds killed_os) (next_pipe killed_os) 1 3
    /\ ch_end c
       = fst (exec_outcome killed_os (Command [py "sleep"; py "2"] None None
                                        false))
    /\ ch_stderr c
       = snd (exec_outcome killed_os (Command [py "sleep"; py "2"] None None
                                        false)).
Proof.
  apply (run_pipeline_wires_stages
           (parse_pipeline (py "sleep 1 | sleep 2 | nosuch")) false killed_os
           1 (Command [py "sleep"; py "2"] None None false)).
  - vm_compute. discriminate.
  - vm_compute. lia.
  - by eexists.
  - by eexists.
  - reflexivity.
  - discriminate.
  - discriminate.
Defined.

Lemma bind_Exited {A B} (m : M A) (k : A -> M B) (os os' : OS) (code : Z) :
  m os = (Exited code, os') -> bind m k os = (Exited code, os').
Proof. intros H. unfold bind. by rewrite H. Qed.

Lemma redirect_block_ok (path : pystr) (flags mode tgt : Z) (os : OS) :
  opens os path flags = true ->
  (Z.of_nat (size (fds os)) < fd_limit os)%Z ->
  is_Some (fds os !! tgt) ->
  try_except
    (let* fd := os_open path flags mode in
     os_dup2 fd tgt ;;
     os_close fd)
    (print_err (not_found path) ;; os_exit 1) os
  = (Ret tt, set_fds (<[tgt := File path flags]> (fds os)) os).
Proof.
  intros Hopen Hlim [d Htgt]. unfold opens in Hopen.
  apply andb_true_iff in Hopen as [Hnull Hopen].
  apply path_ok_true in Hnull.
  pose proof (fresh_fd_le (fds os)) as Hle.
  pose proof (fresh_fd_fresh (fds os)) as Hfresh.
  set (fd := fresh_fd (fds os)) in *.
  assert (Hne : fd <> tgt) by congruence.
  assert (Hlt : (fd <? fd_limit os)%Z = true) by (apply Z.ltb_lt; lia).
  unfold try_except, try_catch, bind, os_open. fold fd.
  rewrite Hnull, Hopen, Hlt. simpl. unfold os_dup2. simpl.
  rewrite lookup_insert_eq. unfold os_close. simpl.
  rewrite lookup_insert_ne, lookup_insert_eq by done. simpl.
  unfold set_fds. simpl. f_equal. f_equal.
  rewrite delete_insert_ne by done.
  by rewrite delete_insert_eq, delete_id.
Qed.

Lemma redirect_block_fail (path : pystr) (flags mode tgt : Z) (os : OS) :
  opens os path flags = false ->
  try_except
    (let* fd := os_open path flags mode in
     os_dup2 fd tgt ;;
     os_close fd)
    (print_err (not_found path) ;; os_exit 1) os
  = (Exited 1, add_stderr (not_found path ++ [Chr.newline]) os).
Proof.
  intros Hopen. unfold opens, path_ok in Hopen.
  unfold try_except, try_catch, bind, os_open.
  destruct (path_error os path) as [e|] eqn:E.
  { apply path_error_ValueError in E as [msg ->]. done. }
  simpl in Hopen. by rewrite Hopen.
Qed.

Lemma opens_frame (os os' : OS) (p : pystr) (flags : Z) :
  fs os' = fs os -> cwd os' = cwd os -> opens os' p flags = opens os p flags.
Proof.
  intros Hfs Hcwd. unfold opens, path_ok, path_error. by rewrite Hfs, Hcwd.
Qed.

(** The child of a single command, with the descriptor that [os.open]
    gives it for a moment left out of the account. *)
Lemma child_body_single (cmd : command) (os : OS) :
  is_Some (fds os !! 0%Z) -> is_Some (fds os !! 1%Z) ->
  (Z.of_nat (size (fds os)) < fd_limit os)%Z ->
  exists os',
    child_body 0 1 cmd [] os = (fst (fst (single_stage_outcome os cmd)), os')
    /\ fds os' = snd (fst (single_stage_outcome os cmd))
    /\ stderr os' = stderr os ++ snd (single_stage_outcome os cmd).
Proof.
  intros H0 H1 Hlim. unfold child_body, single_stage_outcome. simpl.
  assert (Hafter : forall os1 : OS,
    fs os1 = fs os -> cwd os1 = cwd os -> environ os1 = environ os ->
    fd_limit os1 = fd_limit os -> stderr os1 = stderr os ->
    is_Some (fds os1 !! 1%Z) ->
    (Z.of_nat (size (fds os1)) < fd_limit os)%Z ->
    exists os',
      (match truthy (outfile cmd) with
       | Some path =>
           try_except
             (let flags := Z.lor O_WRONLY O_CREAT in
              let flags :=
                if append cmd then Z.lor flags O_APPEND
                else Z.lor flags O_TRUNC in
              let* fdout := os_open path flags 438 in
              os_dup2 fdout 1 ;;
              os_close fdout)
             (print_err (not_found path) ;; os_exit 1)
       | None => ret tt
       end ;;
       ret tt ;;
       for_each [] close_pipe ;;
       match args cmd with
       | [] => raise IndexError
       | prog :: _ =>
           let* full := find_executable prog in
           match full with
           | None => print_err (not_found prog) ;; os_exit 1
           | Some full =>
               try_except (os_execve full (args cmd))
                 (print_err (not_found prog) ;; os_exit 1)
           end
       end) os1
      = (fst (fst (match truthy (outfile cmd) with
                   | Some p =>
                       if opens os p (out_flags cmd) then
                         (fst (exec_outcome os cmd),
                          <[1%Z := File p (out_flags cmd)]> (fds os1),
                          snd (exec_outcome os cmd))
                       else (Exited 1, fds os1, [not_found p ++ [Chr.newline]])
                   | None =>
                       (fst (exec_outcome os cmd), fds os1,
                        snd (exec_outcome os cmd))
                   end)), os')
      /\ fds os'
         = snd (fst (match truthy (outfile cmd) with
                     | Some p =>
                         if opens os p (out_flags cmd) then
                           (fst (exec_outcome os cmd),
                            <[1%Z := File p (out_flags cmd)]> (fds os1),
                            snd (exec_outcome os cmd))
                         else (Exited 1, fds os1,
                               [not_found p ++ [Chr.newline]])
                     | None =>
                         (fst (exec_outcome os cmd), fds os1,
                          snd (exec_outcome os cmd))
                     end))
      /\ stderr os'
         = stderr os
           ++ snd (match truthy (outfile cmd) with
                   | Some p =>
                       if opens os p (out_flags cmd) then
                         (fst (exec_outcome os cmd),
                          <[1%Z := File p (out_flags cmd)]> (fds os1),
                          snd (exec_outcome os cmd))
                       else (Exited 1, fds os1, [not_found p ++ [Chr.newline]])
                   | None =>
                       (fst (exec_outcome os cmd), fds os1,
                        snd (exec_outcome os cmd))
                   end)).
  { intros os1 Hfs Hcwd Henv Hfl Herr H1' Hlim'.
    assert (Hexec : forall os2 : OS,
      fs os2 = fs os -> cwd os2 = cwd os -> environ os2 = environ os ->
      stderr os2 = stderr os ->
      exists os',
        (ret tt ;;
         for_each [] close_pipe ;;
         match args cmd with
         | [] => raise IndexError
         | prog :: _ =>
             let* full := find_executable prog in
             match full with
             | None => print_err (not_found prog) ;; os_exit 1
             | Some full =>
                 try_except (os_execve full (args cmd))
                   (print_err (not_found prog) ;; os_exit 1)
             end
         end) os2 = (fst (exec_outcome os cmd), os')
        /\ fds os' = fds os2
        /\ stderr os' = stderr os ++ snd (exec_outcome os cmd)).
    { intros os2 Hfs2 Hcwd2 Henv2 Herr2.
      destruct (exec_step_spec cmd os2) as (os' & Hx & Hf & He).
      rewrite (exec_outcome_frame os os2) in Hx, He by done.
      exists os'. split; [|split; [done | by rewrite He, Herr2]].
      erewrite bind_Ret; [|reflexivity].
      erewrite bind_Ret; [|reflexivity]. exact Hx. }
    destruct (truthy (outfile cmd)) as [p|].
    - destruct (opens os p (out_flags cmd)) eqn:Hopen.
      + destruct (Hexec (set_fds (<[1%Z := File p (out_flags cmd)]> (fds os1))
                           os1)) as (os' & Hx & Hf & He); try done.
        exists os'. split; [|split; [done | done]].
        erewrite bind_Ret; [exact Hx|].
        apply (redirect_block_ok p (out_flags cmd) 438 1 os1);
          [by rewrite (opens_frame os os1) | by rewrite Hfl | done].
      + eexists. split; [|split].
        * apply bind_Exited.
          apply (redirect_block_fail p (out_flags cmd) 438 1 os1).
          by rewrite (opens_frame os os1).
        * done.
        * simpl. by rewrite Herr.
    - destruct (Hexec os1) as (os' & Hx & Hf & He); try done.
      exists os'. split; [|split; [done | done]].
      erewrite bind_Ret; [exact Hx | reflexivity]. }
  destruct (truthy (infile cmd)) as [p|].
  - destruct (opens os p O_RDONLY) eqn:Hopen.
    + destruct (Hafter (set_fds (<[0%Z := File p O_RDONLY]> (fds os)) os))
        as (os' & Hx & Hf & He); try done.
      { simpl. destruct H1 as [d Hd]. exists d. by rewrite lookup_insert_ne. }
      { simpl. rewrite map_size_insert_Some by done. done. }
      exists os'. split; [|split; [done | done]].
      erewrite bind_Ret; [|by apply (redirect_block_ok p O_RDONLY 511 0 os)].
      erewrite bind_Ret; [exact Hx | reflexivity].
    + eexists. split; [|split].
      * apply bind_Exited.
        by apply (redirect_block_fail p O_RDONLY 511 0 os).
      * done.
      * done.
  - destruct (Hafter os) as (os' & Hx & Hf & He); try done.
    exists os'. split; [|split; [done | done]].
    erewrite bind_Ret; [|reflexivity].
    erewrite bind_Ret; [exact Hx | reflexivity].
Qed.

Lemma single_stage_outcome_frame (os os' : OS) (cmd : command) :
  fs os' = fs os -> cwd os' = cwd os -> environ os' = environ os ->
  fds os' = fds os ->
  single_stage_outcome os' cmd = single_stage_outcome os cmd.
Proof.
  intros Hfs Hcwd Henv Hfds. unfold single_stage_outcome.
  rewrite (exec_outcome_frame os os') by done.
  assert (Ho : forall p flags, opens os' p flags = opens os p flags)
    by (intros; by apply opens_frame).
  rewrite Hfds.
  destruct (truthy (infile cmd)), (truthy (outfile cmd)); by rewrite ?Ho.
Qed.

(** X18: the redirections of a single command.  Its child opens the
    input file first, read-only, and then the output file, write-only and
    created if need be, for appending when [append] is set and truncated
    otherwise; a file that cannot be opened, as none with a NUL character
    in its path can, makes the child print [<path>: command not found] and
    exit with 1 before anything that comes later is tried.  Otherwise
    descriptors 0 and 1 refer to the files, the descriptor [os.open] gave
    is closed again, and the child ends as a stage of a pipeline does: it
    runs the program, reports the name as not found and exits with 1, or
    dies of the [ValueError] of the search for a name with a NUL
    character.  The shell must have descriptors 0 and 1 open and one
    descriptor to spare. *)
Theorem run_pipeline_single_redirects
    (cmd : command) (background : bool) (os : OS) :
  (Z.of_nat (size (fds os)) < fd_limit os)%Z ->
  length (children os) < proc_limit os ->
  is_Some (fds os !! 0%Z) -> is_Some (fds os !! 1%Z) ->
  exists (v : Z) (os' : OS) (c : child),
    run_pipeline [cmd] background os = (Ret v, os')
    /\ last (children os') = Some c
    /\ ch_pid c = next_pid os
    /\ (ch_end c, ch_fds c, ch_stderr c) = single_stage_outcome os cmd.
Proof.
  intros Hfd Hproc H0 H1.
  destruct (run_pipeline_launch [cmd] os)
    as (pipes & os3 & new & Hrun & _ & _ & _ & Hpids & _ & Hch & Hlen & Hplen
        & Hnew); [done | simpl; lia | simpl; lia |].
  destruct pipes; [|done].
  destruct (Hnew 0 cmd eq_refl) as (os_i & Hc & Hat & Hsf).
  pose proof Hsf as (_ & _ & _ & Hcwd & Henv & Hfs & _ & _ & Hfl & _).
  assert (Hfds : fds os_i = fds os).
  { destruct Hat as (_ & A2 & _). apply map_eq. intros x.
    apply A2, not_elem_of_nil. }
  destruct (child_body_single cmd (forked os_i))
    as (os_c & Hbody & Hcf & Herr); simpl; try (by rewrite Hfds).
  { by rewrite Hfds, Hfl. }
  rewrite (single_stage_outcome_frame os (forked os_i)) in Hbody, Hcf, Herr
    by done.
  destruct new as [|c [|c' new']]; try done. simpl in Hc.
  assert (Hpid : ch_pid c = next_pid os).
  { unfold stage_pids, next_pid in *. simpl in Hpids.
    rewrite Nat.add_0_r in Hpids. congruence. }
  injection Hc as ->.
  assert (Hres : exists v os',
    run_pipeline [cmd] background os = (Ret v, os')
    /\ children os' = children os3).
  { rewrite Hrun. destruct background; [by exists 0%Z, os3|].
    destruct (wait_loop_spec (stage_pids os 1) [] os3)
      as (os4 & Hwait & _ & _ & _ & Hch4 & _).
    unfold wait_all. erewrite bind_Ret; [|exact Hwait]. by eexists _, os4. }
  destruct Hres as (v & os' & Hres & Hch').
  eexists v, os', _. split; [done|]. split; [by rewrite Hch', Hch, last_snoc|].
  split; [exact Hpid|].
  unfold child_of. simpl. rewrite Hbody. simpl. rewrite Hcf, Herr.
  by destruct (single_stage_outcome os cmd) as [[? ?] ?].
Qed.

Lemma run_pipeline_single_redirects_witness :
  exists (v : Z) (os' : OS) (c : child),
    run_pipeline [Command [py "sleep"; py "1"] (Some (py "in"))
                    (Some (py "out")) true] false killed_os = (Ret v, os')
    /\ last (children os') = Some c
    /\ ch_pid c = next_pid killed_os
    /\ (ch_end c, ch_fds c, ch_stderr c)
       = single_stage_outcome killed_os
           (Command [py "sleep"; py "1"] (Some (py "in")) (Some (py "out"))
              true).
Proof.
  apply (run_pipeline_single_redirects
           (Command [py "sleep"; py "1"] (Some (py "in")) (Some (py "out"))
              true) false killed_os).
  - vm_compute. reflexivity.
  - vm_compute. lia.
  - by eexists.
  - by eexists.
Defined.














(** ** The driver *)

Lemma returns_run_pipeline_background (cmds : list command) :
  returns (fun v => v = 0%Z) (run_pipeline cmds true).
Proof.
  unfold run_pipeline. destruct (length cmds =? 0); [by apply returns_ret|].
  apply (returns_bind (fun _ => True)); [apply returns_any|]. intros pipes _.
  apply (returns_bind (fun _ => True)); [apply returns_any|]. intros pids _.
  apply (returns_bind (fun _ => True)); [apply returns_any|]. intros _ _.
  by apply returns_ret.
Qed.

Lemma dispatch_execute (cmds : list command) (background : bool) :
  goes_to_executor cmds ->
  dispatch cmds background
  = (let* status := run_pipeline cmds background in
     (if negb (status =? 0)%Z then
        print_err (py "Program terminated with exit code "
                   ++ str_of_int status ++ py ".")
      else ret tt) ;;
     ret Continue).
Proof.
  unfold dispatch, goes_to_executor.
  destruct cmds as [|c [|c' cmds']]; [done | | done].
  intros (a0 & rest & -> & Hexit & Hcd). unfold pystr_eqb.
  by rewrite !bool_decide_eq_false_2 by done.
Qed.

(** X19: the only line the shell prints about a pipeline.  When a parsed
    line goes to [run_pipeline] and that returns a status, the driver goes
    on to the next line, and what it has added to the standard error of
    the shell is the report of the status when it is not 0, and nothing
    when it is 0; [run_pipeline] itself has added nothing.  In the
    background the status is 0, so that nothing is printed. *)
Theorem dispatch_reports_status
    (cmds : list command) (background : bool) (os os1 : OS) (v : Z) :
  goes_to_executor cmds ->
  run_pipeline cmds background os = (Ret v, os1) ->
  exists os',
    dispatch cmds background os = (Ret Continue, os')
    /\ stderr os' = stderr os ++ status_report v
    /\ stdout os' = stdout os
    /\ (background = true -> v = 0%Z /\ stderr os' = stderr os).
Proof.
  intros Hgo Hrun.
  pose proof (run_pipeline_preserves_shell cmds background os os1 _ Hrun)
    as (_ & Hout & Herr & _).
  rewrite (dispatch_execute cmds background Hgo).
  erewrite bind_Ret; [|exact Hrun]. unfold status_report.
  assert (Hbg : background = true -> v = 0%Z).
  { intros ->. by apply (returns_run_pipeline_background cmds os os1). }
  destruct (v =? 0)%Z eqn:E; simpl.
  - exists os1. rewrite app_nil_r. repeat split; try done. by apply Hbg.
  - eexists. split; [reflexivity|]. simpl. rewrite Herr, Hout.
    split; [by rewrite <- !app_assoc|]. split; [done|].
    intros Hb. apply Hbg in Hb. subst v. discriminate E.
Qed.

Lemma dispatch_reports_status_witness :
  exists os1 os' : OS,
    run_pipeline sample_pipeline false killed_os = (Ret 1%Z, os1)
    /\ dispatch sample_pipeline false killed_os = (Ret Continue, os')
    /\ stderr os'
       = stderr killed_os
         ++ [py "Program terminated with exit code 1." ++ [Chr.newline]].
Proof.
  destruct (run_pipeline sample_pipeline false killed_os) as [r os1] eqn:Hrun.
  assert (Hr : r = Ret 1%Z).
  { change r with (fst (r, os1)). rewrite <- Hrun. vm_compute. reflexivity. }
  subst r.
  destruct (dispatch_reports_status sample_pipeline false killed_os os1 1%Z)
    as (os' & Hd & Herr & _).
  - exists (py "sleep"), [py "5"]. repeat split; discriminate.
  - exact Hrun.
  - exists os1, os'. split; [reflexivity|]. split; [exact Hd | exact Herr].
Defined.

Lemma lstrip_spaces (ws s : pystr) :
  Forall (fun c => is_space c = true) ws -> lstrip (ws ++ s) = lstrip s.
Proof. induction 1 as [|c ws Hc _ IH]; [done|]. simpl. by rewrite Hc. Qed.

Lemma strip_spaces (ws : pystr) :
  Forall (fun c => is_space c = true) ws -> strip ws = [].
Proof.
  intros Hws. unfold strip, rstrip.
  rewrite <- (app_nil_r ws), lstrip_spaces by done. done.
Qed.

Lemma strip_lone_amp (ws1 ws2 : pystr) :
  Forall (fun c => is_space c = true) ws1 ->
  Forall (fun c => is_space c = true) ws2 ->
  strip (ws1 ++ Chr.amp :: ws2) = [Chr.amp].
Proof.
  intros H1 H2. unfold strip, rstrip. rewrite lstrip_spaces by done.
  change (lstrip (Chr.amp :: ws2)) with (Chr.amp :: ws2).
  rewrite reverse_cons, lstrip_spaces by (by apply Forall_reverse). done.
Qed.

Lemma blank_lines_are_skipped_aux (ws : pystr) (os : OS) :
  Forall (fun c => is_space c = true) ws ->
  handle_line ws os = (Ret Continue, os) /\ strip ws = [].
Proof.
  intros Hws. unfold handle_line. by rewrite strip_spaces.
Qed.

(** X20: lines with nothing to run are skipped.  A line of white space
    only, and a line that holds nothing but one ampersand and white space,
    make the driver go on to the next line with the state as it was:
    nothing is parsed into a command, nothing is spawned and nothing is
    printed. *)
Theorem blank_lines_are_skipped (ws1 ws2 : pystr) (os : OS) :
  Forall (fun c => is_space c = true) ws1 ->
  Forall (fun c => is_space c = true) ws2 ->
  handle_line ws1 os = (Ret Continue, os)
  /\ handle_line (ws1 ++ Chr.amp :: ws2) os = (Ret Continue, os).
Proof.
  intros H1 H2. unfold handle_line. split.
  - by rewrite strip_spaces.
  - by rewrite strip_lone_amp.
Qed.

Lemma blank_lines_are_skipped_witness :
  handle_line (py "  " ++ [Chr.newline]) killed_os = (Ret Continue, killed_os)
  /\ handle_line ((py "  " ++ [Chr.newline]) ++ Chr.amp :: py " ") killed_os
     = (Ret Continue, killed_os).
Proof.
  apply (blank_lines_are_skipped (py "  " ++ [Chr.newline]) (py " ")
           killed_os); repeat constructor.
Defined.

Lemma driver_frame_refl (os : OS) : driver_frame os os.
Proof. by repeat split. Qed.

Lemma driver_frame_trans (os1 os2 os3 : OS) :
  driver_frame os1 os2 -> driver_frame os2 os3 -> driver_frame os1 os3.
Proof.
  intros (?&?&?&?&?&?&?&?&?&?) (?&?&?&?&?&?&?&?&?&?).
  repeat split; congruence.
Qed.

Lemma prompt_state_spec (prompt : pystr) (interactive : bool) (os : OS) :
  stdin (prompt_state prompt interactive os) = stdin os
  /\ stdout (prompt_state prompt interactive os)
     = stdout os ++ prompts prompt interactive 1
  /\ driver_frame os (prompt_state prompt interactive os).
Proof.
  unfold prompt_state, prompts.
  destruct (interactive && negb (bool_decide (prompt = []))); simpl.
  - by repeat split.
  - rewrite app_nil_r. by repeat split.
Qed.

Lemma main_round_line (prompt : pystr) (interactive : bool) (os : OS)
    (l : pystr) (rest : list input) :
  stdin os = Line l :: rest -> l <> [] ->
  main_round prompt interactive os
  = round_handlers (handle_line l)
      (set_stdin rest (prompt_state prompt interactive os)).
Proof.
  intros Hin Hl. unfold main_round, round_handlers, try_catch, prompt_state.
  unfold bind at 1.
  destruct (interactive && negb (bool_decide (prompt = []))); simpl;
    unfold bind, readline; simpl; rewrite Hin; by destruct l.
Qed.

Lemma main_round_raises (prompt : pystr) (interactive : bool) (os : OS)
    (e : exn) (rest : list input) :
  stdin os = Raises e :: rest ->
  main_round prompt interactive os
  = round_handlers (raise e)
      (set_stdin rest (prompt_state prompt interactive os)).
Proof.
  intros Hin. unfold main_round, round_handlers, try_catch, prompt_state.
  unfold bind at 1.
  destruct (interactive && negb (bool_decide (prompt = []))); simpl;
    unfold bind, readline, raise; simpl; by rewrite Hin.
Qed.

Lemma main_round_eof (prompt : pystr) (interactive : bool) (os : OS) :
  stdin os = [] ->
  main_round prompt interactive os
  = (Ret Break, prompt_state prompt interactive os).
Proof.
  intros Hin. unfold main_round, round_handlers, try_catch, prompt_state.
  unfold bind at 1.
  destruct (interactive && negb (bool_decide (prompt = []))); simpl;
    unfold bind, readline; simpl; by rewrite Hin.
Qed.

Lemma prompts_S (prompt : pystr) (interactive : bool) (k : nat) :
  prompts prompt interactive 1 ++ prompts prompt interactive k
  = prompts prompt interactive (S k).
Proof.
  unfold prompts. by destruct (interactive && negb (bool_decide (prompt = []))).
Qed.

(** The rounds that read the blank lines at the head of the input. *)
Lemma main_loop_blanks (prompt : pystr) (interactive : bool)
    (tail : list input) (blanks : list pystr) :
  Forall blank_line blanks ->
  forall (fuel : nat) (os : OS),
    stdin os = (Line <$> blanks) ++ tail ->
    exists os1,
      main_loop (length blanks + fuel) prompt interactive os
      = main_loop fuel prompt interactive os1
      /\ stdin os1 = tail
      /\ stdout os1 = stdout os ++ prompts prompt interactive (length blanks)
      /\ driver_frame os os1.
Proof.
  induction 1 as [|l blanks [Hl Hws] _ IH]; intros fuel os Hin.
  - exists os. unfold prompts. simpl.
    destruct (interactive && _); rewrite app_nil_r;
      (split; [done|]; split; [done|]; split; [done|];
       apply driver_frame_refl).
  - destruct (prompt_state_spec prompt interactive os) as (Hpin & Hpout & Hpf).
    set (os0 := set_stdin ((Line <$> blanks) ++ tail)
                  (prompt_state prompt interactive os)).
    destruct (IH fuel os0) as (os1 & Hloop & Hin1 & Hout1 & Hf1); [done|].
    exists os1. split; [|split; [done|split]].
    + cbn [length Nat.add main_loop]. unfold bind.
      rewrite (main_round_line prompt interactive os l
                 ((Line <$> blanks) ++ tail)) by done.
      fold os0. unfold round_handlers, try_catch.
      rewrite (proj1 (blank_lines_are_skipped_aux l os0 Hws)). exact Hloop.
    + rewrite Hout1. unfold os0. simpl. rewrite Hpout, <- app_assoc.
      by rewrite prompts_S.
    + eapply driver_frame_trans; [|exact Hf1].
      eapply driver_frame_trans; [exact Hpf|]. unfold os0. by repeat split.
Qed.

Lemma prompts_snoc (prompt : pystr) (interactive : bool) (k : nat) :
  prompts prompt interactive k ++ prompts prompt interactive 1
  = prompts prompt interactive (S k).
Proof.
  unfold prompts.
  destruct (interactive && negb (bool_decide (prompt = []))); [|done].
  replace (S k) with (k + 1) by lia. by rewrite replicate_add.
Qed.

Lemma handle_line_exit (l : pystr) (os : OS) :
  exit_line l -> l <> [] /\ handle_line l os = (Raise (SystemExit 0), os).
Proof.
  intros (c & rest & Hparse & Hargs).
  assert (Hs : strip l <> []).
  { apply command_text_nonempty. by rewrite Hparse. }
  split; [by intros ->|].
  rewrite handle_line_dispatch, Hparse by done. unfold dispatch.
  by rewrite Hargs.
Qed.

(** X21: a session up to [exit] or the end of the input.  The shell reads
    the blank lines at the head of its input one by one, prompting before
    each read when its input is a terminal and the prompt is not empty.
    If the input ends there, [main] returns; if a line that parses to
    [exit] comes next, [main] ends by [SystemExit(0)] and what comes after
    it is left unread.  In both cases the shell has prompted once per
    read and done nothing else. *)
Theorem main_reads_until_exit
    (os : OS) (blanks : list pystr) (tail : list input) :
  stdin os = (Line <$> blanks) ++ tail -> Forall blank_line blanks ->
  (tail = [] ->
   exists os',
     main os = (Ret tt, os') /\ stdin os' = []
     /\ stdout os'
        = stdout os ++ prompts (get_prompt os) (isatty os) (S (length blanks))
     /\ driver_frame os os')
  /\ (forall l rest,
        tail = Line l :: rest -> exit_line l ->
        exists os',
          main os = (Raise (SystemExit 0), os') /\ stdin os' = rest
          /\ stdout os'
             = stdout os
               ++ prompts (get_prompt os) (isatty os) (S (length blanks))
          /\ driver_frame os os').
Proof.
  intros Hin Hblanks.
  destruct (main_loop_blanks (get_prompt os) (isatty os) tail blanks Hblanks
              (S (length tail)) os Hin) as (os1 & Hloop & Hin1 & Hout1 & Hf1).
  assert (Hmain : main os
                  = main_loop (S (length tail)) (get_prompt os) (isatty os) os1).
  { unfold main. rewrite Hin, length_app, length_fmap.
    replace (S (length blanks + length tail))
      with (length blanks + S (length tail)) by lia.
    exact Hloop. }
  destruct (prompt_state_spec (get_prompt os) (isatty os) os1)
    as (Hpin & Hpout & Hpf).
  split.
  - intros ->. exists (prompt_state (get_prompt os) (isatty os) os1).
    split; [|split; [|split]].
    + rewrite Hmain. cbn [main_loop]. unfold bind.
      by rewrite main_round_eof.
    + by rewrite Hpin.
    + rewrite Hpout, Hout1, <- app_assoc. by rewrite prompts_snoc.
    + by eapply driver_frame_trans.
  - intros l rest -> Hexit.
    set (os0 := set_stdin rest (prompt_state (get_prompt os) (isatty os) os1)).
    destruct (handle_line_exit l os0 Hexit) as [Hl Hh].
    exists os0. split; [|split; [|split]].
    + rewrite Hmain. cbn [main_loop]. unfold bind.
      rewrite (main_round_line _ _ os1 l rest) by done. fold os0.
      unfold round_handlers, try_catch. by rewrite Hh.
    + done.
    + unfold os0. simpl. rewrite Hpout, Hout1, <- app_assoc.
      by rewrite prompts_snoc.
    + eapply driver_frame_trans; [exact Hf1|].
      eapply driver_frame_trans; [exact Hpf|]. unfold os0. by repeat split.
Qed.

Lemma main_reads_until_exit_witness :
  exists os',
    main (set_stdin [Line (py " " ++ [Chr.newline]);
                     Line (py "exit 3 &" ++ [Chr.newline]);
                     Line (py "sleep 5")] killed_os)
    = (Raise (SystemExit 0), os')
    /\ stdin os' = [Line (py "sleep 5")].
Proof.
  destruct (proj2 (main_reads_until_exit
              (set_stdin [Line (py " " ++ [Chr.newline]);
                          Line (py "exit 3 &" ++ [Chr.newline]);
                          Line (py "sleep 5")]
                 killed_os)
              [py " " ++ [Chr.newline]]
              [Line (py "exit 3 &" ++ [Chr.newline]); Line (py "sleep 5")]
              eq_refl
              ltac:(repeat constructor; discriminate))
            (py "exit 3 &" ++ [Chr.newline]) [Line (py "sleep 5")] eq_refl)
    as (os' & Hmain & Hin & _).
  - exists (Command [py "exit"; py "3"] None None false), [py "3"].
    split; reflexivity.
  - exists os'. split; [exact Hmain | exact Hin].
Defined.

(** X22: an interrupt at the prompt does not end the shell.  When the
    read of a line is interrupted, the round prints a newline on standard
    output, after the prompt if there is one, and the loop goes on: the
    shell behaves from then on as it does on the rest of the input, and
    nothing but its standard output has changed.  An exception of the read
    that is neither [KeyboardInterrupt] nor [EOFError] ends [main]. *)
Theorem main_survives_interrupt (os : OS) (e : exn) (rest : list input) :
  stdin os = Raises e :: rest ->
  (e = KeyboardInterrupt ->
   main_round (get_prompt os) (isatty os) os
   = (Ret Continue, interrupted (get_prompt os) (isatty os) rest os)
   /\ main os = main (interrupted (get_prompt os) (isatty os) rest os)
   /\ stdin (interrupted (get_prompt os) (isatty os) rest os) = rest
   /\ stdout (interrupted (get_prompt os) (isatty os) rest os)
      = stdout os ++ prompts (get_prompt os) (isatty os) 1 ++ [[Chr.newline]]
   /\ driver_frame os (interrupted (get_prompt os) (isatty os) rest os))
  /\ (e <> KeyboardInterrupt -> e <> EOFError ->
      main os
      = (Raise e, set_stdin rest (prompt_state (get_prompt os) (isatty os) os))).
Proof.
  intros Hin.
  pose proof (main_round_raises (get_prompt os) (isatty os) os e rest Hin)
    as Hround.
  destruct (prompt_state_spec (get_prompt os) (isatty os) os)
    as (Hpin & Hpout & Hpf).
  split.
  - intros ->.
    assert (Hr : main_round (get_prompt os) (isatty os) os
                 = (Ret Continue,
                    interrupted (get_prompt os) (isatty os) rest os))
      by (by rewrite Hround).
    split; [exact Hr|]. split; [|split; [done|split]].
    + unfold main at 1. rewrite Hin. cbn [length main_loop]. unfold bind.
      rewrite Hr. unfold main.
      replace (get_prompt (interrupted (get_prompt os) (isatty os) rest os))
        with (get_prompt os).
      2: { unfold interrupted, prompt_state, get_prompt.
           by destruct (isatty os && _). }
      replace (isatty (interrupted (get_prompt os) (isatty os) rest os))
        with (isatty os).
      2: { unfold interrupted, prompt_state.
           by destruct (isatty os && _). }
      done.
    + unfold interrupted. simpl. by rewrite Hpout, <- app_assoc.
    + eapply driver_frame_trans; [exact Hpf|]. unfold interrupted.
      by repeat split.
  - intros Hki Heof. unfold main. rewrite Hin. cbn [length main_loop].
    unfold bind. rewrite Hround. unfold round_handlers, try_catch, raise.
    by destruct e.
Qed.

Lemma main_survives_interrupt_witness :
  main (set_stdin [Raises KeyboardInterrupt; Line (py "exit")] killed_os)
  = main (interrupted (get_prompt killed_os) (isatty killed_os)
            [Line (py "exit")] killed_os)
  /\ fst (main (set_stdin [Raises KeyboardInterrupt; Line (py "exit")]
                  killed_os))
     = Raise (SystemExit 0)
  /\ stdout (snd (main (set_stdin [Raises KeyboardInterrupt; Line (py "exit")]
                          killed_os)))
     = [[Chr.newline]].
Proof.
  destruct (proj1 (main_survives_interrupt
              (set_stdin [Raises KeyboardInterrupt; Line (py "exit")]
                 killed_os)
              KeyboardInterrupt [Line (py "exit")] eq_refl) eq_refl)
    as (_ & Hmain & _).
  split; [exact Hmain|]. split; vm_compute; reflexivity.
Defined.

Lemma parse_segments_omap (segments : list (list pystr)) :
  forall cmds : list command,
    parse_segments segments cmds = cmds ++ omap segment_command segments.
Proof.
  induction segments as [|seg segments IH]; intros cmds; simpl.
  - by rewrite app_nil_r.
  - destruct (segment_command seg) as [c|]; rewrite IH; [|done].
    by rewrite <- app_assoc.
Qed.

Lemma omap_length_le {A B} (f : A -> option B) (l : list A) :
  length (omap f l) <= length l.
Proof.
  induction l as [|x l IH]; simpl; [done|].
  change (list_omap A B f l) with (omap f l). destruct (f x); simpl; lia.
Qed.

(** X23: one command per segment that has a word, in the order of the
    line.  The commands of a non-empty token list are those of its
    segments, the segments without arguments left out, so there are at
    most as many commands as there are bars, and one. *)
Theorem parse_tokens_by_segment (tokens : list pystr) :
  tokens <> [] ->
  parse_tokens tokens = omap segment_command (split_segments tokens [] [])
  /\ length (parse_tokens tokens)
     <= S (length (filter (fun t => t = py "|") tokens)).
Proof.
  intros Hne.
  assert (H : parse_tokens tokens
              = omap segment_command (split_segments tokens [] [])).
  { unfold parse_tokens. destruct tokens; [done|].
    by rewrite parse_segments_omap. }
  split; [done|]. rewrite H.
  etrans; [apply omap_length_le|]. by rewrite split_segments_length.
Qed.

Lemma parse_tokens_by_segment_witness :
  length (parse_tokens (tokenize (py "a | | > f | b"))) <= 4.
Proof.
  apply (proj2 (parse_tokens_by_segment (tokenize (py "a | | > f | b"))
                  ltac:(discriminate))).
Defined.
